(** * neuroglancer/widget/scale_bar.ts

    A shallow embedding of the scale-bar module: the unit table and
    [pickLengthUnit], the quantizer [ScaleBarDimensions] with its [update]
    method, and the texture cache [ScaleBarTexture].

    The TypeScript type [number] and the [Math] namespace belong to the
    platform.  The code is therefore written once, against an interface
    [JSNumber], and read at the instance [binary64]: IEEE 754 double
    precision, the type the program runs on (Rocq's primitive floats, with
    NaN, the infinities and both zeros).  [Math.floor], [Math.round] and
    [Math.abs] are defined exactly; [Math.log] and [Math.pow], which
    ECMAScript leaves implementation-approximated, are taken from a
    [MathLib].

    Every result below is about the program as it runs at binary64; a few
    hold at any instance of the interface and are stated so.  Where a
    property bounds how far a computed number is from the quotient or the
    difference it rounds, the bound is stated on the real numbers the floats
    stand for ([B2R]); the rounding of each operation is derived from its
    specification in [SpecFloat].

    Objects are records and a method returns its result together with the
    object after the call.  The output fields of [ScaleBarDimensions] are
    optional, since the class leaves them undefined until [update] assigns
    them.  The graphics context, [setTextureFromCanvas], the text metrics
    and Number::toString are parameters of [ScaleBarTexture]; the reference
    counting inherited from [RefCounted] plays no part in the methods
    modelled. *)

From Stdlib Require Import ZArith QArith List String Bool Lia.
From Stdlib Require Import Floats Uint63.
From Stdlib Require Import Reals Lra Sorting.Sorted.
Import ListNotations.

Set Implicit Arguments.
Set Warnings "-inexact-float".

(* ------------------------------------------------------------------ *)
(** * The platform interface *)

Class JSNumber (number : Type) : Type := {
  (** a numeric literal of the source text *)
  lit : Q -> number;
  (** [*], [/], [-] *)
  mul : number -> number -> number;
  div : number -> number -> number;
  sub : number -> number -> number;
  (** [<], [>=], [===] *)
  lt : number -> number -> bool;
  ge : number -> number -> bool;
  strict_eq : number -> number -> bool;
  (** the [Math] namespace *)
  Math_abs : number -> number;
  Math_floor : number -> number;
  Math_round : number -> number;
  Math_log : number -> number;
  Math_pow : number -> number -> number;
  Math_LN10 : number
}.

(** [a <= b], as JavaScript evaluates it on numbers: [b >= a]. *)
Definition le {number} {N : JSNumber number} (a b : number) : bool := ge b a.

(* ------------------------------------------------------------------ *)
(** * The module, over any [JSNumber] *)

Section ScaleBar.

Context {number : Type} {N : JSNumber number}.

(** [const DEFAULT_ALLOWED_SIGNIFICANDS = [1.5, 2, 3, 5, 7.5, 10]] *)
Definition DEFAULT_ALLOWED_SIGNIFICANDS : list number :=
  [ lit (3 # 2); lit 2; lit 3; lit 5; lit (15 # 2); lit 10 ].

(** [interface LengthUnit] *)
Record LengthUnit : Type := {
  unit : string;
  lengthInNanometers : number
}.

(** [const ALLOWED_UNITS] *)
Definition ALLOWED_UNITS : list LengthUnit :=
  [ {| unit := "km"; lengthInNanometers := lit 1000000000000 |};
    {| unit := "m";  lengthInNanometers := lit 1000000000 |};
    {| unit := "mm"; lengthInNanometers := lit 1000000 |};
    {| unit := "µm"; lengthInNanometers := lit 1000 |};
    {| unit := "nm"; lengthInNanometers := lit 1 |};
    {| unit := "pm"; lengthInNanometers := lit (1 # 1000) |} ].

(** The body of the [for] loop of [pickLengthUnit], from index [i] on: the
    first unit that qualifies ends the loop ([break]); when the table is
    exhausted [unit] still holds its initial value. *)
Fixpoint pickLengthUnit_loop (lengthInNanometers0 : number)
    (units : list LengthUnit) (unit0 : LengthUnit) : LengthUnit :=
  match units with
  | [] => unit0
  | allowedUnit :: rest =>
      if ge lengthInNanometers0 (lengthInNanometers allowedUnit)
      then allowedUnit
      else pickLengthUnit_loop lengthInNanometers0 rest unit0
  end.

(** What indexing past the end of the table would read; the table is a
    non-empty constant, so [pickLengthUnit] never sees it. *)
Definition no_unit : LengthUnit :=
  {| unit := "undefined"; lengthInNanometers := lit 0 |}.

(** [export function pickLengthUnit(lengthInNanometers: number)] *)
Definition pickLengthUnit (lengthInNanometers0 : number) : LengthUnit :=
  let numAllowedUnits := List.length ALLOWED_UNITS in
  let unit0 := nth (numAllowedUnits - 1) ALLOWED_UNITS no_unit in
  pickLengthUnit_loop lengthInNanometers0 ALLOWED_UNITS unit0.

(** [export class ScaleBarDimensions].  The three output fields are declared
    without an initializer: until [update] assigns them they are
    [undefined], here [None]. *)
Record ScaleBarDimensions : Type := {
  allowedSignificands : list number;
  targetLengthInPixels : number;
  nanometersPerPixel : number;
  lengthInPixels : option number;
  physicalLength : option number;
  physicalUnit : option string;
  prevNanometersPerPixel : number;
  prevTargetLengthInPixels : number
}.

(** [new ScaleBarDimensions()] *)
Definition new_ScaleBarDimensions : ScaleBarDimensions :=
  {| allowedSignificands := DEFAULT_ALLOWED_SIGNIFICANDS;
     targetLengthInPixels := lit 0;
     nanometersPerPixel := lit 0;
     lengthInPixels := None;
     physicalLength := None;
     physicalUnit := None;
     prevNanometersPerPixel := lit 0;
     prevTargetLengthInPixels := lit 0 |}.

(** The caller's assignments to the two input fields. *)
Definition set_inputs (d : ScaleBarDimensions)
    (targetLengthInPixels0 nanometersPerPixel0 : number) : ScaleBarDimensions :=
  {| allowedSignificands := allowedSignificands d;
     targetLengthInPixels := targetLengthInPixels0;
     nanometersPerPixel := nanometersPerPixel0;
     lengthInPixels := lengthInPixels d;
     physicalLength := physicalLength d;
     physicalUnit := physicalUnit d;
     prevNanometersPerPixel := prevNanometersPerPixel d;
     prevTargetLengthInPixels := prevTargetLengthInPixels d |}.

(** The [for ... of] loop of [update]: sweep the allowed significands in
    order, keep a candidate that is strictly closer to the target than the
    best so far, and [break] at the first one that is not. *)
Fixpoint closestSignificand (targetSignificand bestSignificand : number)
    (significands : list number) : number :=
  match significands with
  | [] => bestSignificand
  | allowedSignificand :: rest =>
      if lt (Math_abs (sub allowedSignificand targetSignificand))
            (Math_abs (sub bestSignificand targetSignificand))
      then closestSignificand targetSignificand allowedSignificand rest
      else bestSignificand
  end.

(** The local constants of [update], in the order of the source. *)
Definition targetNanometers (d : ScaleBarDimensions) : number :=
  mul (targetLengthInPixels d) (nanometersPerPixel d).

Definition exponent (d : ScaleBarDimensions) : number :=
  Math_floor (div (Math_log (targetNanometers d)) Math_LN10).

Definition tenToThePowerExponent (d : ScaleBarDimensions) : number :=
  Math_pow (lit 10) (exponent d).

Definition targetSignificand (d : ScaleBarDimensions) : number :=
  div (targetNanometers d) (tenToThePowerExponent d).

Definition bestSignificand (d : ScaleBarDimensions) : number :=
  closestSignificand (targetSignificand d) (lit 1) (allowedSignificands d).

Definition physicalNanometers (d : ScaleBarDimensions) : number :=
  mul (bestSignificand d) (tenToThePowerExponent d).

(** [ScaleBarDimensions.update()]: the returned flag and the object after
    the call. *)
Definition update (d : ScaleBarDimensions) : bool * ScaleBarDimensions :=
  if strict_eq (prevNanometersPerPixel d) (nanometersPerPixel d) &&
     strict_eq (prevTargetLengthInPixels d) (targetLengthInPixels d)
  then (false, d)
  else
    let unit0 := pickLengthUnit (physicalNanometers d) in
    (true,
     {| allowedSignificands := allowedSignificands d;
        targetLengthInPixels := targetLengthInPixels d;
        nanometersPerPixel := nanometersPerPixel d;
        lengthInPixels :=
          Some (Math_round (div (physicalNanometers d) (nanometersPerPixel d)));
        physicalLength :=
          Some (div (physicalNanometers d) (lengthInNanometers unit0));
        physicalUnit := Some (unit unit0);
        prevNanometersPerPixel := nanometersPerPixel d;
        prevTargetLengthInPixels := targetLengthInPixels d |}).

End ScaleBar.

Arguments LengthUnit number : clear implicits.
Arguments ScaleBarDimensions number : clear implicits.

(* ------------------------------------------------------------------ *)
(** * The binary64 instance *)

Module Binary64.

Local Open Scope float_scope.

(** An integer as a float; exact for magnitudes up to [2^53]. *)
Definition of_Z (z : Z) : float :=
  match z with
  | Z0 => 0
  | Zpos _ => of_uint63 (Uint63.of_Z z)
  | Zneg p => - of_uint63 (Uint63.of_Z (Zpos p))
  end.

(** A decimal literal [n/d] whose numerator and denominator are exact
    floats: the correctly rounded quotient is the float nearest to the
    literal, which is how ECMAScript reads a numeric literal. *)
Definition literal (q : Q) : float := of_Z (Qnum q) / of_Z (Zpos (Qden q)).

(** [Math.floor]: the greatest integral number not above [x]; NaN, the
    infinities, the zeros and integral numbers are returned as they are. *)
Definition floor (x : float) : float :=
  match Prim2SF x with
  | S754_finite s m e =>
      if (0 <=? e)%Z then x
      else
        let d := (2 ^ (- e))%Z in
        let q := (Zpos m / d)%Z in
        if s then (if (Zpos m mod d =? 0)%Z then - of_Z q else - of_Z (q + 1))
        else of_Z q
  | _ => x
  end.

(** [Math.round]: the integral number closest to [x], the one closer to
    +Infinity on a tie; the result for [-0.5 <= x < 0] is [-0]. *)
Definition round (x : float) : float :=
  match Prim2SF x with
  | S754_finite s m e =>
      if (0 <=? e)%Z then x
      else
        let d := (2 ^ (- e))%Z in
        let v := if s then Zneg m else Zpos m in
        let r := ((2 * v + d) / (2 * d))%Z in
        if (r =? 0)%Z then (if s then neg_zero else zero) else of_Z r
  | _ => x
  end.

(** [Math.LN10], the float nearest to ln 10: 2.302585092994046. *)
Definition LN10 : float := 0x1.26bb1bbb55516p+1.

(** The part of [Math] that ECMAScript leaves implementation-approximated. *)
Class MathLib : Type := {
  log : float -> float;
  pow : float -> float -> float
}.

#[export] Instance binary64 {M : MathLib} : JSNumber float := {|
  lit := literal;
  mul := PrimFloat.mul;
  div := PrimFloat.div;
  sub := PrimFloat.sub;
  lt := PrimFloat.ltb;
  ge := fun a b => PrimFloat.leb b a;
  strict_eq := PrimFloat.eqb;
  Math_abs := PrimFloat.abs;
  Math_floor := floor;
  Math_round := round;
  Math_log := log;
  Math_pow := pow;
  Math_LN10 := LN10
|}.

(** What ECMAScript prescribes exactly for [Math.log] and for
    [Math.pow] with a base above 1 (the program only raises 10): the values
    at NaN, at the zeros, at 1 and at the infinities. *)
Definition ecma_special_values (M : MathLib) : Prop :=
  log nan = nan /\
  (forall x, (x <? 0) = true -> log x = nan) /\
  log 0 = neg_infinity /\
  log neg_zero = neg_infinity /\
  log 1 = 0 /\
  log infinity = infinity /\
  (forall b, pow b nan = nan) /\
  (forall b, pow b 0 = 1) /\
  (forall b, pow b neg_zero = 1) /\
  pow 10 infinity = infinity /\
  pow 10 neg_infinity = 0.

(** ** A reference [MathLib]

    A plain implementation of the two functions in binary64 arithmetic,
    used to run the program: the prescribed special values, then argument
    reduction and a series.  It is one admissible platform, not the
    definition of one. *)
Module Reference.

Definition LN2 : float := 0x1.62e42fefa39efp-1.
Definition SQRT1_2 : float := 0x1.6a09e667f3bcdp-1.

(** The integer value of an integral float (the floor of any finite one). *)
Definition to_Z (x : float) : Z :=
  match Prim2SF x with
  | S754_finite s m e =>
      let v := if s then Zneg m else Zpos m in
      if (0 <=? e)%Z then (v * 2 ^ e)%Z else (v / 2 ^ (- e))%Z
  | _ => 0%Z
  end.

(** [1/1 + z/3 + z^2/5 + ...], [n] terms, by Horner's rule. *)
Fixpoint atanh_terms (z : float) (n : nat) (acc : float) : float :=
  match n with
  | O => acc
  | S n' => atanh_terms z n' (1 / of_Z (2 * Z.of_nat n' + 1) + z * acc)
  end.

(** [Math.log]: with [x = f * 2^e] and [f] in [[sqrt 1/2, sqrt 2)],
    [ln x = e * ln 2 + 2 * atanh ((f - 1) / (f + 1))]. *)
Definition log (x : float) : float :=
  if is_nan x then nan
  else if x <? 0 then nan
  else if x =? 0 then neg_infinity
  else if x =? infinity then infinity
  else
    let (f, e) := Z.frexp x in
    let (f, e) := if f <? SQRT1_2 then (f * 2, (e - 1)%Z) else (f, e) in
    let s := (f - 1) / (f + 1) in
    of_Z e * LN2 + 2 * s * atanh_terms (s * s) 14 0.

(** [1 + r/1 * (1 + r/2 * (1 + ...))], [n] terms. *)
Fixpoint exp_terms (r : float) (n : nat) (acc : float) : float :=
  match n with
  | O => acc
  | S n' => exp_terms r n' (1 + r / of_Z (Z.of_nat n) * acc)
  end.

(** [e^x = 2^k * e^r] with [k] the integer nearest to [x / ln 2]. *)
Definition exp (x : float) : float :=
  if is_nan x then nan
  else if x =? infinity then infinity
  else if x =? neg_infinity then 0
  else
    let k := round (x / LN2) in
    Z.ldexp (exp_terms (x - k * LN2) 22 1) (to_Z k).

(** [b^p] by squaring. *)
Fixpoint pow_pos (b : float) (p : positive) : float :=
  match p with
  | xH => b
  | xO p' => let h := pow_pos b p' in h * h
  | xI p' => let h := pow_pos b p' in b * (h * h)
  end.

(** [Math.pow], after Number::exponentiate: the special exponents first,
    integral exponents by repeated multiplication (which gives zero and
    infinite bases their prescribed results), the others through [exp]. *)
Definition pow (b e : float) : float :=
  if is_nan e then nan
  else if e =? 0 then 1
  else if is_nan b then nan
  else if e =? infinity then
    (if 1 <? abs b then infinity else if abs b =? 1 then nan else 0)
  else if e =? neg_infinity then
    (if 1 <? abs b then 0 else if abs b =? 1 then nan else infinity)
  else if floor e =? e then
    match to_Z e with
    | Zpos p => pow_pos b p
    | Zneg p => 1 / pow_pos b p
    | Z0 => 1
    end
  else if (b <? 0) && negb (b =? neg_infinity) then nan
  else exp (e * log (abs b)).

Definition math : MathLib := {| Binary64.log := log; Binary64.pow := pow |}.

End Reference.

End Binary64.

(* ------------------------------------------------------------------ *)
(** * The real number a binary64 number stands for *)

Section Values.

Local Unset Implicit Arguments.
Local Open Scope R_scope.

(** [2^e] *)
Definition bpow (e : Z) : R := powerRZ 2 e.

(** The real number a finite float stands for, [+-m * 2^e]; 0 for the
    zeros and, by convention, for NaN and the infinities. *)
Definition SF2R (f : spec_float) : R :=
  match f with
  | S754_finite s m e =>
      if s then - (IZR (Zpos m) * bpow e) else IZR (Zpos m) * bpow e
  | _ => 0
  end.

(** A zero or a finite number: neither NaN nor an infinity. *)
Definition SFfinite (f : spec_float) : bool :=
  match f with
  | S754_zero _ | S754_finite _ _ _ => true
  | _ => false
  end.

(** The same on primitive floats. *)
Definition B2R (x : float) : R := SF2R (Prim2SF x).

Definition finite (x : float) : bool := SFfinite (Prim2SF x).

(** What a comparison says of two real numbers. *)
Definition cmp_holds (c : comparison) (x y : R) : Prop :=
  match c with
  | Lt => x < y
  | Eq => x = y
  | Gt => y < x
  end.

(** The place of [x] in [[m * 2^e, (m + 1) * 2^e)], as the rounding of
    [SpecFloat] records it: on the lower end, in the lower half, in the
    middle, or in the upper half. *)
Definition Loc (m e : Z) (l : location) (x : R) : Prop :=
  match l with
  | loc_Exact => x = IZR m * bpow e
  | loc_Inexact Lt => IZR m * bpow e < x < (IZR m + / 2) * bpow e
  | loc_Inexact Eq => x = (IZR m + / 2) * bpow e
  | loc_Inexact Gt => (IZR m + / 2) * bpow e < x < (IZR m + 1) * bpow e
  end.

(** The same for a mantissa with the round and sticky bits of a shift. *)
Definition LocR (mrs : shr_record) (e : Z) (x : R) : Prop :=
  Loc (shr_m mrs) e (loc_of_shr_record mrs) x.

End Values.

(* ------------------------------------------------------------------ *)
(** * The properties under study, over any [JSNumber] *)

Section Properties.

Context {number : Type} {N : JSNumber number}.

(** The explicit minimum-by-distance scan the specification compares the
    loop of [update] with: every member of the set is examined, and the best
    so far is replaced by each strictly closer one. *)
Fixpoint fullScanMinimum (targetSignificand0 bestSignificand0 : number)
    (significands : list number) : number :=
  match significands with
  | [] => bestSignificand0
  | allowedSignificand :: rest =>
      fullScanMinimum targetSignificand0
        (if lt (Math_abs (sub allowedSignificand targetSignificand0))
               (Math_abs (sub bestSignificand0 targetSignificand0))
         then allowedSignificand else bestSignificand0)
        rest
  end.

(** The early-exit scan and the full scan agree at a target, for the
    default set. *)
Definition scans_agree (targetSignificand0 : number) : Prop :=
  closestSignificand targetSignificand0 (lit 1) DEFAULT_ALLOWED_SIGNIFICANDS =
  fullScanMinimum targetSignificand0 (lit 1) DEFAULT_ALLOWED_SIGNIFICANDS.

(** The length in nanometers of the unit of that name in the table. *)
Definition unitLength (name : string) : option number :=
  option_map (@lengthInNanometers number)
    (find (fun u => String.eqb (unit u) name) ALLOWED_UNITS).

(** The outputs agree with each other:
    [|lengthInPixels * nanometersPerPixel - physicalLength * unit length|
     <= nanometersPerPixel / 2]. *)
Definition consistent (d : ScaleBarDimensions number) : bool :=
  match lengthInPixels d, physicalLength d, physicalUnit d with
  | Some pixels, Some physical, Some name =>
      match unitLength name with
      | Some len =>
          le (Math_abs (sub (mul pixels (nanometersPerPixel d)) (mul physical len)))
             (div (nanometersPerPixel d) (lit 2))
      | None => false
      end
  | _, _, _ => false
  end.

(** [physicalNanometers] is a closest member of the allowed set, together
    with 1, to the target significand, times the power of ten. *)
Definition quantized (d : ScaleBarDimensions number) : Prop :=
  exists best,
    In best (lit 1 :: allowedSignificands d) /\
    (forall a, In a (lit 1 :: allowedSignificands d) ->
       le (Math_abs (sub best (targetSignificand d)))
          (Math_abs (sub a (targetSignificand d))) = true) /\
    physicalNanometers d = mul best (tenToThePowerExponent d).

(** The change test of [update], read as identity of the inputs with the
    cached ones. *)
Definition inputs_identical (d : ScaleBarDimensions number) : Prop :=
  nanometersPerPixel d = prevNanometersPerPixel d /\
  targetLengthInPixels d = prevTargetLengthInPixels d.

(** [n] further calls of [update] on the same object. *)
Definition after_updates (n : nat) (d : ScaleBarDimensions number) :
    ScaleBarDimensions number :=
  Nat.iter n (fun d' => snd (update d')) d.

End Properties.

(* ------------------------------------------------------------------ *)
(** * Properties that bound a rounding error, at binary64 *)

Section Properties64.

Import Binary64.
Local Unset Implicit Arguments.
Context {M : MathLib}.

(** Consecutive members, from [best] on, are at least [g] apart. *)
Fixpoint spaced (g : R) (best : float) (l : list float) : Prop :=
  match l with
  | [] => True
  | a :: rest => (B2R best + g <= B2R a)%R /\ spaced g a rest
  end.

(** A number within [2^50] of the target. *)
Definition near (t a : float) : Prop :=
  finite a = true /\ (Rabs (B2R a - B2R t) <= bpow 50)%R.

(** Between [2^-500] and [2^500]. *)
Definition in_range (x : float) : bool :=
  (0x1p-500 <=? x)%float && (x <=? 0x1p500)%float.

(** The outputs are finite and agree with each other up to [tol], the
    products taken exactly:
    [|lengthInPixels * nanometersPerPixel - physicalLength * unit length|
     <= nanometersPerPixel / 2 + tol]. *)
Definition consistent_within (tol : R) (d : ScaleBarDimensions float) : Prop :=
  match lengthInPixels d, physicalLength d, physicalUnit d with
  | Some pixels, Some physical, Some name =>
      match unitLength name with
      | Some len =>
          is_finite pixels = true /\ is_finite physical = true /\
          (Rabs (B2R pixels * B2R (nanometersPerPixel d) - B2R physical * B2R len)
           <= B2R (nanometersPerPixel d) / 2 + tol)%R
      | None => False
      end
  | _, _, _ => False
  end.

End Properties64.

(* ------------------------------------------------------------------ *)
(** * ScaleBarTexture, at binary64 *)

Module Texture.

Import Binary64.
Local Open Scope string_scope.
Local Open Scope float_scope.

(** [Math.max] of two numbers: NaN if either is, and [+0] above [-0]. *)
Definition Math_max (a b : float) : float :=
  if is_nan a || is_nan b then nan
  else if a <? b then b
  else if b <? a then a
  else if a =? 0 then a + b
  else a.

(** ToNumber of a field that may still be [undefined]. *)
Definition ToNumber (x : option float) : float :=
  match x with Some v => v | None => nan end.

(** The 2D context calls made on a canvas, in program order. *)
Inductive CanvasOp : Type :=
| set_font (font : string)
| set_fillStyle (style : string)
| set_textAlign (align : string)
| set_width (w : float)
| set_height (h : float)
| fillRect (x y w h : float)
| fillText (text : string) (x y : float).

Definition Canvas : Type := list CanvasOp.

Section WithCollaborators.

(** The platform and the collaborators of the module that are not part of
    this file: Number::toString, the text metrics of the 2D context, the
    graphics context, and [setTextureFromCanvas] of
    [neuroglancer/webgl/texture]. *)
Context {M : MathLib}.
Variable NumberToString : float -> string.
Variable measureText_width : string -> string -> float.
Variables GL WebGLTexture : Type.
Variable createTexture : GL -> option WebGLTexture * GL.
Variable setTextureFromCanvas : GL -> option WebGLTexture -> Canvas -> GL.

(** A template-literal substitution of a field that may be [undefined]. *)
Definition number_text (x : option float) : string :=
  match x with Some v => NumberToString v | None => "undefined" end.

Definition string_text (x : option string) : string :=
  match x with Some s => s | None => "undefined" end.

(** [function makeScaleBarTexture(dimensions, gl, texture)]: the canvas it
    draws, the graphics context after the upload, and the returned size. *)
Definition makeScaleBarTexture (dimensions : ScaleBarDimensions float)
    (gl : GL) (texture : option WebGLTexture) : GL * (float * float) :=
  let textHeight := 15 in
  let font := ("bold " ++ NumberToString textHeight ++ "px sans-serif")%string in
  let text :=
    (number_text (physicalLength dimensions) ++ " " ++
     string_text (physicalUnit dimensions))%string in
  let textMetrics_width := measureText_width font text in
  let innerWidth :=
    Math_max (ToNumber (lengthInPixels dimensions)) textMetrics_width in
  let barHeight := 8 in
  let barTopMargin := 5 in
  let innerHeight := barHeight + barTopMargin + textHeight in
  let padding := 2 in
  let totalHeight := innerHeight + 2 * padding in
  let totalWidth := innerWidth + 2 * padding in
  let canvas : Canvas :=
    [ set_font font;
      set_fillStyle "white";
      set_width totalWidth;
      set_height totalHeight;
      set_font font;
      set_textAlign "center";
      set_fillStyle "rgba(0, 0, 0, 0.3)";
      fillRect 0 0 totalWidth totalHeight;
      set_fillStyle "white";
      fillText text (totalWidth / 2)
        (totalHeight - padding - barHeight - barTopMargin);
      fillRect padding (totalHeight - padding - barHeight)
        (ToNumber (lengthInPixels dimensions)) barHeight ] in
  (setTextureFromCanvas gl texture canvas, (totalWidth, totalHeight)).

(** [export class ScaleBarTexture extends RefCounted]; the graphics context
    it refers to is threaded through the methods. *)
Record ScaleBarTexture : Type := {
  texture : option WebGLTexture;
  width : float;
  height : float;
  dimensions : ScaleBarDimensions float
}.

(** [new ScaleBarTexture(gl)] *)
Definition new_ScaleBarTexture : ScaleBarTexture :=
  {| texture := None; width := 0; height := 0;
     dimensions := new_ScaleBarDimensions |}.

(** [ScaleBarTexture.update()] *)
Definition update (this : ScaleBarTexture) (gl : GL) : ScaleBarTexture * GL :=
  let (changed, dimensions') := update (dimensions this) in
  match negb changed, texture this with
  | true, Some _ =>
      ({| texture := texture this; width := width this; height := height this;
          dimensions := dimensions' |}, gl)
  | _, _ =>
      let (texture', gl1) :=
        match texture this with
        | None => createTexture gl
        | Some _ => (texture this, gl)
        end in
      let (gl2, size) := makeScaleBarTexture dimensions' gl1 texture' in
      ({| texture := texture'; width := fst size; height := snd size;
          dimensions := dimensions' |}, gl2)
  end.

(** [ScaleBarTexture.disposed()], up to [super.disposed()]. *)
Definition disposed (deleteTexture : GL -> option WebGLTexture -> GL)
    (this : ScaleBarTexture) (gl : GL) : ScaleBarTexture * GL :=
  ({| texture := None; width := width this; height := height this;
      dimensions := dimensions this |},
   deleteTexture gl (texture this)).

End WithCollaborators.

End Texture.

(* ------------------------------------------------------------------ *)
(** * Sequences of frames *)

Section TextureDefs.

Import Binary64.
Context {M : MathLib}.
Variable NumberToString : float -> string.
Variable measureText_width : string -> string -> float.
Variables GL WebGLTexture : Type.
Variable createTexture : GL -> option WebGLTexture * GL.
Variable setTextureFromCanvas : GL -> option WebGLTexture -> Texture.Canvas -> GL.

(** [n] successive calls of [ScaleBarTexture.update()], the inputs left
    alone in between. *)
Fixpoint texture_updates (n : nat) (this : Texture.ScaleBarTexture WebGLTexture)
    (gl : GL) : Texture.ScaleBarTexture WebGLTexture * GL :=
  match n with
  | O => (this, gl)
  | S n' =>
      let (this', gl') :=
        Texture.update NumberToString measureText_width createTexture
          setTextureFromCanvas this gl in
      texture_updates n' this' gl'
  end.

End TextureDefs.

(** A stand-in for the collaborators, to run [ScaleBarTexture]: a graphics
    context that counts the calls made on it and hands out that count as
    the next handle, a fixed text width and a fixed number format. *)
Module Counting.

Definition createTexture (gl : nat) : option nat * nat := (Some gl, S gl).
Definition setTextureFromCanvas (gl : nat) (t : option nat)
    (c : Texture.Canvas) : nat := S gl.
Definition deleteTexture (gl : nat) (t : option nat) : nat := S gl.
Definition NumberToString (x : float) : string := "2"%string.
Definition measureText_width (font text : string) : float := 40%float.

Definition update :=
  Texture.update (M := Binary64.Reference.math) NumberToString measureText_width
    createTexture setTextureFromCanvas.

Definition updates :=
  texture_updates (M := Binary64.Reference.math) NumberToString
    measureText_width createTexture setTextureFromCanvas.

End Counting.

(* ------------------------------------------------------------------ *)
(** * The binary64 platform on examples *)

Section PlatformExamples.

Import Binary64.
Local Open Scope float_scope.
#[local] Existing Instance Reference.math.

Example literal_examples :
  literal (3 # 2) = 1.5 /\ literal (15 # 2) = 7.5 /\
  literal 1000000000000 = 1e12 /\ literal (1 # 1000) = 1e-3.
Proof. repeat split. Qed.

Example floor_examples :
  floor 2.5 = 2 /\ floor (-2.5) = -3 /\ floor 3 = 3 /\ floor (-0.5) = -1 /\
  floor 0.5 = 0 /\ floor neg_zero = neg_zero /\ floor nan = nan /\
  floor neg_infinity = neg_infinity /\ floor 2.9999999999999996 = 2.
Proof. repeat split. Qed.

Example round_examples :
  round 2.5 = 3 /\ round (-2.5) = -2 /\ round 2.4 = 2 /\ round (-0.5) = neg_zero /\
  round 0.49999999999999994 = 0 /\ round nan = nan /\
  round infinity = infinity /\ round (2000 / 37) = 54.
Proof. repeat split. Qed.

(** Scenario A of the specification on the reference library: 100 pixels
    of 10 nm are labelled 1 µm and drawn 100 pixels long.  The logarithm of
    1000 divided by [LN10] falls just below 3, so the exponent is 2 and the
    target significand 10, which is why 10 belongs to the allowed set. *)
Example update_scenario_A :
  exponent (set_inputs new_ScaleBarDimensions 100 10) = 2 /\
  targetSignificand (set_inputs new_ScaleBarDimensions 100 10) = 10 /\
  update (set_inputs new_ScaleBarDimensions 100 10) =
  (true,
   {| allowedSignificands := DEFAULT_ALLOWED_SIGNIFICANDS;
      targetLengthInPixels := 100;
      nanometersPerPixel := 10;
      lengthInPixels := Some 100;
      physicalLength := Some 1;
      physicalUnit := Some "µm"%string;
      prevNanometersPerPixel := 10;
      prevTargetLengthInPixels := 100 |}).
Proof. repeat split; vm_compute; reflexivity. Qed.

End PlatformExamples.

(* ------------------------------------------------------------------ *)
(** * pickLengthUnit *)

Section PickLengthUnit.

Import Binary64.
Local Open Scope float_scope.
Context {M : MathLib}.

(** The loop, on any table: the result is the first qualifying entry, or the
    initial value when no entry qualifies. *)
Lemma loop_first {number} {N : JSNumber number} (x : number) units unit0 :
  (exists i, nth_error units i = Some (pickLengthUnit_loop x units unit0) /\
             ge x (lengthInNanometers (pickLengthUnit_loop x units unit0)) = true /\
             forall j u, (j < i)%nat -> nth_error units j = Some u ->
                         ge x (lengthInNanometers u) = false) \/
  ((forall u, In u units -> ge x (lengthInNanometers u) = false) /\
   pickLengthUnit_loop x units unit0 = unit0).
Proof.
  induction units as [|a rest IH]; simpl.
  - right. split; [intros u []|reflexivity].
  - destruct (ge x (lengthInNanometers a)) eqn:Ha.
    + left. exists 0%nat. simpl. repeat split; auto. intros j u Hj. lia.
    + destruct IH as [[i [Hi [Hq Hbefore]]]|[Hnone Hdef]].
      * left. exists (S i). simpl. repeat split; auto.
        intros [|j] u Hj Hu; simpl in Hu.
        -- now inversion Hu; subst.
        -- apply (Hbefore j); [lia|assumption].
      * right. split; [|assumption].
        intros u [<-|Hu]; auto.
Qed.

(** C3. For every length [x] (in particular every [x >= 0]),
    [pickLengthUnit x] is one unit of the fixed table km = 1e12, m = 1e9,
    mm = 1e6, µm = 1e3, nm = 1, pm = 1e-3: the first one, in table order,
    whose length is [<= x], or pm, the last one, when none qualifies.  The
    table is descending, so the choice is the largest qualifying unit, and
    at an exact boundary the larger unit wins: [pickLengthUnit 1000] is µm. *)
Theorem pickLengthUnit_first_qualifying (x : float) :
  map (fun u => (unit u, lengthInNanometers u)) ALLOWED_UNITS =
    [ ("km"%string, 1e12); ("m"%string, 1e9); ("mm"%string, 1e6);
      ("µm"%string, 1e3); ("nm"%string, 1); ("pm"%string, 1e-3) ] /\
  In (pickLengthUnit x) ALLOWED_UNITS /\
  ((exists i,
      nth_error ALLOWED_UNITS i = Some (pickLengthUnit x) /\
      (lengthInNanometers (pickLengthUnit x) <=? x) = true /\
      forall j u, (j < i)%nat -> nth_error ALLOWED_UNITS j = Some u ->
                  (lengthInNanometers u <=? x) = false) \/
   ((forall u, In u ALLOWED_UNITS -> (lengthInNanometers u <=? x) = false) /\
    unit (pickLengthUnit x) = "pm"%string)) /\
  (forall u, In u ALLOWED_UNITS ->
             (lengthInNanometers u <=? x) = true ->
             (lengthInNanometers u <=? lengthInNanometers (pickLengthUnit x)) = true) /\
  unit (pickLengthUnit 1000) = "µm"%string.
Proof.
  split; [vm_compute; reflexivity|].
  assert (Hfirst := loop_first x ALLOWED_UNITS
                      (nth (List.length ALLOWED_UNITS - 1) ALLOWED_UNITS no_unit)).
  fold (pickLengthUnit x) in Hfirst.
  split; [|split; [|split]].
  - destruct Hfirst as [[i [Hi _]]|[_ Hdef]].
    + eapply nth_error_In; eassumption.
    + rewrite Hdef. simpl. tauto.
  - destruct Hfirst as [Hfound|[Hnone Hdef]]; [left; exact Hfound|right].
    split; [exact Hnone|]. rewrite Hdef. reflexivity.
  - intros u Hu Hq.
    destruct Hfirst as [[i [Hi [_ Hbefore]]]|[Hnone _]].
    + assert (Hb : forall j, (j < i)%nat -> forall v,
                 nth_error ALLOWED_UNITS j = Some v ->
                 (lengthInNanometers v <=? x) = false)
        by (intros j Hj v Hv; exact (Hbefore j v Hj Hv)).
      clear Hbefore.
      destruct i as [|[|[|[|[|[|i]]]]]]; simpl in Hi; inversion Hi as [Hpick];
        try (destruct i; discriminate);
        simpl in Hu;
        repeat (destruct Hu as [<-|Hu]; [|]); try contradiction;
        try (vm_compute; reflexivity);
        exfalso;
        first [ specialize (Hb 0%nat ltac:(lia) _ eq_refl); simpl in Hb, Hq; congruence
              | specialize (Hb 1%nat ltac:(lia) _ eq_refl); simpl in Hb, Hq; congruence
              | specialize (Hb 2%nat ltac:(lia) _ eq_refl); simpl in Hb, Hq; congruence
              | specialize (Hb 3%nat ltac:(lia) _ eq_refl); simpl in Hb, Hq; congruence
              | specialize (Hb 4%nat ltac:(lia) _ eq_refl); simpl in Hb, Hq; congruence ].
    + pose proof (Hnone u Hu) as Hn. simpl in Hn. congruence.
  - vm_compute. reflexivity.
Qed.

End PickLengthUnit.

(* ------------------------------------------------------------------ *)
(** * Facts about binary64 comparisons *)

Section FloatFacts.

Local Open Scope float_scope.

Lemma SFeqb_refl (f : spec_float) : f <> S754_nan -> SFeqb f f = true.
Proof.
  intros Hf. unfold SFeqb. destruct f as [s|s| |s m e]; simpl.
  - reflexivity.
  - destruct s; reflexivity.
  - contradiction.
  - destruct s; rewrite Z.compare_refl;
      change (Pos.compare_cont Eq m m) with (Pos.compare m m);
      rewrite Pos.compare_refl; reflexivity.
Qed.

Lemma is_nan_Prim2SF (x : float) :
  is_nan x = true <-> Prim2SF x = S754_nan.
Proof.
  unfold is_nan. rewrite FloatAxioms.eqb_spec. split.
  - intros Hx. destruct (Prim2SF x) eqn:E; try reflexivity;
      rewrite SFeqb_refl in Hx by discriminate; discriminate.
  - intros ->. reflexivity.
Qed.

Lemma is_nan_eq (x : float) : is_nan x = true -> x = nan.
Proof.
  intros Hx. apply Prim2SF_inj. apply is_nan_Prim2SF in Hx. rewrite Hx.
  reflexivity.
Qed.

(** NaN is not [===] to anything, itself included. *)
Lemma eqb_nan_r (x y : float) : is_nan x = true -> (y =? x) = false.
Proof.
  intros Hx. apply is_nan_Prim2SF in Hx. rewrite FloatAxioms.eqb_spec, Hx.
  destruct (Prim2SF y) as [s|s| |s m e]; reflexivity.
Qed.

Lemma eqb_zero_Prim2SF (x : float) :
  (x =? 0) = true -> exists s, Prim2SF x = S754_zero s.
Proof.
  rewrite FloatAxioms.eqb_spec. change (Prim2SF 0) with (S754_zero false).
  destruct (Prim2SF x) as [s|s| |s m e]; simpl.
  - intros _. now exists s.
  - destruct s; discriminate.
  - discriminate.
  - destruct s; discriminate.
Qed.

End FloatFacts.

(* ------------------------------------------------------------------ *)
(** * Change detection of ScaleBarDimensions.update *)

Section ChangeDetection.

Context {number : Type} {N : JSNumber number}.

Lemma update_unchanged (d : ScaleBarDimensions number) :
  fst (update d) = false -> snd (update d) = d.
Proof.
  unfold update.
  destruct (strict_eq (prevNanometersPerPixel d) (nanometersPerPixel d) &&
            strict_eq (prevTargetLengthInPixels d) (targetLengthInPixels d));
    simpl; [reflexivity|discriminate].
Qed.

(** [update] never assigns the input fields or the allowed set. *)
Lemma update_keeps_inputs (d : ScaleBarDimensions number) :
  nanometersPerPixel (snd (update d)) = nanometersPerPixel d /\
  targetLengthInPixels (snd (update d)) = targetLengthInPixels d /\
  allowedSignificands (snd (update d)) = allowedSignificands d.
Proof.
  unfold update.
  destruct (strict_eq (prevNanometersPerPixel d) (nanometersPerPixel d) &&
            strict_eq (prevTargetLengthInPixels d) (targetLengthInPixels d));
    simpl; auto.
Qed.

(** What a call that returns true assigns. *)
Lemma update_changed (d : ScaleBarDimensions number) :
  fst (update d) = true ->
  lengthInPixels (snd (update d)) =
    Some (Math_round (div (physicalNanometers d) (nanometersPerPixel d))) /\
  physicalLength (snd (update d)) =
    Some (div (physicalNanometers d)
              (lengthInNanometers (pickLengthUnit (physicalNanometers d)))) /\
  physicalUnit (snd (update d)) =
    Some (unit (pickLengthUnit (physicalNanometers d))) /\
  prevNanometersPerPixel (snd (update d)) = nanometersPerPixel d /\
  prevTargetLengthInPixels (snd (update d)) = targetLengthInPixels d.
Proof.
  unfold update.
  destruct (strict_eq (prevNanometersPerPixel d) (nanometersPerPixel d) &&
            strict_eq (prevTargetLengthInPixels d) (targetLengthInPixels d));
    simpl; [discriminate|]. intros _. repeat split.
Qed.

(** C4 (amended). [update] returns false exactly when both inputs are [===]
    to the cached previous inputs, and then leaves the whole object, the
    three outputs included, untouched; otherwise it returns true, caches the
    inputs and assigns all three outputs from them. *)
Theorem update_unchanged_iff_strict_eq (d : ScaleBarDimensions number) :
  (fst (update d) = false <->
   strict_eq (prevNanometersPerPixel d) (nanometersPerPixel d) = true /\
   strict_eq (prevTargetLengthInPixels d) (targetLengthInPixels d) = true) /\
  (fst (update d) = false -> snd (update d) = d) /\
  (fst (update d) = true <->
   strict_eq (prevNanometersPerPixel d) (nanometersPerPixel d) = false \/
   strict_eq (prevTargetLengthInPixels d) (targetLengthInPixels d) = false) /\
  (fst (update d) = true ->
   lengthInPixels (snd (update d)) =
     Some (Math_round (div (physicalNanometers d) (nanometersPerPixel d))) /\
   physicalLength (snd (update d)) =
     Some (div (physicalNanometers d)
               (lengthInNanometers (pickLengthUnit (physicalNanometers d)))) /\
   physicalUnit (snd (update d)) =
     Some (unit (pickLengthUnit (physicalNanometers d))) /\
   prevNanometersPerPixel (snd (update d)) = nanometersPerPixel d /\
   prevTargetLengthInPixels (snd (update d)) = targetLengthInPixels d).
Proof.
  split; [|split; [apply update_unchanged|split]].
  - unfold update. rewrite <- andb_true_iff.
    destruct (strict_eq (prevNanometersPerPixel d) (nanometersPerPixel d) &&
              strict_eq (prevTargetLengthInPixels d) (targetLengthInPixels d));
      simpl; split; congruence.
  - unfold update. rewrite <- andb_false_iff.
    destruct (strict_eq (prevNanometersPerPixel d) (nanometersPerPixel d) &&
              strict_eq (prevTargetLengthInPixels d) (targetLengthInPixels d));
      simpl; split; congruence.
  - apply update_changed.
Qed.

End ChangeDetection.

Section ChangeDetectionReference.

Import Binary64.
Local Open Scope float_scope.
#[local] Existing Instance Reference.math.

(** C4, as stated, fails in both directions.  A first call with
    [nanometersPerPixel = NaN] caches the inputs; at the second call both
    inputs are identical to the cached ones, yet [update] returns true.
    And on a fresh object whose pixel size is set to [-0], [update] returns
    false although [-0] is not identical to the cached [0]. *)
Lemma update_changed_on_identical_nan :
  (inputs_identical
     (snd (update (set_inputs new_ScaleBarDimensions 100 nan))) /\
   fst (update (snd (update (set_inputs new_ScaleBarDimensions 100 nan)))) = true) /\
  (~ inputs_identical (set_inputs new_ScaleBarDimensions 0 neg_zero) /\
   fst (update (set_inputs new_ScaleBarDimensions 0 neg_zero)) = false).
Proof.
  split; [vm_compute; repeat split|].
  split; [|reflexivity].
  intros [E _]. simpl in E.
  assert (H : (1 / neg_zero <? 0) = (1 / literal 0 <? 0)) by (rewrite E; reflexivity).
  vm_compute in H. discriminate.
Qed.

End ChangeDetectionReference.

Section ChangeDetection64.

Import Binary64.
Local Open Scope float_scope.
Context {M : MathLib}.

Lemma update_nan_changed (d : ScaleBarDimensions float) :
  is_nan (nanometersPerPixel d) = true \/
  is_nan (targetLengthInPixels d) = true ->
  fst (update d) = true.
Proof.
  intros Hnan. unfold update.
  change (@strict_eq float binary64) with PrimFloat.eqb.
  destruct Hnan as [Hn|Hn]; rewrite (@eqb_nan_r _ _ Hn);
    rewrite ?andb_false_r; reflexivity.
Qed.

(** C9. If [nanometersPerPixel] or [targetLengthInPixels] is NaN, every
    call of [update] returns true: the call after any number [n] of earlier
    calls does, although from the second call on the inputs are identical to
    those cached by the call before. *)
Theorem update_nan_always_changed (d : ScaleBarDimensions float) (n : nat) :
  is_nan (nanometersPerPixel d) = true \/
  is_nan (targetLengthInPixels d) = true ->
  fst (update (after_updates n d)) = true /\
  inputs_identical (after_updates (S n) d).
Proof.
  intros Hnan.
  assert (Hkeep : forall k,
             nanometersPerPixel (after_updates k d) = nanometersPerPixel d /\
             targetLengthInPixels (after_updates k d) = targetLengthInPixels d).
  { induction k as [|k [IHn IHt]]; [split; reflexivity|].
    unfold after_updates in *. simpl.
    destruct (update_keeps_inputs
                (Nat.iter k (fun d' => snd (update d')) d)) as [Hn [Ht _]].
    rewrite Hn, Ht. auto. }
  assert (Hchanged : fst (update (after_updates n d)) = true).
  { apply update_nan_changed. destruct (Hkeep n) as [-> ->]. exact Hnan. }
  split; [exact Hchanged|].
  change (after_updates (S n) d) with (snd (update (after_updates n d))).
  destruct (update_changed (after_updates n d) Hchanged)
    as [_ [_ [_ [Hpn Hpt]]]].
  destruct (update_keeps_inputs (after_updates n d)) as [Hn [Ht _]].
  unfold inputs_identical. rewrite Hpn, Hpt, Hn, Ht. auto.
Qed.

(** C10. On a freshly constructed object, whose inputs and cached inputs are
    all 0, the first call of [update] returns false and changes nothing:
    [lengthInPixels], [physicalLength] and [physicalUnit] are still
    unassigned after it. *)
Theorem fresh_update_unchanged :
  targetLengthInPixels new_ScaleBarDimensions = 0 /\
  nanometersPerPixel new_ScaleBarDimensions = 0 /\
  update new_ScaleBarDimensions = (false, new_ScaleBarDimensions) /\
  lengthInPixels (snd (update new_ScaleBarDimensions)) = None /\
  physicalLength (snd (update new_ScaleBarDimensions)) = None /\
  physicalUnit (snd (update new_ScaleBarDimensions)) = None.
Proof. repeat split. Qed.

End ChangeDetection64.

Section ChangeDetectionWitness.

Import Binary64.
Local Open Scope float_scope.
#[local] Existing Instance Reference.math.

(** The hypothesis of C9 is met by an object whose pixel size is NaN. *)
Lemma update_nan_always_changed_witness :
  fst (update (after_updates 3 (set_inputs new_ScaleBarDimensions 100 nan))) = true /\
  inputs_identical (after_updates 4 (set_inputs new_ScaleBarDimensions 100 nan)).
Proof.
  apply (update_nan_always_changed (set_inputs new_ScaleBarDimensions 100 nan) 3).
  left. reflexivity.
Defined.

End ChangeDetectionWitness.

(* ------------------------------------------------------------------ *)
(** * Running update at binary64 *)

Section Reference.

Import Binary64.
Local Open Scope float_scope.

(** The reference library has the prescribed special values. *)
Lemma reference_special_values : ecma_special_values Reference.math.
Proof.
  unfold ecma_special_values. simpl.
  repeat split; try reflexivity.
  intros x Hx. unfold Reference.log. rewrite Hx. destruct (is_nan x); reflexivity.
Qed.

End Reference.

Section Update64.

Import Binary64.
Local Open Scope float_scope.
Context {M : MathLib}.

Lemma div_zero_special (x y : float) :
  (y =? 0) = true -> x / y = nan \/ x / y = infinity \/ x / y = neg_infinity.
Proof.
  intros Hy. destruct (@eqb_zero_Prim2SF _ Hy) as [sy Ey].
  assert (Hq : Prim2SF (x / y) = S754_nan \/
               exists s, Prim2SF (x / y) = S754_infinity s).
  { rewrite FloatAxioms.div_spec, Ey. unfold SF64div, SFdiv.
    destruct (Prim2SF x) as [s|s| |s m e]; eauto. }
  destruct Hq as [Hq|[s Hq]].
  - left. apply Prim2SF_inj. rewrite Hq. reflexivity.
  - right. destruct s; [right|left]; apply Prim2SF_inj; rewrite Hq; reflexivity.
Qed.

(** C5 (amended). [update] has no rejection path.  With
    [nanometersPerPixel = 0] (either zero) it returns a flag like for any
    other input, and when it recomputes (returns true) it assigns a
    [lengthInPixels] that is not finite: NaN or an infinity. *)
Theorem update_zero_pixel_size_not_finite (d : ScaleBarDimensions float) :
  (nanometersPerPixel d =? 0) = true ->
  fst (update d) = true ->
  exists v, lengthInPixels (snd (update d)) = Some v /\ is_finite v = false.
Proof.
  intros Hzero Hchanged.
  destruct (update_changed d Hchanged) as [Hpixels _].
  eexists. split; [exact Hpixels|].
  change (@div float binary64) with PrimFloat.div.
  change (@Math_round float binary64) with round.
  destruct (div_zero_special (physicalNanometers d) Hzero) as [E|[E|E]];
    rewrite E; reflexivity.
Qed.

(** On a platform with the prescribed special values, a pixel size of 0
    yields [lengthInPixels = NaN]. *)
Lemma update_zero_pixel_size_nan :
  ecma_special_values M ->
  update (set_inputs new_ScaleBarDimensions 50 0) =
  (true,
   {| allowedSignificands := DEFAULT_ALLOWED_SIGNIFICANDS;
      targetLengthInPixels := 50;
      nanometersPerPixel := 0;
      lengthInPixels := Some nan;
      physicalLength := Some 0;
      physicalUnit := Some "pm"%string;
      prevNanometersPerPixel := 0;
      prevTargetLengthInPixels := 50 |}).
Proof.
  intros (_ & _ & Hlog0 & _ & _ & _ & _ & _ & _ & _ & Hpow).
  set (d := set_inputs new_ScaleBarDimensions 50 0).
  assert (Hexp : exponent d = neg_infinity).
  { unfold exponent.
    change (Math_log (targetNanometers d)) with (log 0). rewrite Hlog0.
    reflexivity. }
  assert (Hten : tenToThePowerExponent d = 0).
  { unfold tenToThePowerExponent. rewrite Hexp. exact Hpow. }
  unfold update, physicalNanometers, bestSignificand, targetSignificand.
  rewrite Hten. vm_compute. reflexivity.
Qed.

(** C7. With [targetLengthInPixels = 50] and [nanometersPerPixel = 37] on a
    fresh object, on a platform where [Math.floor(Math.log(1850) /
    Math.LN10)] is 3 and [Math.pow(10, 3)] is 1000, [update] returns true
    with [physicalLength = 2], [physicalUnit = "µm"] and
    [lengthInPixels = 54]. *)
Theorem update_scenario_B :
  floor (log 1850 / LN10) = 3 ->
  pow 10 3 = 1000 ->
  update (set_inputs new_ScaleBarDimensions 50 37) =
  (true,
   {| allowedSignificands := DEFAULT_ALLOWED_SIGNIFICANDS;
      targetLengthInPixels := 50;
      nanometersPerPixel := 37;
      lengthInPixels := Some 54;
      physicalLength := Some 2;
      physicalUnit := Some "µm"%string;
      prevNanometersPerPixel := 37;
      prevTargetLengthInPixels := 50 |}).
Proof.
  intros Hlog Hpow.
  set (d := set_inputs new_ScaleBarDimensions 50 37).
  assert (Hexp : exponent d = 3) by exact Hlog.
  assert (Hten : tenToThePowerExponent d = 1000).
  { unfold tenToThePowerExponent. rewrite Hexp. exact Hpow. }
  unfold update, physicalNanometers, bestSignificand, targetSignificand.
  rewrite Hten. vm_compute. reflexivity.
Qed.

End Update64.

Section Update64Reference.

Import Binary64.
Local Open Scope float_scope.
#[local] Existing Instance Reference.math.

(** C5, as stated, fails: with [nanometersPerPixel = 0] (and a target
    length of 50) [update] does not fail; it returns true and leaves
    [lengthInPixels = NaN] in the object.  This holds on every platform with
    the prescribed special values, the reference one among them. *)
Lemma update_zero_pixel_size_returns_nan :
  ecma_special_values Reference.math /\
  (forall M : MathLib, ecma_special_values M ->
     fst (update (N := @binary64 M) (set_inputs new_ScaleBarDimensions 50 0)) = true /\
     lengthInPixels
       (snd (update (N := @binary64 M) (set_inputs new_ScaleBarDimensions 50 0))) =
     Some nan).
Proof.
  split; [exact reference_special_values|].
  intros M HM. rewrite (@update_zero_pixel_size_nan M HM). split; reflexivity.
Qed.

(** The hypotheses of the amended C5 are met by that object. *)
Lemma update_zero_pixel_size_not_finite_witness :
  exists v,
    lengthInPixels (snd (update (set_inputs new_ScaleBarDimensions 50 0))) = Some v /\
    is_finite v = false.
Proof.
  apply (@update_zero_pixel_size_not_finite Reference.math
           (set_inputs new_ScaleBarDimensions 50 0)); reflexivity.
Defined.

(** The hypotheses of C7 are met by the reference library. *)
Lemma update_scenario_B_witness :
  update (set_inputs new_ScaleBarDimensions 50 37) =
  (true,
   {| allowedSignificands := DEFAULT_ALLOWED_SIGNIFICANDS;
      targetLengthInPixels := 50;
      nanometersPerPixel := 37;
      lengthInPixels := Some 54;
      physicalLength := Some 2;
      physicalUnit := Some "µm"%string;
      prevNanometersPerPixel := 37;
      prevTargetLengthInPixels := 50 |}).
Proof.
  apply (@update_scenario_B Reference.math); vm_compute; reflexivity.
Defined.

End Update64Reference.

(* ------------------------------------------------------------------ *)
(** * The texture cache *)

Section TextureCache.

Import Binary64.
Context {M : MathLib}.
Variable NumberToString : float -> string.
Variable measureText_width : string -> string -> float.
Variables GL WebGLTexture : Type.
Variable createTexture : GL -> option WebGLTexture * GL.
Variable setTextureFromCanvas : GL -> option WebGLTexture -> Texture.Canvas -> GL.

Let texture_update :=
  Texture.update NumberToString measureText_width createTexture setTextureFromCanvas.
Let make (d : ScaleBarDimensions float) :=
  Texture.makeScaleBarTexture NumberToString measureText_width setTextureFromCanvas d.

(** Rasterizing ends with exactly one upload, to the handle it is given. *)
Lemma makeScaleBarTexture_uploads d gl (t : option WebGLTexture) :
  exists canvas, fst (make d gl t) = setTextureFromCanvas gl t canvas.
Proof. unfold make, Texture.makeScaleBarTexture. simpl. eexists. reflexivity. Qed.

(** C8. [ScaleBarTexture.update()] calls the quantizer's [update].  If that
    reports unchanged while a texture handle exists, nothing happens: the
    handle, [width], [height], the quantizer and the graphics context are as
    before.  If it reports a change while a handle exists, the image is
    rasterized and uploaded to that same handle, with no allocation.  If no
    handle exists, one is obtained from [createTexture], stored, and the
    image is rasterized and uploaded to it, whatever the quantizer
    reported.  In both rendering cases [width] and [height] are set to the
    size of the raster. *)
Theorem texture_update_cache (this : Texture.ScaleBarTexture WebGLTexture) (gl : GL) :
  (forall t, Texture.texture this = Some t ->
     fst (update (Texture.dimensions this)) = false ->
     texture_update this gl = (this, gl)) /\
  (forall t, Texture.texture this = Some t ->
     fst (update (Texture.dimensions this)) = true ->
     texture_update this gl =
     ({| Texture.texture := Some t;
         Texture.width :=
           fst (snd (make (snd (update (Texture.dimensions this))) gl (Some t)));
         Texture.height :=
           snd (snd (make (snd (update (Texture.dimensions this))) gl (Some t)));
         Texture.dimensions := snd (update (Texture.dimensions this)) |},
      fst (make (snd (update (Texture.dimensions this))) gl (Some t))) /\
     exists canvas,
       snd (texture_update this gl) = setTextureFromCanvas gl (Some t) canvas) /\
  (Texture.texture this = None ->
     texture_update this gl =
     ({| Texture.texture := fst (createTexture gl);
         Texture.width :=
           fst (snd (make (snd (update (Texture.dimensions this)))
                          (snd (createTexture gl)) (fst (createTexture gl))));
         Texture.height :=
           snd (snd (make (snd (update (Texture.dimensions this)))
                          (snd (createTexture gl)) (fst (createTexture gl))));
         Texture.dimensions := snd (update (Texture.dimensions this)) |},
      fst (make (snd (update (Texture.dimensions this)))
                (snd (createTexture gl)) (fst (createTexture gl)))) /\
     exists canvas,
       snd (texture_update this gl) =
       setTextureFromCanvas (snd (createTexture gl)) (fst (createTexture gl)) canvas).
Proof.
  destruct this as [tex w h d]. simpl.
  unfold texture_update, Texture.update. simpl.
  split; [|split].
  - intros t -> Hunchanged.
    pose proof (update_unchanged d Hunchanged) as Hd.
    destruct (update d) as [changed d']. simpl in *. subst changed d'.
    reflexivity.
  - intros t -> Hchanged.
    destruct (update d) as [changed d']. simpl in *. subst changed. simpl.
    split; [reflexivity|]. eexists. reflexivity.
  - intros ->.
    destruct (update d) as [changed d'].
    destruct (createTexture gl) as [t' gl1]. simpl.
    destruct changed; simpl; (split; [reflexivity|eexists; reflexivity]).
Qed.

End TextureCache.

(* ------------------------------------------------------------------ *)
(** * The quantizer in binary64: where rounding and overflow show *)

Section Rounding64.

Import Binary64.
Local Open Scope float_scope.
Context {M : MathLib}.

(** 2.5 pixels of 0.4 nm: one nanometer, drawn 3 pixels long. *)
Lemma update_scenario_rounding :
  ecma_special_values M ->
  update (set_inputs new_ScaleBarDimensions (lit (5 # 2)) (lit (2 # 5))) =
  (true,
   {| allowedSignificands := DEFAULT_ALLOWED_SIGNIFICANDS;
      targetLengthInPixels := lit (5 # 2);
      nanometersPerPixel := lit (2 # 5);
      lengthInPixels := Some 3;
      physicalLength := Some 1;
      physicalUnit := Some "nm"%string;
      prevNanometersPerPixel := lit (2 # 5);
      prevTargetLengthInPixels := lit (5 # 2) |}).
Proof.
  intros (_ & _ & _ & _ & Hlog1 & _ & _ & Hpow0 & _).
  set (d := set_inputs new_ScaleBarDimensions (lit (5 # 2)) (lit (2 # 5))).
  assert (Hexp : exponent d = 0).
  { unfold exponent.
    change (Math_log (targetNanometers d)) with (log 1). rewrite Hlog1.
    reflexivity. }
  assert (Hten : tenToThePowerExponent d = 1).
  { unfold tenToThePowerExponent. rewrite Hexp. apply Hpow0. }
  unfold update, physicalNanometers, bestSignificand, targetSignificand.
  rewrite Hten. vm_compute. reflexivity.
Qed.

(** 1e200 pixels of 1e200 nm: the product overflows. *)
Lemma update_scenario_overflow :
  ecma_special_values M ->
  targetSignificand (set_inputs new_ScaleBarDimensions 1e200 1e200) = nan /\
  physicalNanometers (set_inputs new_ScaleBarDimensions 1e200 1e200) = infinity.
Proof.
  intros (_ & _ & _ & _ & _ & Hloginf & _ & _ & _ & Hpowinf & _).
  set (d := set_inputs new_ScaleBarDimensions 1e200 1e200).
  assert (Hexp : exponent d = infinity).
  { unfold exponent.
    change (Math_log (targetNanometers d)) with (log infinity). rewrite Hloginf.
    reflexivity. }
  assert (Hten : tenToThePowerExponent d = infinity).
  { unfold tenToThePowerExponent. rewrite Hexp. exact Hpowinf. }
  assert (Hts : targetSignificand d = nan).
  { unfold targetSignificand. rewrite Hten. reflexivity. }
  split; [exact Hts|].
  unfold physicalNanometers, bestSignificand. rewrite Hts, Hten. reflexivity.
Qed.

End Rounding64.

(* ------------------------------------------------------------------ *)
(** * Further properties of the module *)

Section FloatOrder.
Local Open Scope float_scope.

Ltac order_cases :=
  repeat match goal with
  | |- context [Z.compare ?a ?b] => destruct (Z.compare_spec a b); subst
  | H : context [Z.compare ?a ?b] |- _ => destruct (Z.compare_spec a b); subst
  | |- context [Pos.compare_cont Eq ?a ?b] =>
      change (Pos.compare_cont Eq a b) with (Pos.compare a b);
      destruct (Pos.compare_spec a b); subst
  | H : context [Pos.compare_cont Eq ?a ?b] |- _ =>
      change (Pos.compare_cont Eq a b) with (Pos.compare a b) in H;
      destruct (Pos.compare_spec a b); subst
  end; simpl in *; try discriminate; try reflexivity; try lia.

Lemma SFleb_trans (a b c : spec_float) :
  SFleb a b = true -> SFleb b c = true -> SFleb a c = true.
Proof.
  unfold SFleb, SFcompare.
  destruct a as [sa|sa| |sa ma ea], b as [sb|sb| |sb mb eb],
           c as [sc|sc| |sc mc ec];
    try destruct sa; try destruct sb; try destruct sc;
    simpl; try discriminate; try reflexivity; intros Hab Hbc; order_cases.
Qed.

Lemma SFltb_leb_trans (a b c : spec_float) :
  SFltb a b = true -> SFleb b c = true -> SFltb a c = true.
Proof.
  unfold SFleb, SFltb, SFcompare.
  destruct a as [sa|sa| |sa ma ea], b as [sb|sb| |sb mb eb],
           c as [sc|sc| |sc mc ec];
    try destruct sa; try destruct sb; try destruct sc;
    simpl; try discriminate; try reflexivity; intros Hab Hbc; order_cases.
Qed.

Lemma SFltb_not_leb (a b : spec_float) :
  SFltb a b = true -> SFleb b a = false.
Proof.
  unfold SFleb, SFltb, SFcompare.
  destruct a as [sa|sa| |sa ma ea], b as [sb|sb| |sb mb eb];
    try destruct sa; try destruct sb;
    simpl; try discriminate; try reflexivity; intros Hab; order_cases.
Qed.

Lemma leb_trans (a b c : float) :
  (a <=? b) = true -> (b <=? c) = true -> (a <=? c) = true.
Proof. rewrite !FloatAxioms.leb_spec. apply SFleb_trans. Qed.

Lemma ltb_leb_trans (a b c : float) :
  (a <? b) = true -> (b <=? c) = true -> (a <? c) = true.
Proof. rewrite !FloatAxioms.ltb_spec, FloatAxioms.leb_spec. apply SFltb_leb_trans. Qed.

Lemma ltb_not_leb (a b : float) : (a <? b) = true -> (b <=? a) = false.
Proof. rewrite FloatAxioms.ltb_spec, FloatAxioms.leb_spec. apply SFltb_not_leb. Qed.

End FloatOrder.

Section Members.

Context {number : Type} {N : JSNumber number}.

Lemma closestSignificand_member (t best : number) (l : list number) :
  In (closestSignificand t best l) (best :: l).
Proof.
  revert best. induction l as [|a rest IH]; intros best; simpl; [auto|].
  destruct (lt (Math_abs (sub a t)) (Math_abs (sub best t))).
  - right. apply IH.
  - left. reflexivity.
Qed.

(** X1. The significand chosen by [update] is 1 or a member of the
    configured set, whatever the set, the inputs and the arithmetic; with an
    empty set it is 1. *)
Theorem bestSignificand_allowed (d : ScaleBarDimensions number) :
  In (bestSignificand d) (lit 1 :: allowedSignificands d) /\
  (allowedSignificands d = [] -> bestSignificand d = lit 1).
Proof.
  split; [apply closestSignificand_member|].
  intros E. unfold bestSignificand. rewrite E. reflexivity.
Qed.

End Members.

Section PickLengthUnit64.

Import Binary64.
Local Open Scope float_scope.
Context {M : MathLib}.

Lemma loop_result (x : float) units unit0 :
  In (pickLengthUnit_loop x units unit0) units \/
  pickLengthUnit_loop x units unit0 = unit0.
Proof.
  destruct (loop_first x units unit0) as [[i [Hi _]]|[_ Hdef]].
  - left. eapply nth_error_In; eassumption.
  - right. assumption.
Qed.

Lemma loop_monotone (x y : float) units unit0 :
  StronglySorted
    (fun u v => (lengthInNanometers v <=? lengthInNanometers u) = true) units ->
  Forall (fun u => (lengthInNanometers u <=? lengthInNanometers u) = true) units ->
  Forall (fun u => (lengthInNanometers unit0 <=? lengthInNanometers u) = true) units ->
  (lengthInNanometers unit0 <=? lengthInNanometers unit0) = true ->
  (x <=? y) = true ->
  (lengthInNanometers (pickLengthUnit_loop x units unit0) <=?
   lengthInNanometers (pickLengthUnit_loop y units unit0)) = true.
Proof.
  intros Hdesc Hrefl Hlow Hrefl0 Hxy.
  induction units as [|a rest IH]; simpl; [assumption|].
  inversion Hdesc as [|? ? Hrest Ha]; subst.
  inversion Hrefl as [|? ? Haa Hrefl']; subst.
  inversion Hlow as [|? ? H0a Hlow']; subst.
  change (@ge float binary64 ?p ?q) with (q <=? p).
  destruct (lengthInNanometers a <=? x) eqn:Hax.
  - rewrite (leb_trans Hax Hxy). assumption.
  - destruct (lengthInNanometers a <=? y) eqn:Hay.
    + destruct (loop_result x rest unit0) as [Hin|Hdef].
      * rewrite Forall_forall in Ha. apply Ha. assumption.
      * rewrite Hdef. assumption.
    + apply IH; assumption.
Qed.

(** X2. [pickLengthUnit] is monotone: a longer length never gets a smaller
    unit. *)
Theorem pickLengthUnit_monotone (x y : float) :
  (x <=? y) = true ->
  (lengthInNanometers (pickLengthUnit x) <=?
   lengthInNanometers (pickLengthUnit y)) = true.
Proof.
  intros Hxy. unfold pickLengthUnit. apply loop_monotone; try assumption.
  - unfold ALLOWED_UNITS.
    repeat (constructor; [|repeat constructor; vm_compute; reflexivity]).
    constructor.
  - repeat constructor; vm_compute; reflexivity.
  - repeat constructor; vm_compute; reflexivity.
  - vm_compute. reflexivity.
Qed.

(** X3. NaN and every length below one picometer, negative lengths
    included, fall back to the last unit of the table, pm. *)
Theorem pickLengthUnit_fallback (x : float) :
  is_nan x = true \/ (x <? 1e-3) = true ->
  pickLengthUnit x = {| unit := "pm"; lengthInNanometers := 1e-3 |}.
Proof.
  intros Hx. unfold pickLengthUnit.
  destruct (loop_first x ALLOWED_UNITS
              (nth (List.length (ALLOWED_UNITS (N := binary64)) - 1)
                   ALLOWED_UNITS no_unit))
    as [[i [Hi [Hq _]]]|[_ Hdef]].
  - exfalso. apply nth_error_In in Hi.
    change (@ge float binary64 ?p ?q) with (q <=? p) in Hq.
    set (u := pickLengthUnit_loop x ALLOWED_UNITS
                (nth (List.length (ALLOWED_UNITS (N := binary64)) - 1)
                     ALLOWED_UNITS no_unit)) in *.
    assert (Hlow : (1e-3 <=? lengthInNanometers u) = true).
    { clearbody u. simpl in Hi.
      repeat (destruct Hi as [<-|Hi]; [vm_compute; reflexivity|]).
      contradiction. }
    destruct Hx as [Hnan|Hlt].
    + apply is_nan_Prim2SF in Hnan.
      rewrite FloatAxioms.leb_spec, Hnan in Hq.
      destruct (Prim2SF (lengthInNanometers u)); discriminate.
    + pose proof (leb_trans Hlow Hq) as Hle.
      rewrite (ltb_not_leb Hlt) in Hle. discriminate.
  - rewrite Hdef. vm_compute. reflexivity.
Qed.

End PickLengthUnit64.

Section PickLengthUnit64Witnesses.

Import Binary64.
Local Open Scope float_scope.
#[local] Existing Instance Reference.math.

(** The hypothesis of X2 is met by 5 nm and 2000 nm. *)
Lemma pickLengthUnit_monotone_witness :
  (lengthInNanometers (pickLengthUnit 5) <=?
   lengthInNanometers (pickLengthUnit 2000)) = true.
Proof. apply (@pickLengthUnit_monotone Reference.math 5 2000). reflexivity. Defined.

(** The hypothesis of X3 is met by a negative length. *)
Lemma pickLengthUnit_fallback_witness :
  pickLengthUnit (-3) = {| unit := "pm"; lengthInNanometers := 1e-3 |}.
Proof.
  apply (@pickLengthUnit_fallback Reference.math (-3)). right. reflexivity.
Defined.

End PickLengthUnit64Witnesses.

Section NaNFacts.
Local Open Scope float_scope.

Lemma Prim2SF_nan : Prim2SF nan = S754_nan.
Proof. reflexivity. Qed.

Lemma mul_nan_l (x : float) : nan * x = nan.
Proof.
  apply Prim2SF_inj. rewrite FloatAxioms.mul_spec, Prim2SF_nan. reflexivity.
Qed.

Lemma div_nan_l (x : float) : nan / x = nan.
Proof.
  apply Prim2SF_inj. rewrite FloatAxioms.div_spec, Prim2SF_nan. reflexivity.
Qed.

Lemma div_nan_r (x : float) : x / nan = nan.
Proof.
  apply Prim2SF_inj. rewrite FloatAxioms.div_spec, Prim2SF_nan.
  destruct (Prim2SF x); reflexivity.
Qed.

Lemma sub_nan_r (x : float) : x - nan = nan.
Proof.
  apply Prim2SF_inj. rewrite FloatAxioms.sub_spec, Prim2SF_nan.
  destruct (Prim2SF x); reflexivity.
Qed.

Lemma ltb_nan_l (x : float) : (nan <? x) = false.
Proof. rewrite FloatAxioms.ltb_spec, Prim2SF_nan. reflexivity. Qed.

Lemma eqb_refl (x : float) : is_nan x = false -> (x =? x) = true.
Proof. unfold is_nan. destruct (x =? x); [reflexivity|discriminate]. Qed.

Lemma eqb_zero_cases (x : float) : (x =? 0) = true -> x = 0 \/ x = neg_zero.
Proof.
  intros Hx. destruct (@eqb_zero_Prim2SF _ Hx) as [[|] E];
    [right|left]; apply Prim2SF_inj; rewrite E; reflexivity.
Qed.

(** A zero divided by a number that is neither zero nor NaN is a zero. *)
Lemma zero_div (z y : float) :
  (z =? 0) = true -> (y =? 0) = false -> is_nan y = false ->
  (z / y =? 0) = true.
Proof.
  intros Hz Hy Hn. destruct (@eqb_zero_Prim2SF _ Hz) as [sz Ez].
  rewrite FloatAxioms.eqb_spec in Hy |- *.
  rewrite FloatAxioms.div_spec, Ez.
  assert (Hnn : Prim2SF y <> S754_nan).
  { intros E. apply is_nan_Prim2SF in E. congruence. }
  change (Prim2SF 0) with (S754_zero false) in *.
  destruct (Prim2SF y) as [s|s| |s m e]; simpl in *;
    try discriminate; try reflexivity. contradiction.
Qed.

End NaNFacts.

Section Edge64.

Import Binary64.
Local Open Scope float_scope.
Context {M : MathLib}.

Lemma update_twice (d : ScaleBarDimensions float) :
  is_nan (nanometersPerPixel d) = false ->
  is_nan (targetLengthInPixels d) = false ->
  update (snd (update d)) = (false, snd (update d)).
Proof.
  intros Hn Ht. unfold update at 2 3.
  destruct (strict_eq (prevNanometersPerPixel d) (nanometersPerPixel d) &&
            strict_eq (prevTargetLengthInPixels d) (targetLengthInPixels d))
    eqn:E; simpl.
  - unfold update. rewrite E. reflexivity.
  - unfold update. simpl.
    change (@strict_eq float binary64) with PrimFloat.eqb.
    rewrite (@eqb_refl _ Hn), (@eqb_refl _ Ht). reflexivity.
Qed.

(** X4. Idempotence.  After any call of [update] with inputs that are not
    NaN, a second call finds nothing to do: it returns false and leaves the
    object, outputs included, as the first call left it. *)
Theorem update_idempotent (d : ScaleBarDimensions float) :
  is_nan (nanometersPerPixel d) = false ->
  is_nan (targetLengthInPixels d) = false ->
  fst (update (snd (update d))) = false /\
  snd (update (snd (update d))) = snd (update d).
Proof.
  intros Hn Ht. rewrite (update_twice d Hn Ht). split; reflexivity.
Qed.

(** With a NaN target nothing is strictly closer than 1. *)
Lemma closestSignificand_nan (l : list float) :
  closestSignificand nan (lit 1) l = lit 1.
Proof.
  destruct l as [|a rest]; simpl; [reflexivity|].
  change (@sub float binary64) with PrimFloat.sub.
  change (@lt float binary64) with PrimFloat.ltb.
  change (@Math_abs float binary64) with PrimFloat.abs.
  rewrite sub_nan_r. change (abs nan) with nan. rewrite ltb_nan_l. reflexivity.
Qed.

(** The outputs assigned by a call that returns true, given the power of
    ten and the target significand it computed. *)
Lemma update_outputs (d : ScaleBarDimensions float) (p : float) :
  fst (update d) = true ->
  tenToThePowerExponent d = p ->
  targetSignificand d = nan ->
  lengthInPixels (snd (update d)) =
    Some (round (1 * p / nanometersPerPixel d)) /\
  physicalLength (snd (update d)) =
    Some (1 * p / lengthInNanometers (pickLengthUnit (1 * p))) /\
  physicalUnit (snd (update d)) = Some (unit (pickLengthUnit (1 * p))).
Proof.
  intros Hchanged Hten Hts.
  destruct (update_changed d Hchanged) as [HL [HP [HU _]]].
  assert (HPn : physicalNanometers d = 1 * p).
  { unfold physicalNanometers, bestSignificand.
    rewrite Hts, closestSignificand_nan, Hten. reflexivity. }
  rewrite HL, HP, HU, HPn. auto.
Qed.

(** X5. NaN poisoning.  On a platform with the prescribed special values,
    when the product [targetLengthInPixels * nanometersPerPixel] is NaN or
    negative, a call of [update] that returns true assigns
    [lengthInPixels = NaN] and [physicalLength = NaN], labelled ["pm"],
    whatever the allowed set. *)
Theorem update_nan_or_negative_product (d : ScaleBarDimensions float) :
  ecma_special_values M ->
  is_nan (targetLengthInPixels d * nanometersPerPixel d) = true \/
  (targetLengthInPixels d * nanometersPerPixel d <? 0) = true ->
  fst (update d) = true ->
  lengthInPixels (snd (update d)) = Some nan /\
  physicalLength (snd (update d)) = Some nan /\
  physicalUnit (snd (update d)) = Some "pm"%string.
Proof.
  intros (Hlognan & Hlogneg & _ & _ & _ & _ & Hpownan & _) Hprod Hchanged.
  assert (Hlog : Math_log (targetNanometers d) = nan).
  { unfold targetNanometers.
    change (@mul float binary64) with PrimFloat.mul.
    change (@Math_log float binary64) with log.
    destruct Hprod as [Hnan|Hneg].
    - rewrite (@is_nan_eq _ Hnan). exact Hlognan.
    - apply Hlogneg. exact Hneg. }
  assert (Hten : tenToThePowerExponent d = nan).
  { unfold tenToThePowerExponent, exponent. rewrite Hlog. apply Hpownan. }
  assert (Hts : targetSignificand d = nan).
  { unfold targetSignificand. rewrite Hten. apply div_nan_r. }
  destruct (@update_outputs d _ Hchanged Hten Hts) as [HL [HP HU]].
  rewrite HL, HP, HU.
  change (1 * nan) with nan. rewrite !div_nan_l. repeat split.
Qed.

(** X6. A zero product.  On a platform with the prescribed special values,
    when [targetLengthInPixels * nanometersPerPixel] is zero, a call of
    [update] that returns true labels the bar ["0 pm"]; if the pixel size
    is neither zero nor NaN the bar is 0 pixels long, otherwise its length
    is NaN. *)
Theorem update_zero_product (d : ScaleBarDimensions float) :
  ecma_special_values M ->
  (targetLengthInPixels d * nanometersPerPixel d =? 0) = true ->
  fst (update d) = true ->
  physicalLength (snd (update d)) = Some 0 /\
  physicalUnit (snd (update d)) = Some "pm"%string /\
  exists v, lengthInPixels (snd (update d)) = Some v /\
    (if (nanometersPerPixel d =? 0) || is_nan (nanometersPerPixel d)
     then is_nan v else (v =? 0)) = true.
Proof.
  intros (_ & _ & Hlog0 & Hlogn0 & _ & _ & _ & _ & _ & _ & Hpow) Hprod Hchanged.
  assert (Hlog : Math_log (targetNanometers d) = neg_infinity).
  { unfold targetNanometers.
    change (@mul float binary64) with PrimFloat.mul.
    change (@Math_log float binary64) with log.
    destruct (@eqb_zero_cases _ Hprod) as [->| ->]; assumption. }
  assert (Hten : tenToThePowerExponent d = 0).
  { unfold tenToThePowerExponent, exponent. rewrite Hlog. exact Hpow. }
  assert (Hts : targetSignificand d = nan).
  { unfold targetSignificand, targetNanometers. rewrite Hten.
    change (@mul float binary64) with PrimFloat.mul.
    change (@div float binary64) with PrimFloat.div.
    destruct (@eqb_zero_cases _ Hprod) as [->| ->]; reflexivity. }
  destruct (@update_outputs d _ Hchanged Hten Hts) as [HL [HP HU]].
  rewrite HL, HP, HU. change (1 * 0) with 0.
  split; [reflexivity|]. split; [reflexivity|].
  eexists. split; [reflexivity|].
  destruct (nanometersPerPixel d =? 0) eqn:Hz; simpl.
  - destruct (@eqb_zero_cases _ Hz) as [->| ->]; reflexivity.
  - destruct (is_nan (nanometersPerPixel d)) eqn:Hn.
    + rewrite (@is_nan_eq _ Hn). reflexivity.
    + assert (Hq : (0 / nanometersPerPixel d =? 0) = true)
        by (apply zero_div; [reflexivity|assumption..]).
      destruct (@eqb_zero_cases _ Hq) as [->| ->]; reflexivity.
Qed.

(** X7. Overflow.  On a platform with the prescribed special values, when
    the product [targetLengthInPixels * nanometersPerPixel] is +Infinity, a
    call of [update] that returns true assigns
    [physicalLength = Infinity], labelled ["km"]. *)
Theorem update_infinite_product (d : ScaleBarDimensions float) :
  ecma_special_values M ->
  targetLengthInPixels d * nanometersPerPixel d = infinity ->
  fst (update d) = true ->
  physicalLength (snd (update d)) = Some infinity /\
  physicalUnit (snd (update d)) = Some "km"%string /\
  lengthInPixels (snd (update d)) = Some (round (infinity / nanometersPerPixel d)).
Proof.
  intros (_ & _ & _ & _ & _ & Hloginf & _ & _ & _ & Hpow & _) Hprod Hchanged.
  assert (Hlog : Math_log (targetNanometers d) = infinity).
  { unfold targetNanometers.
    change (@mul float binary64) with PrimFloat.mul.
    change (@Math_log float binary64) with log.
    rewrite Hprod. exact Hloginf. }
  assert (Hten : tenToThePowerExponent d = infinity).
  { unfold tenToThePowerExponent, exponent. rewrite Hlog. exact Hpow. }
  assert (Hts : targetSignificand d = nan).
  { unfold targetSignificand, targetNanometers. rewrite Hten.
    change (@mul float binary64) with PrimFloat.mul.
    change (@div float binary64) with PrimFloat.div.
    rewrite Hprod. reflexivity. }
  destruct (@update_outputs d _ Hchanged Hten Hts) as [HL [HP HU]].
  rewrite HL, HP, HU. change (1 * infinity) with infinity.
  repeat split.
Qed.

End Edge64.

Section Edge64Witnesses.

Import Binary64.
Local Open Scope float_scope.
#[local] Existing Instance Reference.math.

(** The hypotheses of X4 are met at 50 pixels, 37 nm per pixel. *)
Lemma update_idempotent_witness :
  fst (update (snd (update (set_inputs new_ScaleBarDimensions 50 37)))) = false /\
  snd (update (snd (update (set_inputs new_ScaleBarDimensions 50 37)))) =
  snd (update (set_inputs new_ScaleBarDimensions 50 37)).
Proof.
  apply (@update_idempotent Reference.math
           (set_inputs new_ScaleBarDimensions 50 37)); reflexivity.
Defined.

(** The hypotheses of X5 are met by a negative pixel size. *)
Lemma update_nan_or_negative_product_witness :
  lengthInPixels (snd (update (set_inputs new_ScaleBarDimensions 50 (-37)))) = Some nan /\
  physicalLength (snd (update (set_inputs new_ScaleBarDimensions 50 (-37)))) = Some nan /\
  physicalUnit (snd (update (set_inputs new_ScaleBarDimensions 50 (-37)))) =
    Some "pm"%string.
Proof.
  apply (@update_nan_or_negative_product Reference.math
           (set_inputs new_ScaleBarDimensions 50 (-37))).
  - exact reference_special_values.
  - right. reflexivity.
  - reflexivity.
Defined.

(** The hypotheses of X6 are met by a target length of 0. *)
Lemma update_zero_product_witness :
  physicalLength (snd (update (set_inputs new_ScaleBarDimensions 0 37))) = Some 0 /\
  physicalUnit (snd (update (set_inputs new_ScaleBarDimensions 0 37))) =
    Some "pm"%string /\
  exists v, lengthInPixels (snd (update (set_inputs new_ScaleBarDimensions 0 37))) =
            Some v /\
    (if (37 =? 0) || is_nan 37 then is_nan v else (v =? 0)) = true.
Proof.
  apply (@update_zero_product Reference.math
           (set_inputs new_ScaleBarDimensions 0 37)).
  - exact reference_special_values.
  - reflexivity.
  - reflexivity.
Defined.

(** The hypotheses of X7 are met by 1e200 pixels of 1e200 nm. *)
Lemma update_infinite_product_witness :
  physicalLength (snd (update (set_inputs new_ScaleBarDimensions 1e200 1e200))) =
    Some infinity /\
  physicalUnit (snd (update (set_inputs new_ScaleBarDimensions 1e200 1e200))) =
    Some "km"%string /\
  lengthInPixels (snd (update (set_inputs new_ScaleBarDimensions 1e200 1e200))) =
    Some (round (infinity / 1e200)).
Proof.
  apply (@update_infinite_product Reference.math
           (set_inputs new_ScaleBarDimensions 1e200 1e200)).
  - exact reference_special_values.
  - reflexivity.
  - reflexivity.
Defined.

End Edge64Witnesses.

Section TextureExtras.

Import Binary64.
Local Open Scope float_scope.
Context {M : MathLib}.
Variable NumberToString : float -> string.
Variable measureText_width : string -> string -> float.
Variables GL WebGLTexture : Type.
Variable setTextureFromCanvas : GL -> option WebGLTexture -> Texture.Canvas -> GL.

(** X11. Whatever is drawn, the raster is 32 pixels high, the canvas is
    given the returned size, and the single upload goes to the handle passed
    in.  If [lengthInPixels] is undefined or NaN the returned width is NaN. *)
Theorem makeScaleBarTexture_size (d : ScaleBarDimensions float) (gl : GL)
    (t : option WebGLTexture) :
  snd (snd (Texture.makeScaleBarTexture NumberToString measureText_width
              setTextureFromCanvas d gl t)) = 32 /\
  (exists canvas,
     fst (Texture.makeScaleBarTexture NumberToString measureText_width
            setTextureFromCanvas d gl t) = setTextureFromCanvas gl t canvas /\
     In (Texture.set_width
           (fst (snd (Texture.makeScaleBarTexture NumberToString
                        measureText_width setTextureFromCanvas d gl t)))) canvas /\
     In (Texture.set_height 32) canvas) /\
  (is_nan (Texture.ToNumber (lengthInPixels d)) = true ->
   fst (snd (Texture.makeScaleBarTexture NumberToString measureText_width
               setTextureFromCanvas d gl t)) = nan).
Proof.
  unfold Texture.makeScaleBarTexture. simpl.
  split; [reflexivity|]. split.
  - eexists. split; [reflexivity|]. simpl. split.
    + right. right. left. reflexivity.
    + right. right. right. left. reflexivity.
  - intros Hnan. unfold Texture.Math_max. rewrite Hnan. reflexivity.
Qed.

Variable createTexture : GL -> option WebGLTexture * GL.

Let texture_update :=
  Texture.update NumberToString measureText_width createTexture setTextureFromCanvas.

Lemma texture_update_dimensions this gl :
  Texture.dimensions (fst (texture_update this gl)) =
  snd (update (Texture.dimensions this)).
Proof.
  unfold texture_update, Texture.update.
  destruct (update (Texture.dimensions this)) as [changed d'].
  destruct (negb changed), (Texture.texture this); simpl;
    try destruct (createTexture gl); reflexivity.
Qed.

Lemma texture_update_keeps_handle this gl (t : WebGLTexture) :
  Texture.texture this = Some t ->
  Texture.texture (fst (texture_update this gl)) = Some t.
Proof.
  intros Ht. unfold texture_update, Texture.update.
  destruct (update (Texture.dimensions this)) as [changed d'].
  rewrite Ht. destruct (negb changed); reflexivity.
Qed.

(** X12. The second frame is a cache hit.  If the quantizer's inputs are not
    NaN and a call of [ScaleBarTexture.update()] leaves the object with a
    texture handle, the next call changes neither the object nor the
    graphics context. *)
Theorem texture_update_twice this gl :
  is_nan (nanometersPerPixel (Texture.dimensions this)) = false ->
  is_nan (targetLengthInPixels (Texture.dimensions this)) = false ->
  Texture.texture (fst (texture_update this gl)) <> None ->
  texture_update (fst (texture_update this gl)) (snd (texture_update this gl)) =
  texture_update this gl.
Proof.
  intros Hn Ht Htex.
  pose proof (texture_update_dimensions this gl) as Hd.
  destruct (texture_update this gl) as [this1 gl1]. simpl in *.
  destruct this1 as [tex1 w1 h1 d1]. simpl in *.
  destruct tex1 as [t1|]; [|congruence].
  unfold texture_update, Texture.update. simpl.
  rewrite Hd, (update_twice (Texture.dimensions this) Hn Ht). reflexivity.
Qed.

(** X13. A handle is never replaced.  Once the object has a texture handle,
    any number of further calls of [ScaleBarTexture.update()] keep that
    handle, and their outcome does not depend on [createTexture]: no
    texture is allocated. *)
Theorem texture_updates_keep_handle (n : nat) this gl (t : WebGLTexture)
    (createTexture' : GL -> option WebGLTexture * GL) :
  Texture.texture this = Some t ->
  Texture.texture
    (fst (texture_updates NumberToString measureText_width createTexture
            setTextureFromCanvas n this gl)) = Some t /\
  texture_updates NumberToString measureText_width createTexture
    setTextureFromCanvas n this gl =
  texture_updates NumberToString measureText_width createTexture'
    setTextureFromCanvas n this gl.
Proof.
  revert this gl. induction n as [|n IH]; intros this gl Ht; simpl.
  - split; [assumption|reflexivity].
  - assert (Hsame :
      Texture.update NumberToString measureText_width createTexture
        setTextureFromCanvas this gl =
      Texture.update NumberToString measureText_width createTexture'
        setTextureFromCanvas this gl).
    { unfold Texture.update.
      destruct (update (Texture.dimensions this)) as [changed d'].
      rewrite Ht. reflexivity. }
    rewrite <- Hsame.
    pose proof (texture_update_keeps_handle this gl Ht) as Hkeep.
    unfold texture_update in Hkeep.
    destruct (Texture.update NumberToString measureText_width createTexture
                setTextureFromCanvas this gl) as [this1 gl1].
    apply IH. exact Hkeep.
Qed.

(** X14. The first frame of an untouched object.  If no texture exists, the
    outputs of the quantizer are still unassigned and its [update] reports
    unchanged (as on a freshly constructed object), then
    [ScaleBarTexture.update()] still renders: it stores the handle obtained
    from [createTexture], draws the label ["undefined undefined"] and sets
    [width] to NaN and [height] to 32. *)
Theorem texture_update_unassigned this gl :
  Texture.texture this = None ->
  lengthInPixels (Texture.dimensions this) = None ->
  physicalLength (Texture.dimensions this) = None ->
  physicalUnit (Texture.dimensions this) = None ->
  fst (update (Texture.dimensions this)) = false ->
  Texture.texture (fst (texture_update this gl)) = fst (createTexture gl) /\
  Texture.width (fst (texture_update this gl)) = nan /\
  Texture.height (fst (texture_update this gl)) = 32 /\
  exists canvas,
    snd (texture_update this gl) =
      setTextureFromCanvas (snd (createTexture gl)) (fst (createTexture gl)) canvas /\
    In (Texture.fillText "undefined undefined" nan 17) canvas.
Proof.
  intros Htex HL HP HU Hunchanged.
  pose proof (update_unchanged (Texture.dimensions this) Hunchanged) as Hd.
  unfold texture_update, Texture.update.
  destruct (update (Texture.dimensions this)) as [changed d']. simpl in *.
  subst changed d'. rewrite Htex. simpl.
  destruct (createTexture gl) as [t' gl1]. simpl.
  unfold Texture.makeScaleBarTexture. rewrite HL, HP, HU. simpl.
  repeat split.
  eexists. split; [reflexivity|]. simpl. do 9 right. left. reflexivity.
Qed.

(** X15. Disposal.  [disposed()] passes the current handle to
    [deleteTexture] and clears it, leaving size and quantizer alone; a later
    [update()] is then never a cache hit: it obtains a handle from
    [createTexture] again and uploads to it. *)
Theorem disposed_then_update (deleteTexture : GL -> option WebGLTexture -> GL)
    this gl :
  Texture.texture (fst (Texture.disposed deleteTexture this gl)) = None /\
  snd (Texture.disposed deleteTexture this gl) =
    deleteTexture gl (Texture.texture this) /\
  Texture.width (fst (Texture.disposed deleteTexture this gl)) = Texture.width this /\
  Texture.height (fst (Texture.disposed deleteTexture this gl)) = Texture.height this /\
  Texture.dimensions (fst (Texture.disposed deleteTexture this gl)) =
    Texture.dimensions this /\
  Texture.texture
    (fst (texture_update (fst (Texture.disposed deleteTexture this gl))
            (snd (Texture.disposed deleteTexture this gl)))) =
    fst (createTexture (deleteTexture gl (Texture.texture this))) /\
  exists canvas,
    snd (texture_update (fst (Texture.disposed deleteTexture this gl))
           (snd (Texture.disposed deleteTexture this gl))) =
    setTextureFromCanvas
      (snd (createTexture (deleteTexture gl (Texture.texture this))))
      (fst (createTexture (deleteTexture gl (Texture.texture this)))) canvas.
Proof.
  unfold Texture.disposed, texture_update, Texture.update. simpl.
  do 5 (split; [reflexivity|]).
  destruct (update (Texture.dimensions this)) as [changed d'].
  destruct (createTexture (deleteTexture gl (Texture.texture this))) as [t' gl1].
  destruct changed; simpl; (split; [reflexivity|eexists; reflexivity]).
Qed.

End TextureExtras.

Section TextureExtraWitnesses.

Import Binary64.
Local Open Scope float_scope.
#[local] Existing Instance Reference.math.

(** The hypotheses of X12 are met by a new object on the counting context. *)
Lemma texture_update_twice_witness :
  Counting.update
    (fst (Counting.update (Texture.new_ScaleBarTexture nat) 0%nat))
    (snd (Counting.update (Texture.new_ScaleBarTexture nat) 0%nat)) =
  Counting.update (Texture.new_ScaleBarTexture nat) 0%nat.
Proof.
  apply (@texture_update_twice Reference.math Counting.NumberToString
           Counting.measureText_width nat nat Counting.setTextureFromCanvas
           Counting.createTexture (Texture.new_ScaleBarTexture nat) 0%nat).
  - reflexivity.
  - reflexivity.
  - vm_compute. discriminate.
Defined.

(** The hypothesis of X13 is met by an object that holds handle 7. *)
Lemma texture_updates_keep_handle_witness :
  Texture.texture
    (fst (Counting.updates 3
            {| Texture.texture := Some 7%nat; Texture.width := 0;
               Texture.height := 0;
               Texture.dimensions := set_inputs new_ScaleBarDimensions 50 37 |}
            8%nat)) = Some 7%nat /\
  Counting.updates 3
    {| Texture.texture := Some 7%nat; Texture.width := 0; Texture.height := 0;
       Texture.dimensions := set_inputs new_ScaleBarDimensions 50 37 |} 8%nat =
  texture_updates Counting.NumberToString Counting.measureText_width
    (fun gl => (None, gl)) Counting.setTextureFromCanvas 3
    {| Texture.texture := Some 7%nat; Texture.width := 0; Texture.height := 0;
       Texture.dimensions := set_inputs new_ScaleBarDimensions 50 37 |} 8%nat.
Proof.
  apply (@texture_updates_keep_handle Reference.math Counting.NumberToString
           Counting.measureText_width nat nat Counting.setTextureFromCanvas
           Counting.createTexture 3
           {| Texture.texture := Some 7%nat; Texture.width := 0;
              Texture.height := 0;
              Texture.dimensions := set_inputs new_ScaleBarDimensions 50 37 |}
           8%nat 7%nat (fun gl => (None, gl))).
  reflexivity.
Defined.

(** The hypotheses of X14 are met by a new object. *)
Lemma texture_update_unassigned_witness :
  Texture.texture (fst (Counting.update (Texture.new_ScaleBarTexture nat) 0%nat)) =
    fst (Counting.createTexture 0%nat) /\
  Texture.width (fst (Counting.update (Texture.new_ScaleBarTexture nat) 0%nat)) = nan /\
  Texture.height (fst (Counting.update (Texture.new_ScaleBarTexture nat) 0%nat)) = 32 /\
  exists canvas,
    snd (Counting.update (Texture.new_ScaleBarTexture nat) 0%nat) =
      Counting.setTextureFromCanvas (snd (Counting.createTexture 0%nat))
        (fst (Counting.createTexture 0%nat)) canvas /\
    In (Texture.fillText "undefined undefined" nan 17) canvas.
Proof.
  apply (@texture_update_unassigned Reference.math Counting.NumberToString
           Counting.measureText_width nat nat Counting.setTextureFromCanvas
           Counting.createTexture (Texture.new_ScaleBarTexture nat) 0%nat);
    reflexivity.
Defined.

End TextureExtraWitnesses.

(* ------------------------------------------------------------------ *)
(** * Rounding in binary64

    What the comparisons, [Math.abs], the subtraction, the division and
    [Math.round] of the program do to the real numbers their operands stand
    for, derived from the specification of the operations in [SpecFloat]:
    a result that stays in range is the exact result rounded to nearest, so
    within half a unit in the last place of it. *)

Section FloatValues.

Local Unset Implicit Arguments.
Local Open Scope R_scope.

(** ** Powers of two *)

Lemma bpow_pos (e : Z) : 0 < bpow e.
Proof. apply powerRZ_lt. lra. Qed.

Lemma bpow_plus (a b : Z) : bpow (a + b) = bpow a * bpow b.
Proof. apply powerRZ_add. lra. Qed.

Lemma bpow_succ (e : Z) : bpow (e + 1) = 2 * bpow e.
Proof. rewrite bpow_plus. unfold bpow at 2. simpl. lra. Qed.

Lemma bpow_IZR (n : Z) : (0 <= n)%Z -> bpow n = IZR (2 ^ n).
Proof.
  intros H. destruct n as [|p|p]; [reflexivity| |lia].
  unfold bpow. simpl powerRZ. rewrite pow_IZR, positive_nat_Z. reflexivity.
Qed.

Lemma bpow_le (a b : Z) : (a <= b)%Z -> bpow a <= bpow b.
Proof.
  intros H. replace b with (a + (b - a))%Z by lia.
  rewrite bpow_plus, (bpow_IZR (b - a)) by lia.
  assert (1 <= IZR (2 ^ (b - a))).
  { apply IZR_le. assert (0 < 2 ^ (b - a))%Z by (apply Z.pow_pos_nonneg; lia). lia. }
  pose proof (bpow_pos a). nra.
Qed.

Lemma bpow_lt (a b : Z) : (a < b)%Z -> bpow a < bpow b.
Proof.
  intros H. apply Rlt_le_trans with (bpow (a + 1)).
  - rewrite bpow_succ. pose proof (bpow_pos a). lra.
  - apply bpow_le. lia.
Qed.

Lemma bpow_opp (n : Z) : bpow (- n) = / bpow n.
Proof. apply powerRZ_neg'. Qed.

(** The number of binary digits of a positive. *)
Lemma digits2_size (p : positive) : digits2_pos p = Pos.size p.
Proof. induction p; simpl; congruence. Qed.

Lemma digits2_bounds (p : positive) :
  (2 ^ (Zpos (digits2_pos p) - 1) <= Zpos p < 2 ^ Zpos (digits2_pos p))%Z.
Proof.
  rewrite digits2_size. split.
  - pose proof (Pos.size_le p) as H.
    assert (E : (2 ^ Zpos (Pos.size p) = 2 * 2 ^ (Zpos (Pos.size p) - 1))%Z).
    { rewrite <- Z.pow_succ_r by lia. f_equal. lia. }
    assert (H' : (2 ^ Zpos (Pos.size p) <= 2 * Zpos p)%Z).
    { change (2 * Zpos p)%Z with (Zpos (p~0)). rewrite <- Pos2Z.inj_pow.
      apply Pos2Z.pos_le_pos. exact H. }
    lia.
  - pose proof (Pos.size_gt p) as H.
    rewrite <- Pos2Z.inj_pow. apply Pos2Z.pos_lt_pos. exact H.
Qed.

Lemma Zdigits2_le (m k : Z) :
  (0 <= m)%Z -> (0 <= k)%Z -> (m < 2 ^ k)%Z -> (Zdigits2 m <= k)%Z.
Proof.
  intros Hm Hk Hlt. destruct m as [|p|p]; simpl; [assumption| |lia].
  destruct (digits2_bounds p) as [Hlo _].
  destruct (Z_le_gt_dec (Zpos (digits2_pos p)) k) as [|Hgt]; [assumption|].
  exfalso. assert (2 ^ k <= 2 ^ (Zpos (digits2_pos p) - 1))%Z
    by (apply Z.pow_le_mono_r; lia). lia.
Qed.

Lemma Zdigits2_lt (m : Z) : (0 <= m)%Z -> (m < 2 ^ Zdigits2 m)%Z.
Proof.
  intros Hm. destruct m as [|p|p]; simpl; [lia| |lia].
  apply digits2_bounds.
Qed.

Lemma Zdigits2_nonneg (m : Z) : (0 <= Zdigits2 m)%Z.
Proof. destruct m; simpl; lia. Qed.

(** ** Shifts

    A shift by one bit, and by [p] bits, keeps track of where the number
    lies; the mantissa is halved [p] times. *)

Lemma LocR_of_loc (m e : Z) (l : location) (x : R) :
  Loc m e l x -> LocR (shr_record_of_loc m l) e x.
Proof. unfold LocR. destruct l as [|[| |]]; simpl; auto. Qed.

Lemma shr_1_LocR (mrs : shr_record) (e : Z) (x : R) :
  (0 <= shr_m mrs)%Z -> LocR mrs e x ->
  LocR (shr_1 mrs) (e + 1) x /\ shr_m (shr_1 mrs) = (shr_m mrs / 2)%Z.
Proof.
  destruct mrs as [m r s]. unfold LocR. cbn [shr_m shr_r shr_s]. intros Hm H.
  pose proof (bpow_succ e) as Hs. pose proof (bpow_pos e) as Hb.
  destruct m as [|[p|p|]|p]; try lia; cbn [shr_1 shr_m shr_r shr_s].
  - split; [|reflexivity].
    destruct r, s; unfold Loc, loc_of_shr_record in *;
      cbn [shr_m shr_r shr_s orb] in *; rewrite Hs; nra.
  - (* 2p+1 *)
    assert (E : IZR (Zpos p~1) = 2 * IZR (Zpos p) + 1)
      by (rewrite <- mult_IZR, <- plus_IZR; reflexivity).
    split.
    + destruct r, s; unfold Loc, loc_of_shr_record in *;
        cbn [shr_m shr_r shr_s orb] in *; rewrite Hs; rewrite E in H; nra.
    + change (Zpos p~1) with (2 * Zpos p + 1)%Z.
      apply Z.div_unique with 1%Z; lia.
  - assert (E : IZR (Zpos p~0) = 2 * IZR (Zpos p))
      by (rewrite <- mult_IZR; reflexivity).
    split.
    + destruct r, s; unfold Loc, loc_of_shr_record in *;
        cbn [shr_m shr_r shr_s orb] in *; rewrite Hs; rewrite E in H; nra.
    + change (Zpos p~0) with (2 * Zpos p)%Z.
      apply Z.div_unique with 0%Z; lia.
  - split; [|reflexivity].
    destruct r, s; unfold Loc, loc_of_shr_record in *;
      cbn [shr_m shr_r shr_s orb] in *; rewrite Hs; nra.
Qed.

Lemma iter_pos_shr_1 (p : positive) (mrs : shr_record) (e : Z) (x : R) :
  (0 <= shr_m mrs)%Z -> LocR mrs e x ->
  LocR (SpecFloat.iter_pos shr_1 p mrs) (e + Zpos p) x /\
  shr_m (SpecFloat.iter_pos shr_1 p mrs) = (shr_m mrs / 2 ^ Zpos p)%Z.
Proof.
  revert mrs e. induction p as [p IH|p IH|]; intros mrs e Hm H; cbn [SpecFloat.iter_pos].
  - destruct (shr_1_LocR _ _ _ Hm H) as [H1 E1].
    assert (Hm1 : (0 <= shr_m (shr_1 mrs))%Z)
      by (rewrite E1; apply Z.div_pos; lia).
    destruct (IH _ _ Hm1 H1) as [H2 E2].
    assert (Hm2 : (0 <= shr_m (SpecFloat.iter_pos shr_1 p (shr_1 mrs)))%Z)
      by (rewrite E2; apply Z.div_pos; [assumption|apply Z.pow_pos_nonneg; lia]).
    destruct (IH _ _ Hm2 H2) as [H3 E3].
    split.
    + replace (e + Zpos p~1)%Z with (e + 1 + Zpos p + Zpos p)%Z by lia. exact H3.
    + rewrite E3, E2, E1.
      rewrite !Z.div_div by (try apply Z.pow_pos_nonneg; lia).
      f_equal. replace (Zpos p~1) with (1 + Zpos p + Zpos p)%Z by lia.
      rewrite !Z.pow_add_r by lia. change (2 ^ 1)%Z with 2%Z. ring.
  - destruct (IH _ _ Hm H) as [H2 E2].
    assert (Hm2 : (0 <= shr_m (SpecFloat.iter_pos shr_1 p mrs))%Z)
      by (rewrite E2; apply Z.div_pos; [assumption|apply Z.pow_pos_nonneg; lia]).
    destruct (IH _ _ Hm2 H2) as [H3 E3].
    split.
    + replace (e + Zpos p~0)%Z with (e + Zpos p + Zpos p)%Z by lia. exact H3.
    + rewrite E3, E2.
      rewrite !Z.div_div by (try apply Z.pow_pos_nonneg; lia).
      f_equal. replace (Zpos p~0) with (Zpos p + Zpos p)%Z by lia.
      rewrite !Z.pow_add_r by lia. ring.
  - destruct (shr_1_LocR _ _ _ Hm H) as [H1 E1]. split; [exact H1|].
    rewrite E1. reflexivity.
Qed.

(** ** Rounding the mantissa

    Rounding to nearest, ties to even, moves the number by at most half a
    unit of the last place. *)

Lemma round_nearest_even_LocR (mrs : shr_record) (e : Z) (x : R) :
  (0 <= shr_m mrs)%Z -> LocR mrs e x ->
  Rabs (IZR (round_nearest_even (shr_m mrs) (loc_of_shr_record mrs)) * bpow e - x)
    <= bpow e / 2 /\
  (shr_m mrs <= round_nearest_even (shr_m mrs) (loc_of_shr_record mrs)
             <= shr_m mrs + 1)%Z.
Proof.
  unfold LocR. destruct mrs as [m r s]. cbn [shr_m shr_r shr_s]. intros Hm H.
  pose proof (bpow_pos e) as Hb.
  destruct r, s; unfold Loc, loc_of_shr_record, round_nearest_even in *;
    cbn [shr_m shr_r shr_s] in *;
    try (destruct (Z.even m)); rewrite ?plus_IZR;
    (split; [unfold Rabs; destruct (Rcase_abs _); nra|lia]).
Qed.

(** Rounding to nearest does not cross a multiple of [2^e]. *)
Lemma round_nearest_even_grid (mrs : shr_record) (e : Z) (x : R) (C : Z) :
  LocR mrs e x ->
  (IZR C * bpow e <= x ->
   (C <= round_nearest_even (shr_m mrs) (loc_of_shr_record mrs))%Z) /\
  (x <= IZR C * bpow e ->
   (round_nearest_even (shr_m mrs) (loc_of_shr_record mrs) <= C)%Z).
Proof.
  unfold LocR. destruct mrs as [m r s]. cbn [shr_m shr_r shr_s]. intros H.
  pose proof (bpow_pos e) as Hb.
  assert (Hlt : forall a b : Z, IZR a * bpow e < IZR b * bpow e -> (a < b)%Z).
  { intros a b Hab. apply lt_IZR. nra. }
  assert (Hle : forall a b : Z, IZR a * bpow e <= IZR b * bpow e -> (a <= b)%Z).
  { intros a b Hab. apply le_IZR. nra. }
  destruct r, s; unfold Loc, loc_of_shr_record, round_nearest_even in *;
    cbn [shr_m shr_r shr_s] in *.
  - split; intros HC.
    + assert (C < m + 1)%Z by (apply Hlt; rewrite plus_IZR; nra). lia.
    + assert (m < C)%Z by (apply Hlt; nra). lia.
  - split; intros HC.
    + assert (C < m + 1)%Z by (apply Hlt; rewrite plus_IZR; nra).
      destruct (Z.even m); lia.
    + assert (m < C)%Z by (apply Hlt; nra).
      destruct (Z.even m); lia.
  - split; intros HC.
    + assert (C < m + 1)%Z by (apply Hlt; rewrite plus_IZR; nra). lia.
    + assert (m < C)%Z by (apply Hlt; nra). lia.
  - split; intros HC.
    + apply Hle. lra.
    + apply Hle. lra.
Qed.

(** ** [binary_round_aux]

    The first normalisation shifts the mantissa to the exponent [fexp] asks
    for; it then has fewer than 54 bits. *)

Lemma shr_m_of_loc (m : Z) (l : location) : shr_m (shr_record_of_loc m l) = m.
Proof. destruct l as [|[| |]]; reflexivity. Qed.

Lemma loc_of_shr_record_of_loc (m : Z) (l : location) :
  loc_of_shr_record (shr_record_of_loc m l) = l.
Proof. destruct l as [|[| |]]; reflexivity. Qed.

Lemma shr_fexp_spec (m e : Z) (l : location) (x : R) :
  (0 <= m)%Z -> Loc m e l x ->
  let e' := Z.max e (fexp prec emax (Zdigits2 m + e)) in
  snd (shr_fexp prec emax m e l) = e' /\
  LocR (fst (shr_fexp prec emax m e l)) e' x /\
  shr_m (fst (shr_fexp prec emax m e l)) = (m / 2 ^ (e' - e))%Z.
Proof.
  intros Hm H e'. unfold shr_fexp, shr.
  pose proof (LocR_of_loc _ _ _ _ H) as HR.
  destruct (fexp prec emax (Zdigits2 m + e) - e)%Z as [|p|p] eqn:Ek;
    cbn [fst snd].
  - assert (e' = e) as -> by (unfold e'; lia).
    rewrite shr_m_of_loc, Z.sub_diag, Z.div_1_r. auto.
  - assert (e' = e + Zpos p)%Z as -> by (unfold e'; lia).
    destruct (iter_pos_shr_1 p _ e x
               ltac:(rewrite shr_m_of_loc; exact Hm) HR) as [H1 E1].
    rewrite shr_m_of_loc in E1.
    replace (e + Zpos p - e)%Z with (Zpos p) by lia. auto.
  - assert (e' = e) as -> by (unfold e'; lia).
    rewrite shr_m_of_loc, Z.sub_diag, Z.div_1_r. auto.
Qed.

Lemma shr_fexp_small (m e : Z) :
  (0 <= m)%Z ->
  let e' := Z.max e (fexp prec emax (Zdigits2 m + e)) in
  (-1074 <= e')%Z /\
  (fexp prec emax (Zdigits2 m + e) <= e -> m < 2 ^ 53)%Z /\
  (0 <= m / 2 ^ (e' - e) < 2 ^ 53)%Z.
Proof.
  intros Hm e'. pose proof (Zdigits2_lt m Hm) as Hd.
  pose proof (Zdigits2_nonneg m) as Hd0.
  set (d := Zdigits2 m) in *.
  assert (He'' : (e' = Z.max e (Z.max (d + e - 53) (-1074)))%Z) by reflexivity.
  assert (Hk : (0 <= e' - e)%Z) by lia.
  assert (Hpk : (0 < 2 ^ (e' - e))%Z) by (apply Z.pow_pos_nonneg; lia).
  split; [lia|].
  split.
  - unfold fexp, SpecFloat.emin, prec, emax. intros Hf.
    assert (d <= 53)%Z by lia.
    apply Z.lt_le_trans with (1 := Hd). apply Z.pow_le_mono_r; lia.
  - split; [apply Z.div_pos; lia|].
    apply Z.div_lt_upper_bound; [assumption|].
    destruct (Z_le_gt_dec d 53) as [Hle|Hgt].
    + apply Z.lt_le_trans with (2 ^ 53 * 1)%Z.
      * rewrite Z.mul_1_r. apply Z.lt_le_trans with (1 := Hd).
        apply Z.pow_le_mono_r; lia.
      * rewrite Z.mul_comm. apply Z.mul_le_mono_nonneg_r; lia.
    + assert (d - 53 <= e' - e)%Z by lia.
      apply Z.lt_le_trans with (1 := Hd).
      replace d with ((d - 53) + 53)%Z at 1 by lia.
      rewrite Z.pow_add_r by lia.
      apply Z.mul_le_mono_nonneg_r; [lia|].
      apply Z.pow_le_mono_r; lia.
Qed.

(** The second normalisation of [binary_round_aux]: a mantissa of at most
    [2^53] is kept, or halved exactly when it is [2^53]. *)
Lemma shr_fexp_exact (m e : Z) :
  (0 <= m <= 2 ^ 53)%Z -> (-1074 <= e)%Z ->
  exists m' e', shr_fexp prec emax m e loc_Exact =
                  ({| shr_m := m'; shr_r := false; shr_s := false |}, e') /\
    (e <= e' <= e + 1)%Z /\ (m' < 2 ^ 53)%Z /\ (m = 0 <-> m' = 0)%Z /\
    (0 <= m')%Z /\
    IZR m' * bpow e' = IZR m * bpow e.
Proof.
  intros [Hm0 Hm] He.
  destruct (Z.eq_dec m (2 ^ 53)) as [->|Hne].
  - exists (2 ^ 52)%Z, (e + 1)%Z.
    unfold shr_fexp, shr. cbn [shr_record_of_loc].
    replace (Zdigits2 (2 ^ 53)) with 54%Z by reflexivity.
    assert (fexp prec emax (54 + e) - e = 1)%Z as ->
      by (unfold fexp, SpecFloat.emin, prec, emax; lia).
    split; [reflexivity|]. split; [lia|]. split; [reflexivity|].
    split; [split; discriminate|]. split; [discriminate|].
    rewrite bpow_succ. lra.
  - exists m, e. assert (Hlt : (m < 2 ^ 53)%Z) by lia.
    pose proof (Zdigits2_le m 53 Hm0 ltac:(lia) Hlt) as Hd.
    pose proof (Zdigits2_nonneg m) as Hd0.
    unfold shr_fexp, shr. cbn [shr_record_of_loc].
    destruct (fexp prec emax (Zdigits2 m + e) - e)%Z as [|p|p] eqn:Ek.
    + repeat split; try lia.
    + unfold fexp, SpecFloat.emin, prec, emax in Ek. lia.
    + repeat split; try lia.
Qed.

(** What [binary_round_aux] returns for a non-negative number [x] given by
    a mantissa, an exponent and a location: with [m1] the integer nearest
    to [x / 2^e'] at the exponent [e'] of the format, a zero or a finite
    float of value [m1 * 2^e'] when the exponent does not overflow. *)

Lemma shr_fexp_noshift (m e : Z) (l : location) :
  (fexp prec emax (Zdigits2 m + e) <= e)%Z ->
  shr_fexp prec emax m e l = (shr_record_of_loc m l, e).
Proof.
  intros H. unfold shr_fexp, shr.
  destruct (fexp prec emax (Zdigits2 m + e) - e)%Z eqn:Ek; try reflexivity. lia.
Qed.

Lemma binary_round_aux_spec (sx : bool) (mx ex : Z) (lx : location) (x : R) :
  (0 <= mx)%Z -> Loc mx ex lx x ->
  let e' := Z.max ex (fexp prec emax (Zdigits2 mx + ex)) in
  exists m1 : Z,
    (mx / 2 ^ (e' - ex) <= m1 <= 2 ^ 53)%Z /\
    Rabs (IZR m1 * bpow e' - x) <= bpow e' / 2 /\
    (lx = loc_Exact -> e' = ex -> m1 = mx) /\
    (m1 = 0%Z -> binary_round_aux prec emax sx mx ex lx = S754_zero sx) /\
    ((0 < m1)%Z -> (e' + 1 <= emax - prec)%Z ->
     exists m e, binary_round_aux prec emax sx mx ex lx = S754_finite sx m e /\
                 IZR (Zpos m) * bpow e = IZR m1 * bpow e') /\
    (forall C : Z, (IZR C * bpow e' <= x -> (C <= m1)%Z) /\
                   (x <= IZR C * bpow e' -> (m1 <= C)%Z)).
Proof.
  intros Hm H e'.
  destruct (shr_fexp_spec mx ex lx x Hm H) as (E1 & L1 & M1).
  destruct (shr_fexp_small mx ex Hm) as (He' & Hns & Hm').
  fold e' in E1, L1, M1, He', Hm'.
  assert (Hex : lx = loc_Exact -> e' = ex ->
            round_nearest_even (shr_m (fst (shr_fexp prec emax mx ex lx)))
              (loc_of_shr_record (fst (shr_fexp prec emax mx ex lx))) = mx).
  { intros -> Ee. rewrite shr_fexp_noshift by (unfold e' in Ee; lia).
    reflexivity. }
  unfold binary_round_aux.
  destruct (shr_fexp prec emax mx ex lx) as [mrs1 e1]. cbn [fst snd] in *.
  subst e1.
  assert (Hm1 : (0 <= shr_m mrs1)%Z) by lia.
  destruct (round_nearest_even_LocR mrs1 e' x Hm1 L1) as [Herr Hrne].
  pose proof (fun C => round_nearest_even_grid mrs1 e' x C L1) as Hgrid.
  set (m1 := round_nearest_even (shr_m mrs1) (loc_of_shr_record mrs1)) in *.
  exists m1.
  split; [lia|]. split; [exact Herr|].
  split; [exact Hex|].
  destruct (shr_fexp_exact m1 e' ltac:(lia) He')
    as (m2 & e2 & E2 & He2 & Hm2 & Hz & Hm20 & Hv).
  rewrite E2. cbn [shr_m]. split; [|split; [|exact Hgrid]].
  - intros Hz1. apply Hz in Hz1. subst m2. reflexivity.
  - intros Hpos Hmax. destruct m2 as [|p|p]; [lia| |lia].
    exists p, e2. split; [|exact Hv].
    replace (e2 <=? emax - prec)%Z with true; [reflexivity|].
    symmetry. apply Z.leb_le. lia.
Qed.

(** ** Order

    The order of finite floats is the order of the numbers they stand
    for. *)

Lemma bpow_le_inv (a b : Z) : bpow a <= bpow b -> (a <= b)%Z.
Proof.
  intros H. destruct (Z_le_gt_dec a b) as [|Hgt]; [assumption|].
  exfalso. pose proof (bpow_lt b a ltac:(lia)). lra.
Qed.

Lemma bpow_lt_inv (a b : Z) : bpow a < bpow b -> (a < b)%Z.
Proof.
  intros H. destruct (Z_lt_ge_dec a b) as [|Hge]; [assumption|].
  exfalso. pose proof (bpow_le b a ltac:(lia)). lra.
Qed.

Lemma IZR_pos_bounds (m : positive) :
  bpow (Zpos (digits2_pos m) - 1) <= IZR (Zpos m) < bpow (Zpos (digits2_pos m)).
Proof.
  destruct (digits2_bounds m) as [Hlo Hhi].
  rewrite !bpow_IZR by lia. split; [apply IZR_le|apply IZR_lt]; assumption.
Qed.

(** A valid finite float has at most 53 digits, and exactly 53 above the
    least exponent. *)
Lemma bounded_inv (m : positive) (e : Z) :
  SpecFloat.bounded prec emax m e = true ->
  (-1074 <= e <= 971)%Z /\ (Zpos (digits2_pos m) <= 53)%Z /\
  (e = -1074 \/ Zpos (digits2_pos m) = 53)%Z.
Proof.
  unfold SpecFloat.bounded, canonical_mantissa, fexp, SpecFloat.emin, prec, emax.
  intros H. apply andb_true_iff in H. destruct H as [H1 H2].
  apply Z.eqb_eq in H1. apply Z.leb_le in H2. lia.
Qed.

Lemma finite_value_lt (m1 : positive) (e1 : Z) (m2 : positive) (e2 : Z) :
  SpecFloat.bounded prec emax m1 e1 = true -> SpecFloat.bounded prec emax m2 e2 = true ->
  (e1 < e2)%Z -> IZR (Zpos m1) * bpow e1 < IZR (Zpos m2) * bpow e2.
Proof.
  intros H1 H2 He.
  destruct (bounded_inv _ _ H1) as (He1 & Hd1 & _).
  destruct (bounded_inv _ _ H2) as (He2 & Hd2 & Hc2).
  assert (Hd : Zpos (digits2_pos m2) = 53%Z) by lia.
  destruct (IZR_pos_bounds m1) as [_ Hhi]. destruct (IZR_pos_bounds m2) as [Hlo _].
  rewrite Hd in Hlo.
  assert (Hhi' : IZR (Zpos m1) < bpow 53).
  { apply Rlt_le_trans with (1 := Hhi). apply bpow_le. lia. }
  pose proof (bpow_pos e1) as P1. pose proof (bpow_pos e2) as P2.
  apply Rlt_le_trans with (bpow 53 * bpow e1); [nra|].
  apply Rle_trans with (bpow (53 - 1) * bpow e2); [|nra].
  rewrite <- !bpow_plus. apply bpow_le. lia.
Qed.

Lemma pos_compare_value (m1 m2 : positive) (e : Z) :
  cmp_holds (Pos.compare_cont Eq m1 m2)
            (IZR (Zpos m1) * bpow e) (IZR (Zpos m2) * bpow e).
Proof.
  change (Pos.compare_cont Eq m1 m2) with (Pos.compare m1 m2).
  pose proof (bpow_pos e) as P.
  destruct (Pos.compare_spec m1 m2) as [->|H|H]; simpl.
  - reflexivity.
  - apply Rmult_lt_compat_r; [assumption|]. apply IZR_lt. lia.
  - apply Rmult_lt_compat_r; [assumption|]. apply IZR_lt. lia.
Qed.

Lemma finite_value_pos (m : positive) (e : Z) : 0 < IZR (Zpos m) * bpow e.
Proof.
  apply Rmult_lt_0_compat; [apply IZR_lt; lia|apply bpow_pos].
Qed.

Lemma SFcompare_spec (a b : spec_float) :
  valid_binary a = true -> valid_binary b = true ->
  SFfinite a = true -> SFfinite b = true ->
  exists c, SFcompare a b = Some c /\ cmp_holds c (SF2R a) (SF2R b).
Proof.
  intros Va Vb Fa Fb.
  destruct a as [sa|sa| |sa ma ea]; try discriminate;
  destruct b as [sb|sb| |sb mb eb]; try discriminate; cbn [SFcompare SF2R].
  - exists Eq. split; [reflexivity|]. reflexivity.
  - pose proof (finite_value_pos mb eb).
    destruct sb; eexists; (split; [reflexivity|]); simpl; lra.
  - pose proof (finite_value_pos ma ea).
    destruct sa; eexists; (split; [reflexivity|]); simpl; lra.
  - cbn [valid_binary] in Va, Vb.
    pose proof (finite_value_pos ma ea). pose proof (finite_value_pos mb eb).
    pose proof (pos_compare_value ma mb ea) as Hc.
    destruct sa, sb; eexists; (split; [reflexivity|]); try (simpl; lra).
    + destruct (Z.compare_spec ea eb) as [->|Hlt|Hgt].
      * pose proof (pos_compare_value ma mb eb) as Hc'.
        destruct (Pos.compare_cont Eq ma mb); simpl in *; lra.
      * pose proof (finite_value_lt _ _ _ _ Va Vb Hlt). simpl. lra.
      * pose proof (finite_value_lt _ _ _ _ Vb Va Hgt). simpl. lra.
    + destruct (Z.compare_spec ea eb) as [->|Hlt|Hgt].
      * pose proof (pos_compare_value ma mb eb) as Hc'.
        destruct (Pos.compare_cont Eq ma mb); simpl in *; lra.
      * pose proof (finite_value_lt _ _ _ _ Va Vb Hlt). simpl. lra.
      * pose proof (finite_value_lt _ _ _ _ Vb Va Hgt). simpl. lra.
Qed.

(** [<] and [<=] of the program on finite numbers. *)
Lemma ltb_B2R (x y : float) :
  finite x = true -> finite y = true ->
  ((x <? y)%float = true <-> B2R x < B2R y).
Proof.
  intros Fx Fy. rewrite FloatAxioms.ltb_spec. unfold SFltb, B2R.
  destruct (SFcompare_spec _ _ (Prim2SF_valid x) (Prim2SF_valid y) Fx Fy)
    as (c & -> & Hc).
  destruct c; simpl in Hc; split; intros H; try discriminate; try reflexivity; lra.
Qed.

Lemma leb_B2R (x y : float) :
  finite x = true -> finite y = true ->
  ((x <=? y)%float = true <-> B2R x <= B2R y).
Proof.
  intros Fx Fy. rewrite FloatAxioms.leb_spec. unfold SFleb, B2R.
  destruct (SFcompare_spec _ _ (Prim2SF_valid x) (Prim2SF_valid y) Fx Fy)
    as (c & -> & Hc).
  destruct c; simpl in Hc; split; intros H; try discriminate; try reflexivity; lra.
Qed.

(** [Math.abs] *)
Lemma abs_B2R (x : float) :
  finite (abs x) = finite x /\ B2R (abs x) = Rabs (B2R x).
Proof.
  unfold finite, B2R. rewrite FloatAxioms.abs_spec.
  destruct (Prim2SF x) as [s|s| |s m e]; cbn [SFabs SFfinite SF2R];
    try (split; [reflexivity|symmetry; apply Rabs_R0]).
  split; [reflexivity|].
  pose proof (finite_value_pos m e).
  destruct s.
  - rewrite Rabs_Ropp, Rabs_pos_eq; lra.
  - rewrite Rabs_pos_eq; lra.
Qed.

(** [is_finite] of the library is [finite]. *)
Lemma is_finite_finite (x : float) : is_finite x = finite x.
Proof.
  unfold is_finite, is_nan, is_infinity, finite.
  rewrite !FloatAxioms.eqb_spec, FloatAxioms.abs_spec.
  change (Prim2SF infinity) with (S754_infinity false).
  destruct (Prim2SF x) as [s|[|]| |s m e] eqn:E; try reflexivity.
  rewrite SFeqb_refl by discriminate. reflexivity.
Qed.

End FloatValues.

Section FloatRounding.

Local Unset Implicit Arguments.
Local Open Scope R_scope.

(** ** The rounding error

    A result of at most [2^k], within the range of the exponents, is
    within [2^(k-53)] of the number rounded. *)

Lemma bpow_half (e : Z) : bpow e / 2 = bpow (e - 1).
Proof.
  replace e with ((e - 1) + 1)%Z at 1 by lia. rewrite bpow_succ. lra.
Qed.

Lemma Loc_lower (m e : Z) (l : location) (x : R) :
  Loc m e l x -> IZR m * bpow e <= x.
Proof.
  pose proof (bpow_pos e).
  destruct l as [|[| |]]; unfold Loc; intros; nra.
Qed.

(** A positive integer of [d] digits times [2^e] is at least [2^(d-1+e)]. *)
Lemma digits_exponent_le (m : positive) (e k : Z) :
  IZR (Zpos m) * bpow e <= bpow k -> (Zpos (digits2_pos m) + e <= k + 1)%Z.
Proof.
  intros H. destruct (IZR_pos_bounds m) as [Hlo _].
  pose proof (bpow_pos e).
  assert (bpow (Zpos (digits2_pos m) - 1 + e) <= bpow k).
  { rewrite bpow_plus. nra. }
  apply bpow_le_inv in H1. lia.
Qed.

Lemma binary_round_aux_bound (sx : bool) (mx ex : Z) (lx : location)
    (x : R) (k : Z) :
  (0 <= mx)%Z -> Loc mx ex lx x -> x <= bpow k ->
  (ex <= k - 52)%Z -> (-1022 <= k <= 1022)%Z ->
  exists v, 0 <= v /\ Rabs (v - x) <= bpow (k - 53) /\
    SFfinite (binary_round_aux prec emax sx mx ex lx) = true /\
    SF2R (binary_round_aux prec emax sx mx ex lx) = (if sx then - v else v).
Proof.
  intros Hm HL Hx He Hk.
  destruct (binary_round_aux_spec sx mx ex lx x Hm HL)
    as (m1 & Hm1 & Herr & _ & Hzero & Hfin & _).
  set (e' := Z.max ex (fexp prec emax (Zdigits2 mx + ex))) in *.
  assert (He' : (e' <= k - 52)%Z).
  { unfold e', fexp, SpecFloat.emin, prec, emax.
    destruct mx as [|p|p]; [simpl; lia| |lia].
    pose proof (Loc_lower _ _ _ _ HL) as Hlo.
    assert (Hp : IZR (Zpos p) * bpow ex <= bpow k) by lra.
    apply digits_exponent_le in Hp. simpl Zdigits2. lia. }
  assert (Hm10 : (0 <= m1)%Z).
  { apply Z.le_trans with (2 := proj1 Hm1). apply Z.div_pos; [assumption|].
    apply Z.pow_pos_nonneg; [lia|unfold e'; lia]. }
  exists (IZR m1 * bpow e').
  split.
  { apply Rmult_le_pos; [apply IZR_le; assumption|]. pose proof (bpow_pos e'). lra. }
  split.
  { apply Rle_trans with (1 := Herr). rewrite bpow_half. apply bpow_le. lia. }
  destruct (Z.eq_dec m1 0) as [E0|Hne].
  - rewrite (Hzero E0). subst m1. cbn [SFfinite SF2R].
    split; [reflexivity|]. destruct sx; lra.
  - destruct (Hfin ltac:(lia) ltac:(unfold emax, prec; lia)) as (m & e & -> & Hv).
    cbn [SFfinite SF2R]. rewrite Hv. split; reflexivity.
Qed.

(** [binary_round] and [binary_normalize] align the mantissa first. *)

Lemma shl_align_spec (mx : positive) (ex ex' : Z) :
  IZR (Zpos (fst (shl_align mx ex ex'))) * bpow (snd (shl_align mx ex ex'))
    = IZR (Zpos mx) * bpow ex /\
  snd (shl_align mx ex ex') = Z.min ex ex'.
Proof.
  unfold shl_align. destruct (ex' - ex)%Z as [|d|d] eqn:Ed; cbn [fst snd].
  - split; [reflexivity|lia].
  - split; [reflexivity|lia].
  - split; [|lia].
    change (Pos.iter xO mx d) with (shift_pos d mx).
    rewrite shift_pos_correct. change (Z.pow_pos 2 d) with (2 ^ Zpos d)%Z.
    rewrite mult_IZR, <- bpow_IZR by lia.
    replace ex with (Zpos d + ex')%Z by lia.
    rewrite bpow_plus. ring.
Qed.

Lemma binary_round_bound (s : bool) (m : positive) (e k : Z) :
  IZR (Zpos m) * bpow e <= bpow k -> (-1022 <= k <= 1022)%Z ->
  exists v, 0 <= v /\ Rabs (v - IZR (Zpos m) * bpow e) <= bpow (k - 53) /\
    SFfinite (binary_round prec emax s m e) = true /\
    SF2R (binary_round prec emax s m e) = (if s then - v else v).
Proof.
  intros Hx Hk. unfold binary_round.
  destruct (shl_align_spec m e (fexp prec emax (Zpos (digits2_pos m) + e)))
    as [Hv He].
  destruct (shl_align m e (fexp prec emax (Zpos (digits2_pos m) + e)))
    as [mz ez]. cbn [fst snd] in *.
  rewrite <- Hv in *.
  apply binary_round_aux_bound; try assumption; try lia.
  - reflexivity.
  - rewrite Hv in Hx. apply digits_exponent_le in Hx.
    unfold fexp, SpecFloat.emin, prec, emax in He. lia.
Qed.

Lemma binary_normalize_bound (z e k : Z) (szero : bool) :
  Rabs (IZR z * bpow e) <= bpow k -> (-1022 <= k <= 1022)%Z ->
  SFfinite (binary_normalize prec emax z e szero) = true /\
  Rabs (SF2R (binary_normalize prec emax z e szero) - IZR z * bpow e)
    <= bpow (k - 53).
Proof.
  intros Hx Hk. pose proof (bpow_pos (k - 53)) as P.
  destruct z as [|p|p]; cbn [binary_normalize].
  - cbn [SFfinite SF2R]. split; [reflexivity|].
    rewrite Rmult_0_l, Rminus_0_r, Rabs_R0. lra.
  - pose proof (finite_value_pos p e) as Hp.
    rewrite Rabs_pos_eq in Hx by lra.
    destruct (binary_round_bound false p e k Hx Hk) as (v & _ & Hv & Hf & ->).
    split; assumption.
  - pose proof (finite_value_pos p e) as Hp.
    change (Zneg p) with (- Zpos p)%Z in *. rewrite opp_IZR in *.
    replace (- IZR (Zpos p) * bpow e) with (- (IZR (Zpos p) * bpow e)) in * by ring.
    rewrite Rabs_Ropp, Rabs_pos_eq in Hx by lra.
    destruct (binary_round_bound true p e k Hx Hk) as (v & _ & Hv & Hf & ->).
    split; [assumption|].
    replace (- v - - (IZR (Zpos p) * bpow e)) with (- (v - IZR (Zpos p) * bpow e))
      by ring.
    rewrite Rabs_Ropp. assumption.
Qed.

(** ** Subtraction

    The exact difference, rounded. *)

Lemma cond_Zopp_value (s : bool) (m : positive) (e0 e : Z) (m0 : positive) :
  IZR (Zpos m0) * bpow e0 = IZR (Zpos m) * bpow e ->
  IZR (cond_Zopp s (Zpos m0)) * bpow e0 = SF2R (S754_finite s m e).
Proof.
  intros H. destruct s; cbn [cond_Zopp SF2R].
  - change (- Zpos m0)%Z with (Zneg m0). change (Zneg m0) with (- Zpos m0)%Z.
    rewrite opp_IZR. lra.
  - assumption.
Qed.

Lemma SFsub_bound (a b : spec_float) (k : Z) :
  SFfinite a = true -> SFfinite b = true ->
  Rabs (SF2R a - SF2R b) <= bpow k -> (-1022 <= k <= 1022)%Z ->
  SFfinite (SFsub prec emax a b) = true /\
  Rabs (SF2R (SFsub prec emax a b) - (SF2R a - SF2R b)) <= bpow (k - 53).
Proof.
  intros Fa Fb Hx Hk. pose proof (bpow_pos (k - 53)) as P.
  destruct a as [sa|sa| |sa ma ea]; try discriminate;
  destruct b as [sb|sb| |sb mb eb]; try discriminate; cbn [SFsub].
  - destruct sa, sb; cbn [SFfinite SF2R]; (split; [reflexivity|]);
      match goal with |- Rabs ?t <= _ => replace t with 0 by ring end;
      rewrite Rabs_R0; lra.
  - cbn [SFfinite]. split; [reflexivity|].
    destruct sb; cbn [SF2R negb];
      match goal with |- Rabs ?t <= _ => replace t with 0 by ring end;
      rewrite Rabs_R0; lra.
  - cbn [SFfinite]. split; [reflexivity|].
    destruct sa; cbn [SF2R];
      match goal with |- Rabs ?t <= _ => replace t with 0 by ring end;
      rewrite Rabs_R0; lra.
  - destruct (shl_align_spec ma ea (Z.min ea eb)) as [Va Ea].
    destruct (shl_align_spec mb eb (Z.min ea eb)) as [Vb Eb].
    replace (Z.min ea (Z.min ea eb)) with (Z.min ea eb) in Ea by lia.
    replace (Z.min eb (Z.min ea eb)) with (Z.min ea eb) in Eb by lia.
    rewrite Ea in Va. rewrite Eb in Vb.
    pose proof (cond_Zopp_value sa ma _ ea _ Va) as Ha.
    pose proof (cond_Zopp_value sb mb _ eb _ Vb) as Hb.
    set (z := (cond_Zopp sa (Zpos (fst (shl_align ma ea (Z.min ea eb)))) -
               cond_Zopp sb (Zpos (fst (shl_align mb eb (Z.min ea eb)))))%Z).
    assert (Hz : IZR z * bpow (Z.min ea eb) =
                 SF2R (S754_finite sa ma ea) - SF2R (S754_finite sb mb eb)).
    { unfold z. rewrite minus_IZR, Rmult_minus_distr_r, Ha, Hb. reflexivity. }
    rewrite <- Hz in *.
    apply binary_normalize_bound; assumption.
Qed.

Lemma sub_B2R (x y : float) (k : Z) :
  finite x = true -> finite y = true ->
  Rabs (B2R x - B2R y) <= bpow k -> (-1022 <= k <= 1022)%Z ->
  finite (x - y)%float = true /\
  Rabs (B2R (x - y)%float - (B2R x - B2R y)) <= bpow (k - 53).
Proof.
  unfold finite, B2R. rewrite FloatAxioms.sub_spec. apply SFsub_bound.
Qed.

(** ** Values of literals *)

Lemma bpow_Zneg (p : positive) : bpow (Zneg p) = / IZR (2 ^ Zpos p).
Proof.
  change (Zneg p) with (- Zpos p)%Z. rewrite bpow_opp, bpow_IZR by lia.
  reflexivity.
Qed.

Lemma B2R_finite_eq (x : float) (s : bool) (m : positive) (e : Z) :
  Prim2SF x = S754_finite s m e ->
  finite x = true /\ B2R x = SF2R (S754_finite s m e).
Proof. intros H. unfold finite, B2R. rewrite H. split; reflexivity. Qed.

End FloatRounding.

Section FloatDivision.

Local Unset Implicit Arguments.
Local Open Scope R_scope.

(** ** Division

    The integer quotient of the aligned mantissas with the location the
    remainder gives, then rounded. *)

Lemma new_location_spec (m2 r q e : Z) (x : R) :
  (0 < m2)%Z -> (0 <= r < m2)%Z ->
  x = (IZR q + IZR r / IZR m2) * bpow e ->
  Loc q e (new_location m2 r) x.
Proof.
  intros Hm2 Hr ->. pose proof (bpow_pos e) as Pb.
  assert (PM : 0 < IZR m2) by (apply IZR_lt; assumption).
  set (rho := IZR r / IZR m2).
  assert (Hrho : rho * IZR m2 = IZR r) by (unfold rho; field; lra).
  assert (Hr0 : 0 <= IZR r) by (apply IZR_le; lia).
  assert (Hr1 : IZR r < IZR m2) by (apply IZR_lt; lia).
  assert (Hrho1 : rho < 1) by nra.
  assert (Hlt : (2 * r < m2)%Z -> rho < / 2).
  { intros H. apply IZR_lt in H. rewrite mult_IZR in H. nra. }
  assert (Heq : (2 * r = m2)%Z -> rho = / 2).
  { intros H. apply (f_equal IZR) in H. rewrite mult_IZR in H. nra. }
  assert (Hgt : (m2 < 2 * r)%Z -> / 2 < rho).
  { intros H. apply IZR_lt in H. rewrite mult_IZR in H. nra. }
  unfold new_location, new_location_even, new_location_odd.
  destruct (Z.even m2) eqn:Ev; cbv beta;
    (destruct (r =? 0)%Z eqn:Er0;
     [apply Z.eqb_eq in Er0;
      assert (E0 : rho = 0) by (unfold rho; rewrite Er0; field; lra);
      cbn [Loc]; rewrite E0; ring
     |apply Z.eqb_neq in Er0]).
  - assert (Hpos : 0 < rho).
    { assert (0 < IZR r) by (apply IZR_lt; lia). nra. }
    destruct (Z.compare_spec (2 * r) m2) as [E|L|G]; unfold Loc.
    + rewrite (Heq E). reflexivity.
    + specialize (Hlt L). split; nra.
    + specialize (Hgt G). split; nra.
  - assert (Hpos : 0 < rho).
    { assert (0 < IZR r) by (apply IZR_lt; lia). nra. }
    assert (Hodd : (2 * r <> m2)%Z).
    { intros E. rewrite <- E, Z.even_mul in Ev. discriminate. }
    destruct (Z.compare_spec (2 * r + 1) m2) as [E|L|G]; unfold Loc.
    + specialize (Hlt ltac:(lia)). split; nra.
    + specialize (Hlt ltac:(lia)). split; nra.
    + specialize (Hgt ltac:(lia)). split; nra.
Qed.

Lemma SFdiv_core_binary_spec (m1 : positive) (e1 : Z) (m2 : positive) (e2 : Z) :
  exists q e' l,
    SFdiv_core_binary prec emax (Zpos m1) e1 (Zpos m2) e2 = (q, e', l) /\
    (0 <= q)%Z /\
    Loc q e' l (IZR (Zpos m1) * bpow e1 / (IZR (Zpos m2) * bpow e2)) /\
    (e' <= fexp prec emax
             (Zpos (digits2_pos m1) + e1 - (Zpos (digits2_pos m2) + e2)))%Z.
Proof.
  unfold SFdiv_core_binary. cbn [Zdigits2].
  set (e' := Z.min (fexp prec emax
                      (Zpos (digits2_pos m1) + e1 - (Zpos (digits2_pos m2) + e2)))
                   (e1 - e2)).
  set (s := (e1 - e2 - e')%Z).
  assert (Hs : (0 <= s)%Z) by (unfold s, e'; lia).
  set (m' := match s with
             | 0%Z => Zpos m1
             | Zpos _ => Z.shiftl (Zpos m1) s
             | Zneg _ => 0%Z
             end).
  assert (Hm' : m' = (Zpos m1 * 2 ^ s)%Z).
  { unfold m'. destruct s as [|p|p]; [lia| |lia].
    apply Z.shiftl_mul_pow2. lia. }
  pose proof (Z_div_mod m' (Zpos m2) ltac:(lia)) as Hdm.
  destruct (Z.div_eucl m' (Zpos m2)) as [q r]. destruct Hdm as [Hq Hr].
  exists q, e', (new_location (Zpos m2) r).
  split; [reflexivity|].
  assert (Hq0 : (0 <= q)%Z).
  { assert (0 <= m')%Z by (rewrite Hm'; apply Z.mul_nonneg_nonneg;
                            [lia|apply Z.pow_nonneg; lia]).
    nia. }
  split; [exact Hq0|]. split; [|unfold e'; lia].
  apply new_location_spec; [lia|exact Hr|].
  pose proof (bpow_pos e2) as P2. pose proof (bpow_pos e') as P'.
  assert (PM : 0 < IZR (Zpos m2)) by (apply IZR_lt; lia).
  assert (E1 : bpow e1 = bpow s * bpow e2 * bpow e').
  { rewrite <- !bpow_plus. f_equal. unfold s. lia. }
  assert (Em : IZR (Zpos m1) * bpow s = IZR (Zpos m2) * IZR q + IZR r).
  { rewrite (bpow_IZR s Hs), <- mult_IZR, <- Hm', Hq, plus_IZR, mult_IZR.
    reflexivity. }
  rewrite E1.
  replace (IZR (Zpos m1) * (bpow s * bpow e2 * bpow e'))
    with ((IZR (Zpos m1) * bpow s) * bpow e2 * bpow e') by ring.
  rewrite Em. field. split; lra.
Qed.

Lemma SFdiv_bound (sa : bool) (ma : positive) (ea : Z)
    (sb : bool) (mb : positive) (eb : Z) (k : Z) :
  IZR (Zpos ma) * bpow ea / (IZR (Zpos mb) * bpow eb) <= bpow k ->
  (-1022 <= k <= 1022)%Z ->
  exists v, 0 <= v /\
    Rabs (v - IZR (Zpos ma) * bpow ea / (IZR (Zpos mb) * bpow eb))
      <= bpow (k - 53) /\
    SFfinite (SFdiv prec emax (S754_finite sa ma ea) (S754_finite sb mb eb))
      = true /\
    SF2R (SFdiv prec emax (S754_finite sa ma ea) (S754_finite sb mb eb))
      = (if xorb sa sb then - v else v).
Proof.
  intros Hx Hk. cbn [SFdiv].
  destruct (SFdiv_core_binary_spec ma ea mb eb) as (q & e' & l & -> & Hq & HL & He').
  apply binary_round_aux_bound; try assumption.
  (* the quotient is above 2^(D-1) *)
  destruct (IZR_pos_bounds ma) as [Ha _]. destruct (IZR_pos_bounds mb) as [_ Hb].
  set (da := Zpos (digits2_pos ma)) in *. set (db := Zpos (digits2_pos mb)) in *.
  pose proof (bpow_pos ea) as Pa. pose proof (bpow_pos eb) as Pb.
  pose proof (bpow_pos (da - 1)) as Pda. pose proof (bpow_pos db) as Pdb.
  assert (PM : 0 < IZR (Zpos mb)) by (apply IZR_lt; lia).
  assert (Hlow : bpow (da + ea - (db + eb) - 1) <
                 IZR (Zpos ma) * bpow ea / (IZR (Zpos mb) * bpow eb)).
  { replace (da + ea - (db + eb) - 1)%Z with ((da - 1) + ea + (- (db + eb)))%Z
      by lia.
    rewrite !bpow_plus, bpow_opp, bpow_plus.
    unfold Rdiv.
    assert (PA : 0 < IZR (Zpos ma)) by (apply IZR_lt; lia).
    assert (P1 : 0 < bpow db * bpow eb) by (apply Rmult_lt_0_compat; lra).
    assert (P2 : 0 < IZR (Zpos mb) * bpow eb) by (apply Rmult_lt_0_compat; lra).
    assert (P3 : 0 < IZR (Zpos ma) * bpow ea) by (apply Rmult_lt_0_compat; lra).
    apply Rle_lt_trans with (IZR (Zpos ma) * bpow ea * / (bpow db * bpow eb)).
    - apply Rmult_le_compat_r.
      + apply Rlt_le, Rinv_0_lt_compat. exact P1.
      + apply Rmult_le_compat_r; lra.
    - apply Rmult_lt_compat_l; [exact P3|].
      apply Rinv_lt_contravar.
      + apply Rmult_lt_0_compat; assumption.
      + apply Rmult_lt_compat_r; lra. }
  assert (Hlt : bpow (da + ea - (db + eb) - 1) < bpow k) by lra.
  apply bpow_lt_inv in Hlt.
  unfold fexp, SpecFloat.emin, prec, emax in He'. lia.
Qed.

(** The quotient of two positive numbers, when at most [2^k], is finite and
    within [2^(k-53)] of the exact quotient. *)

Lemma positive_Prim2SF (a : float) :
  finite a = true -> 0 < B2R a ->
  exists m e, Prim2SF a = S754_finite false m e.
Proof.
  unfold finite, B2R. destruct (Prim2SF a) as [s|s| |s m e]; try discriminate;
    cbn [SF2R]; intros _ H; try lra.
  pose proof (finite_value_pos m e). destruct s; [lra|].
  exists m, e. reflexivity.
Qed.

Lemma div_B2R (a b : float) (k : Z) :
  finite a = true -> finite b = true -> 0 < B2R a -> 0 < B2R b ->
  B2R a / B2R b <= bpow k -> (-1022 <= k <= 1022)%Z ->
  finite (a / b)%float = true /\ 0 <= B2R (a / b)%float /\
  Rabs (B2R (a / b)%float - B2R a / B2R b) <= bpow (k - 53).
Proof.
  intros Fa Fb Pa Pb Hx Hk.
  destruct (positive_Prim2SF a Fa Pa) as (ma & ea & Ea).
  destruct (positive_Prim2SF b Fb Pb) as (mb & eb & Eb).
  unfold finite, B2R in *. rewrite FloatAxioms.div_spec, Ea, Eb in *.
  unfold SF64div. cbn [SF2R] in Hx.
  destruct (SFdiv_bound false ma ea false mb eb k Hx Hk) as (v & Hv0 & Hv & Hf & E).
  cbn [xorb] in E. rewrite E. cbn [SF2R]. auto.
Qed.

End FloatDivision.

Section FloatMonotone.

Local Unset Implicit Arguments.
Local Open Scope R_scope.

(** Below [2^52] the rounding does not cross an integer. *)
Lemma binary_round_aux_monotone (sx : bool) (mx ex : Z) (lx : location) (x : R) :
  (0 <= mx)%Z -> Loc mx ex lx x -> x <= bpow 52 -> (ex <= 0)%Z ->
  exists v, 0 <= v /\
    SFfinite (binary_round_aux prec emax sx mx ex lx) = true /\
    SF2R (binary_round_aux prec emax sx mx ex lx) = (if sx then - v else v) /\
    forall C : Z, (IZR C <= x -> IZR C <= v) /\ (x <= IZR C -> v <= IZR C).
Proof.
  intros Hm HL Hx He.
  destruct (binary_round_aux_spec sx mx ex lx x Hm HL)
    as (m1 & Hm1 & _ & _ & Hzero & Hfin & Hgrid).
  set (e' := Z.max ex (fexp prec emax (Zdigits2 mx + ex))) in *.
  assert (He' : (e' <= 0)%Z).
  { unfold e', fexp, SpecFloat.emin, prec, emax.
    destruct mx as [|p|p]; [simpl; lia| |lia].
    pose proof (Loc_lower _ _ _ _ HL) as Hlo.
    assert (Hp : IZR (Zpos p) * bpow ex <= bpow 52) by lra.
    apply digits_exponent_le in Hp. simpl Zdigits2. lia. }
  assert (Hm10 : (0 <= m1)%Z).
  { apply Z.le_trans with (2 := proj1 Hm1). apply Z.div_pos; [assumption|].
    apply Z.pow_pos_nonneg; [lia|unfold e'; lia]. }
  pose proof (bpow_pos e') as Pe.
  exists (IZR m1 * bpow e').
  split.
  { apply Rmult_le_pos; [apply IZR_le; assumption|lra]. }
  assert (HC : forall C : Z, IZR C = IZR (C * 2 ^ (- e')) * bpow e').
  { intros C. rewrite mult_IZR, <- (bpow_IZR (- e')) by lia.
    rewrite Rmult_assoc, <- bpow_plus.
    replace (- e' + e')%Z with 0%Z by lia. unfold bpow. simpl. ring. }
  assert (Hmono : forall C : Z,
            (IZR C <= x -> IZR C <= IZR m1 * bpow e') /\
            (x <= IZR C -> IZR m1 * bpow e' <= IZR C)).
  { intros C. destruct (Hgrid (C * 2 ^ (- e'))%Z) as [G1 G2].
    rewrite <- HC in G1, G2. rewrite (HC C) at 2 4. split; intros H.
    - apply Rmult_le_compat_r; [lra|]. apply IZR_le. apply G1. exact H.
    - apply Rmult_le_compat_r; [lra|]. apply IZR_le. apply G2. exact H. }
  destruct (Z.eq_dec m1 0) as [E0|Hne].
  - rewrite (Hzero E0). cbn [SFfinite SF2R].
    split; [reflexivity|]. split; [subst m1; destruct sx; lra|exact Hmono].
  - destruct (Hfin ltac:(lia) ltac:(unfold emax, prec; lia)) as (m & e & -> & Hv).
    cbn [SFfinite SF2R]. rewrite Hv. split; [reflexivity|].
    split; [reflexivity|exact Hmono].
Qed.

(** The quotient of two positive numbers, when at most [2^52], is rounded
    without crossing an integer. *)
Lemma div_monotone (a b : float) :
  finite a = true -> finite b = true -> 0 < B2R a -> 0 < B2R b ->
  B2R a / B2R b <= bpow 52 ->
  finite (a / b)%float = true /\
  forall C : Z,
    (IZR C <= B2R a / B2R b -> IZR C <= B2R (a / b)%float) /\
    (B2R a / B2R b <= IZR C -> B2R (a / b)%float <= IZR C).
Proof.
  intros Fa Fb Pa Pb Hx.
  destruct (positive_Prim2SF a Fa Pa) as (ma & ea & Ea).
  destruct (positive_Prim2SF b Fb Pb) as (mb & eb & Eb).
  unfold finite, B2R in *. rewrite FloatAxioms.div_spec, Ea, Eb in *.
  unfold SF64div. cbn [SF2R] in Hx. cbn [SFdiv].
  destruct (SFdiv_core_binary_spec ma ea mb eb) as (q & e' & l & -> & Hq & HL & He').
  assert (Hez : (e' <= 0)%Z).
  { destruct (IZR_pos_bounds ma) as [Ha _]. destruct (IZR_pos_bounds mb) as [_ Hb].
    set (da := Zpos (digits2_pos ma)) in *. set (db := Zpos (digits2_pos mb)) in *.
    pose proof (bpow_pos ea) as Pea. pose proof (bpow_pos eb) as Peb.
    pose proof (bpow_pos (da - 1)) as Pda. pose proof (bpow_pos db) as Pdb.
    assert (PM : 0 < IZR (Zpos mb)) by (apply IZR_lt; lia).
    assert (Hlow : bpow (da + ea - (db + eb) - 1) <
                   IZR (Zpos ma) * bpow ea / (IZR (Zpos mb) * bpow eb)).
    { replace (da + ea - (db + eb) - 1)%Z with ((da - 1) + ea + (- (db + eb)))%Z
        by lia.
      rewrite !bpow_plus, bpow_opp, bpow_plus.
      unfold Rdiv.
      assert (PA : 0 < IZR (Zpos ma)) by (apply IZR_lt; lia).
      assert (P1 : 0 < bpow db * bpow eb) by (apply Rmult_lt_0_compat; lra).
      assert (P2 : 0 < IZR (Zpos mb) * bpow eb) by (apply Rmult_lt_0_compat; lra).
      assert (P3 : 0 < IZR (Zpos ma) * bpow ea) by (apply Rmult_lt_0_compat; lra).
      apply Rle_lt_trans with (IZR (Zpos ma) * bpow ea * / (bpow db * bpow eb)).
      - apply Rmult_le_compat_r.
        + apply Rlt_le, Rinv_0_lt_compat. exact P1.
        + apply Rmult_le_compat_r; lra.
      - apply Rmult_lt_compat_l; [exact P3|].
        apply Rinv_lt_contravar.
        + apply Rmult_lt_0_compat; assumption.
        + apply Rmult_lt_compat_r; lra. }
    assert (Hlt : bpow (da + ea - (db + eb) - 1) < bpow 52) by lra.
    apply bpow_lt_inv in Hlt.
    unfold fexp, SpecFloat.emin, prec, emax in He'. lia. }
  destruct (binary_round_aux_monotone (xorb false false) q e' l _ Hq HL Hx Hez)
    as (v & _ & Hf & Hv & Hmono).
  cbn [xorb SF2R] in *. split; [exact Hf|]. rewrite Hv. exact Hmono.
Qed.

(** A number of at least [2^-1022] is normal: its mantissa has 53 digits. *)
Lemma normal_digits (m : positive) (e : Z) :
  SpecFloat.bounded prec emax m e = true ->
  bpow (-1022) <= IZR (Zpos m) * bpow e ->
  Zpos (digits2_pos m) = 53%Z.
Proof.
  intros Hb Hx. destruct (bounded_inv _ _ Hb) as (He & Hd & [E|E]); [|exact E].
  destruct (Z.eq_dec (Zpos (digits2_pos m)) 53) as [|Hne]; [assumption|].
  exfalso. destruct (IZR_pos_bounds m) as [_ Hhi].
  pose proof (bpow_pos e) as Pe.
  assert (IZR (Zpos m) * bpow e < bpow 52 * bpow e).
  { apply Rmult_lt_compat_r; [exact Pe|].
    apply Rlt_le_trans with (1 := Hhi). apply bpow_le. lia. }
  rewrite <- bpow_plus in H. subst e.
  assert (bpow (-1022) < bpow (52 + -1074)) by lra.
  apply bpow_lt_inv in H0. lia.
Qed.

(** The product of two positive numbers, one of them normal, that stays in
    range is within [2^(k-53)] of the exact product. *)
Lemma mul_B2R (a b : float) (k : Z) :
  finite a = true -> finite b = true -> bpow (-1022) <= B2R a -> 0 < B2R b ->
  bpow (k - 1) <= B2R a * B2R b <= bpow k -> (-1022 <= k <= 1022)%Z ->
  finite (a * b)%float = true /\ 0 <= B2R (a * b)%float /\
  Rabs (B2R (a * b)%float - B2R a * B2R b) <= bpow (k - 53).
Proof.
  intros Fa Fb Pa Pb Hx Hk.
  pose proof (bpow_pos (-1022)) as P1022.
  destruct (positive_Prim2SF a Fa ltac:(lra)) as (ma & ea & Ea).
  destruct (positive_Prim2SF b Fb Pb) as (mb & eb & Eb).
  pose proof (Prim2SF_valid a) as Va. rewrite Ea in Va. cbn [valid_binary] in Va.
  unfold finite, B2R in *. rewrite FloatAxioms.mul_spec, Ea, Eb in *.
  unfold SF64mul. cbn [SF2R] in Hx, Pa. cbn [SFmul].
  pose proof (normal_digits ma ea Va Pa) as Hda.
  set (x := IZR (Zpos ma) * bpow ea * (IZR (Zpos mb) * bpow eb)) in *.
  assert (HL : Loc (Zpos (ma * mb)) (ea + eb) loc_Exact x).
  { unfold Loc, x. rewrite Pos2Z.inj_mul, mult_IZR, bpow_plus. ring. }
  assert (He : (ea + eb <= k - 52)%Z).
  { destruct (IZR_pos_bounds ma) as [Ha _]. rewrite Hda in Ha.
    assert (Hb1 : 1 <= IZR (Zpos mb)) by (apply IZR_le; lia).
    pose proof (bpow_pos ea) as Pea. pose proof (bpow_pos eb) as Peb.
    pose proof (bpow_pos (53 - 1)) as P52.
    assert (bpow (53 - 1 + (ea + eb)) <= bpow k).
    { apply Rle_trans with (2 := proj2 Hx). unfold x.
      rewrite !bpow_plus.
      apply Rle_trans with (IZR (Zpos ma) * bpow ea * (1 * bpow eb)).
      - rewrite Rmult_1_l, <- Rmult_assoc.
        apply Rmult_le_compat_r; [lra|]. apply Rmult_le_compat_r; lra.
      - apply Rmult_le_compat_l.
        + apply Rmult_le_pos; [lra|lra].
        + apply Rmult_le_compat_r; lra. }
    apply bpow_le_inv in H. lia. }
  destruct (binary_round_aux_bound (xorb false false) (Zpos (ma * mb)) (ea + eb)
              loc_Exact x k ltac:(lia) HL (proj2 Hx) He Hk)
    as (v & Hv0 & Hv & Hf & E).
  cbn [xorb] in *. rewrite E. auto.
Qed.

End FloatMonotone.

(** The value of a float given by a literal: its mantissa and exponent are
    computed, the powers of two turned into integers. *)
Ltac float_value x :=
  let f := eval vm_compute in (Prim2SF x) in
  match f with
  | S754_finite ?s ?m ?e =>
      let Hf := fresh "Hf" in
      let Hv := fresh "Hv" in
      destruct (B2R_finite_eq x s m e ltac:(vm_compute; reflexivity)) as [Hf Hv];
      cbn [SF2R] in Hv;
      rewrite ?bpow_Zneg in Hv;
      rewrite ?bpow_IZR in Hv by lia;
      repeat match type of Hv with
             | context [(2 ^ Zpos ?p)%Z] =>
                 let v := eval vm_compute in (2 ^ Zpos p)%Z in
                 change (2 ^ Zpos p)%Z with v in Hv
             end
  end.

Section Integers64.

Import Binary64.
Local Unset Implicit Arguments.
Local Open Scope R_scope.

(** ** Integers

    Integers below [2^53] are floats. *)

Lemma digits2_shift_pos (n m : positive) :
  digits2_pos (shift_pos n m) = (digits2_pos m + n)%positive.
Proof.
  unfold shift_pos. induction n as [|n IH] using Pos.peano_ind.
  - cbn [Pos.iter digits2_pos]. rewrite Pos.add_1_r. reflexivity.
  - rewrite Pos.iter_succ. cbn [digits2_pos]. rewrite IH, Pos.add_succ_r.
    reflexivity.
Qed.

(** A number that fits the format is rounded to itself. *)
Lemma binary_round_exact (s : bool) (m : positive) (e : Z) :
  (Zpos (digits2_pos m) <= 53)%Z -> (-1074 <= e)%Z ->
  (Zpos (digits2_pos m) + e <= 1023)%Z ->
  exists m' e', binary_round prec emax s m e = S754_finite s m' e' /\
    IZR (Zpos m') * bpow e' = IZR (Zpos m) * bpow e.
Proof.
  intros Hd He Hmax. unfold binary_round.
  set (f := fexp prec emax (Zpos (digits2_pos m) + e)).
  assert (Hf : (f <= e)%Z) by (unfold f, fexp, SpecFloat.emin, prec, emax; lia).
  destruct (shl_align_spec m e f) as [Hv Hez].
  assert (Hdz : (Zpos (digits2_pos (fst (shl_align m e f))) + snd (shl_align m e f)
                 = Zpos (digits2_pos m) + e)%Z).
  { unfold shl_align. destruct (f - e)%Z as [|p|p] eqn:Ep; cbn [fst snd]; try lia.
    change (Pos.iter xO m p) with (shift_pos p m).
    rewrite digits2_shift_pos. lia. }
  destruct (shl_align m e f) as [mz ez]. cbn [fst snd] in *.
  assert (HL : Loc (Zpos mz) ez loc_Exact (IZR (Zpos mz) * bpow ez)) by reflexivity.
  destruct (binary_round_aux_spec s (Zpos mz) ez loc_Exact _ ltac:(lia) HL)
    as (m1 & _ & _ & Hex & _ & Hfin & _).
  cbn [Zdigits2] in *. rewrite Hdz in *. fold f in Hex, Hfin.
  assert (E' : Z.max ez f = ez) by lia. rewrite E' in *.
  specialize (Hex eq_refl eq_refl). subst m1.
  destruct (Hfin ltac:(lia)
              ltac:(unfold f, fexp, SpecFloat.emin, prec, emax in *; lia))
    as (m' & e' & E & V).
  exists m', e'. split; [exact E|]. rewrite V. exact Hv.
Qed.

Lemma of_Z_exact (r : Z) :
  (0 < r < 2 ^ 53)%Z -> finite (of_Z r) = true /\ B2R (of_Z r) = IZR r.
Proof.
  intros Hr. destruct r as [|p|p]; try lia.
  unfold of_Z, finite, B2R. rewrite FloatAxioms.of_uint63_spec, Uint63.of_Z_spec.
  rewrite Z.mod_small by (unfold wB; simpl; lia).
  cbn [binary_normalize].
  assert (Hd : (Zpos (digits2_pos p) <= 53)%Z).
  { apply (Zdigits2_le (Zpos p) 53); lia. }
  destruct (binary_round_exact false p 0 Hd ltac:(lia) ltac:(lia))
    as (m' & e' & -> & V).
  cbn [SFfinite SF2R]. split; [reflexivity|].
  rewrite V. unfold bpow. simpl. ring.
Qed.

(** [Math.round] moves a non-negative number by at most one half. *)
Lemma round_B2R (q : float) :
  finite q = true -> 0 <= B2R q ->
  finite (round q) = true /\ Rabs (B2R (round q) - B2R q) <= / 2.
Proof.
  intros Fq Pq. unfold round.
  pose proof (Prim2SF_valid q) as Vq.
  unfold finite, B2R in Fq, Pq.
  destruct (Prim2SF q) as [s|s| |s m e] eqn:Eq; try discriminate.
  - unfold finite, B2R. rewrite Eq. cbn [SFfinite SF2R].
    split; [reflexivity|]. rewrite Rminus_diag, Rabs_R0. lra.
  - cbn [SF2R] in Pq. pose proof (finite_value_pos m e) as Pm.
    destruct s; [lra|].
    destruct (Z.leb_spec 0 e) as [He|He].
    + unfold finite, B2R. rewrite Eq. cbn [SFfinite SF2R].
      split; [reflexivity|]. rewrite Rminus_diag, Rabs_R0. lra.
    + cbn [valid_binary] in Vq. destruct (bounded_inv _ _ Vq) as (_ & Hd & _).
      destruct (digits2_bounds m) as [_ Hm].
      assert (Hm53 : (Zpos m < 2 ^ 53)%Z).
      { apply Z.lt_le_trans with (1 := Hm). apply Z.pow_le_mono_r; lia. }
      set (d := (2 ^ (- e))%Z).
      assert (Hd2 : (2 <= d)%Z).
      { unfold d. change 2%Z with (2 ^ 1)%Z at 1. apply Z.pow_le_mono_r; lia. }
      set (r := ((2 * Zpos m + d) / (2 * d))%Z).
      assert (Hr : (2 * d * r <= 2 * Zpos m + d < 2 * d * r + 2 * d)%Z).
      { unfold r. pose proof (Z.div_mod (2 * Zpos m + d) (2 * d) ltac:(lia)).
        pose proof (Z.mod_pos_bound (2 * Zpos m + d) (2 * d) ltac:(lia)). lia. }
      assert (Hr0 : (0 <= r)%Z) by (unfold r; apply Z.div_pos; lia).
      assert (Hr53 : (r < 2 ^ 53)%Z) by nia.
      assert (Hq : IZR (Zpos m) * bpow e = IZR (Zpos m) / IZR d).
      { unfold d. rewrite <- bpow_IZR by lia. rewrite bpow_opp.
        unfold Rdiv. rewrite Rinv_inv. reflexivity. }
      assert (Pd : 0 < IZR d) by (apply IZR_lt; lia).
      assert (Herr : Rabs (IZR r - IZR (Zpos m) / IZR d) <= / 2).
      { destruct Hr as [H1 H2]. apply IZR_le in H1. apply IZR_lt in H2.
        rewrite !plus_IZR, !mult_IZR in *.
        set (x := IZR (Zpos m) / IZR d) in *.
        assert (Hx : x * IZR d = IZR (Zpos m)) by (unfold x; field; lra).
        unfold Rabs. destruct (Rcase_abs _); nra. }
      assert (HBq : B2R q = IZR (Zpos m) / IZR d).
      { unfold B2R. rewrite Eq. exact Hq. }
      rewrite HBq.
      destruct (Z.eqb_spec r 0) as [E0|Hne].
      * split; [reflexivity|].
        change (B2R zero) with 0. rewrite E0 in Herr. exact Herr.
      * destruct (of_Z_exact r ltac:(lia)) as [Fr Vr].
        split; [exact Fr|]. rewrite Vr. exact Herr.
Qed.

End Integers64.

(* ------------------------------------------------------------------ *)
(** * The early-exit scan in binary64 *)

Section GenericScans.

Local Unset Implicit Arguments.
Context {number : Type} {N : JSNumber number}.

(** When no member is strictly closer than the best so far, both scans
    keep it. *)

Lemma fullScanMinimum_stays (t : number) (l : list number) (best : number) :
  (forall a, In a l ->
     lt (Math_abs (sub a t)) (Math_abs (sub best t)) = false) ->
  fullScanMinimum t best l = best.
Proof.
  induction l as [|a rest IH]; intros H; cbn [fullScanMinimum]; [reflexivity|].
  rewrite (H a (or_introl eq_refl)). apply IH.
  intros a' Ha'. apply H. right. exact Ha'.
Qed.

Lemma closestSignificand_stays (t : number) (l : list number) (best : number) :
  (forall a, In a l ->
     lt (Math_abs (sub a t)) (Math_abs (sub best t)) = false) ->
  closestSignificand t best l = best.
Proof.
  destruct l as [|a rest]; intros H; cbn [closestSignificand]; [reflexivity|].
  rewrite (H a (or_introl eq_refl)). reflexivity.
Qed.

End GenericScans.

Section Scans64.

Import Binary64.
Local Unset Implicit Arguments.
Context {M : MathLib}.
Local Open Scope R_scope.

(** The distance the loop computes, [Math.abs(a - t)], is within [1/8] of
    the distance of the two numbers. *)
Lemma distance_B2R (t a : float) :
  finite t = true -> near t a ->
  finite (abs (a - t)) = true /\
  Rabs (B2R (abs (a - t)) - Rabs (B2R a - B2R t)) <= / 8.
Proof.
  intros Ft [Fa Ha].
  destruct (sub_B2R a t 50 Fa Ft Ha ltac:(lia)) as [Fs Es].
  destruct (abs_B2R (a - t)) as [Fabs Vabs].
  split; [rewrite Fabs; exact Fs|].
  rewrite Vabs.
  apply Rle_trans with (1 := Rabs_triang_inv2 _ _).
  apply Rle_trans with (1 := Es).
  change (50 - 53)%Z with (-3)%Z. rewrite bpow_Zneg.
  change (2 ^ 3)%Z with 8%Z. lra.
Qed.

(** The comparison of the loop, on the numbers. *)
Lemma lt_distance (t a b : float) :
  finite t = true -> near t a -> near t b ->
  (lt (Math_abs (sub a t)) (Math_abs (sub b t)) = true <->
   B2R (abs (a - t)) < B2R (abs (b - t))).
Proof.
  intros Ft Ha Hb.
  destruct (distance_B2R t a Ft Ha) as [Fa _].
  destruct (distance_B2R t b Ft Hb) as [Fb _].
  apply ltb_B2R; assumption.
Qed.

(** Once a candidate above the best so far is not closer, none further up
    is: the measured distances are within [1/8] and the members [1/2]
    apart. *)
Lemma farther_right (T B A A' Db Da Da' : R) :
  Rabs (Db - Rabs (B - T)) <= / 8 ->
  Rabs (Da - Rabs (A - T)) <= / 8 ->
  Rabs (Da' - Rabs (A' - T)) <= / 8 ->
  B + / 2 <= A -> A + / 2 <= A' ->
  ~ Da < Db -> ~ Da' < Db.
Proof.
  unfold Rabs. intros H1 H2 H3 H4 H5 H6.
  repeat match goal with
         | H : context [Rcase_abs ?x] |- _ => destruct (Rcase_abs x)
         end; lra.
Qed.

(** The two scans agree on every set whose members are at least [1/2]
    apart, at every target within [2^50] of them. *)

Lemma spaced_above (a : float) (l : list float) (a' : float) :
  spaced (/ 2) a l -> In a' l -> B2R a + / 2 <= B2R a'.
Proof.
  revert a. induction l as [|b rest IH]; intros a Hs Hin; [destruct Hin|].
  destruct Hs as [Hab Hs]. destruct Hin as [<-|Hin]; [exact Hab|].
  pose proof (IH b Hs Hin). lra.
Qed.

Lemma scans_agree_spaced (t : float) (l : list float) (best : float) :
  finite t = true -> Forall (near t) (best :: l) -> spaced (/ 2) best l ->
  closestSignificand t best l = fullScanMinimum t best l.
Proof.
  intros Ft. revert best.
  induction l as [|a rest IH]; intros best Hn Hs; [reflexivity|].
  cbn [closestSignificand fullScanMinimum].
  inversion Hn as [|? ? Hb Hn']; subst.
  inversion Hn' as [|? ? Ha Hn'']; subst.
  destruct Hs as [Hba Hs].
  destruct (lt (Math_abs (sub a t)) (Math_abs (sub best t))) eqn:E.
  - apply IH; [constructor; assumption|exact Hs].
  - symmetry. apply fullScanMinimum_stays.
    intros a' Hin.
    assert (Ha' : near t a').
    { rewrite Forall_forall in Hn''. apply Hn''. exact Hin. }
    destruct (lt (Math_abs (sub a' t)) (Math_abs (sub best t))) eqn:E';
      [|reflexivity].
    exfalso.
    apply (lt_distance t a' best Ft Ha' Hb) in E'.
    assert (En : ~ B2R (abs (a - t)) < B2R (abs (best - t))).
    { intros Hlt. apply (lt_distance t a best Ft Ha Hb) in Hlt. congruence. }
    destruct (distance_B2R t best Ft Hb) as [_ Db].
    destruct (distance_B2R t a Ft Ha) as [_ Da].
    destruct (distance_B2R t a' Ft Ha') as [_ Da'].
    pose proof (spaced_above a rest a' Hs Hin) as Haa'.
    exact (farther_right _ _ _ _ _ _ _ Db Da Da' Hba Haa' En E').
Qed.

(** The default set: 1.5, 2, 3, 5, 7.5, 10, after the initial 1. *)
Lemma default_set_values :
  Forall (fun a => finite a = true) (lit 1 :: DEFAULT_ALLOWED_SIGNIFICANDS) /\
  map B2R (lit 1 :: DEFAULT_ALLOWED_SIGNIFICANDS) =
    [1; 3 / 2; 2; 3; 5; 15 / 2; 10].
Proof.
  unfold DEFAULT_ALLOWED_SIGNIFICANDS.
  change (@lit float binary64) with literal.
  float_value (literal 1). float_value (literal (3 # 2)).
  float_value (literal 2). float_value (literal 3). float_value (literal 5).
  float_value (literal (15 # 2)). float_value (literal 10).
  split.
  - repeat constructor; assumption.
  - cbn [map].
    replace (B2R (literal 1)) with 1 by lra.
    replace (B2R (literal (3 # 2))) with (3 / 2) by lra.
    replace (B2R (literal 2)) with 2 by lra.
    replace (B2R (literal 3)) with 3 by lra.
    replace (B2R (literal 5)) with 5 by lra.
    replace (B2R (literal (15 # 2))) with (15 / 2) by lra.
    replace (B2R (literal 10)) with 10 by lra.
    reflexivity.
Qed.

(** A target of magnitude at most [2^49] is within [2^50] of the default
    set. *)

Lemma abs_leb_bound (t c : float) :
  (abs t <=? c)%float = true -> finite c = true ->
  finite t = true /\ Rabs (B2R t) <= B2R c.
Proof.
  intros H Fc.
  assert (Ft : finite t = true).
  { rewrite FloatAxioms.leb_spec, FloatAxioms.abs_spec in H. unfold finite in *.
    destruct (Prim2SF t) as [s|s| |s m e]; try reflexivity.
    - destruct (Prim2SF c); discriminate.
    - discriminate. }
  split; [exact Ft|].
  destruct (abs_B2R t) as [Fa Va]. rewrite <- Va.
  apply leb_B2R; [rewrite Fa; exact Ft|exact Fc|exact H].
Qed.

Lemma B2R_2_49 : finite 0x1p49%float = true /\ B2R 0x1p49%float = bpow 49.
Proof.
  float_value 0x1p49%float. split; [exact Hf|].
  rewrite Hv, (bpow_IZR 49) by lia.
  change (2 ^ 49)%Z with 562949953421312%Z. lra.
Qed.

Lemma default_set_near (t : float) :
  (abs t <=? 0x1p49)%float = true ->
  finite t = true /\ Forall (near t) (lit 1 :: DEFAULT_ALLOWED_SIGNIFICANDS).
Proof.
  intros H. destruct B2R_2_49 as [Fc Vc].
  destruct (abs_leb_bound t _ H Fc) as [Ft Ht]. rewrite Vc in Ht.
  split; [exact Ft|].
  destruct default_set_values as [Hfin Hval].
  rewrite (bpow_IZR 49) in Ht by lia.
  change (2 ^ 49)%Z with 562949953421312%Z in Ht.
  unfold near. rewrite (bpow_IZR 50) by lia.
  change (2 ^ 50)%Z with 1125899906842624%Z.
  unfold DEFAULT_ALLOWED_SIGNIFICANDS in *. cbn [map] in Hval.
  injection Hval as E0 E1 E2 E3 E4 E5 E6.
  repeat match goal with
         | H : Forall _ (_ :: _) |- _ => inversion H; clear H; subst
         end.
  change (@lit float binary64) with literal.
  repeat (apply Forall_cons; [split; [assumption|]|]); try apply Forall_nil;
    rewrite ?E0, ?E1, ?E2, ?E3, ?E4, ?E5, ?E6; unfold Rabs in *;
    repeat match goal with
           | H : context [Rcase_abs ?x] |- _ => destruct (Rcase_abs x)
           | |- context [Rcase_abs ?x] => destruct (Rcase_abs x)
           end; lra.
Qed.

Lemma default_set_spaced : spaced (/ 2) (lit 1) DEFAULT_ALLOWED_SIGNIFICANDS.
Proof.
  destruct default_set_values as [_ Hval].
  unfold DEFAULT_ALLOWED_SIGNIFICANDS in *. cbn [map] in Hval.
  injection Hval as E0 E1 E2 E3 E4 E5 E6.
  change (@lit float binary64) with literal.
  cbn [spaced]. rewrite E0, E1, E2, E3, E4, E5, E6.
  repeat split; lra.
Qed.

(** Infinite and NaN targets. *)

Lemma is_infinity_Prim2SF (t : float) :
  is_infinity t = true -> exists s, Prim2SF t = S754_infinity s.
Proof.
  unfold is_infinity. rewrite FloatAxioms.eqb_spec, FloatAxioms.abs_spec.
  change (Prim2SF infinity) with (S754_infinity false).
  destruct (Prim2SF t) as [s|s| |s m e]; try discriminate.
  intros _. exists s. reflexivity.
Qed.

(** Every distance from an infinite target is [+Infinity]: nothing is
    strictly closer than anything else. *)
Lemma lt_distance_infinite (t a b : float) :
  is_infinity t = true -> finite a = true -> finite b = true ->
  lt (Math_abs (sub a t)) (Math_abs (sub b t)) = false.
Proof.
  intros Ht Fa Fb. destruct (is_infinity_Prim2SF t Ht) as [s Es].
  change (@lt float binary64) with PrimFloat.ltb.
  change (@Math_abs float binary64) with PrimFloat.abs.
  change (@sub float binary64) with PrimFloat.sub.
  rewrite FloatAxioms.ltb_spec, !FloatAxioms.abs_spec, !FloatAxioms.sub_spec, Es.
  unfold finite in Fa, Fb.
  destruct (Prim2SF a); try discriminate;
    destruct (Prim2SF b); try discriminate; reflexivity.
Qed.

Lemma lt_distance_nan (a b : float) :
  lt (Math_abs (sub a nan)) (Math_abs (sub b nan)) = false.
Proof.
  change (@lt float binary64) with PrimFloat.ltb.
  change (@Math_abs float binary64) with PrimFloat.abs.
  change (@sub float binary64) with PrimFloat.sub.
  rewrite sub_nan_r. change (abs nan) with nan. apply ltb_nan_l.
Qed.

(** C6.  The early-exit scan of [update] and the explicit full scan return
    the same significand, for the default set, at every target that is NaN,
    infinite, or of magnitude at most [2^49]; every target [update]
    computes as a quotient of the target length by a power of ten near it
    is among them.  The distances [Math.abs(a - target)] are the rounded
    ones of the program.  So the significand [update] chooses with the
    default set is the one the full scan returns. *)
Theorem scans_agree_binary64 (t : float) :
  is_nan t || is_infinity t || (abs t <=? 0x1p49)%float = true ->
  scans_agree t /\
  forall d : ScaleBarDimensions float,
    allowedSignificands d = DEFAULT_ALLOWED_SIGNIFICANDS ->
    targetSignificand d = t ->
    bestSignificand d = fullScanMinimum t (lit 1) DEFAULT_ALLOWED_SIGNIFICANDS.
Proof.
  intros H.
  assert (Hagree : scans_agree t);
    [|split; [exact Hagree|];
      intros d Hset Ht; unfold bestSignificand; rewrite Hset, Ht; exact Hagree].
  unfold scans_agree.
  apply orb_true_iff in H. destruct H as [H|H];
    [apply orb_true_iff in H; destruct H as [H|H]|].
  - apply (@is_nan_eq _) in H. subst t.
    rewrite closestSignificand_stays, fullScanMinimum_stays;
      [reflexivity| |]; intros a _; apply lt_distance_nan.
  - destruct default_set_values as [Hfin _].
    inversion Hfin as [|? ? F1 Hfin']; subst.
    rewrite Forall_forall in Hfin'.
    rewrite closestSignificand_stays, fullScanMinimum_stays;
      [reflexivity| |]; intros a Ha;
      apply lt_distance_infinite; auto.
  - destruct (default_set_near t H) as [Ft Hn].
    apply scans_agree_spaced; [exact Ft|exact Hn|exact default_set_spaced].
Qed.

(** [<=] on the computed distances. *)
Lemma le_distance (t a b : float) :
  finite t = true -> near t a -> near t b ->
  (le (Math_abs (sub a t)) (Math_abs (sub b t)) = true <->
   B2R (abs (a - t)) <= B2R (abs (b - t))).
Proof.
  intros Ft Ha Hb.
  destruct (distance_B2R t a Ft Ha) as [Fa _].
  destruct (distance_B2R t b Ft Hb) as [Fb _].
  apply leb_B2R; assumption.
Qed.

(** The full scan returns a member whose measured distance is least. *)
Lemma fullScanMinimum_minimal (t : float) (l : list float) (best : float) :
  finite t = true -> Forall (near t) (best :: l) ->
  In (fullScanMinimum t best l) (best :: l) /\
  forall a, In a (best :: l) ->
    B2R (abs (fullScanMinimum t best l - t)) <= B2R (abs (a - t)).
Proof.
  intros Ft. revert best.
  induction l as [|a rest IH]; intros best Hn.
  - cbn [fullScanMinimum]. split; [left; reflexivity|].
    intros a [<-|[]]. lra.
  - cbn [fullScanMinimum].
    inversion Hn as [|? ? Hb Hn']; subst.
    inversion Hn' as [|? ? Ha Hn'']; subst.
    pose proof (lt_distance t a best Ft Ha Hb) as Hlt.
    destruct (lt (Math_abs (sub a t)) (Math_abs (sub best t))) eqn:E.
    + destruct (IH a ltac:(constructor; assumption)) as [Hin Hmin].
      split; [right; exact Hin|].
      assert (Hab : B2R (abs (a - t)) < B2R (abs (best - t)))
        by (apply Hlt; reflexivity).
      intros x [<-|Hx].
      * pose proof (Hmin a (or_introl eq_refl)). lra.
      * apply Hmin. exact Hx.
    + destruct (IH best ltac:(constructor; assumption)) as [Hin Hmin].
      split; [destruct Hin as [<-|Hin]; [left; reflexivity|right; right; exact Hin]|].
      assert (Hab : ~ B2R (abs (a - t)) < B2R (abs (best - t))).
      { intros H. apply Hlt in H. discriminate. }
      intros x [<-|[<-|Hx]].
      * apply Hmin. left. reflexivity.
      * pose proof (Hmin best (or_introl eq_refl)). lra.
      * apply Hmin. right. exact Hx.
Qed.

(** Numbers of magnitude at most [2^49] are within [2^50] of each
    other. *)
Lemma near_of_bounds (t a : float) :
  (abs t <=? 0x1p49)%float = true -> (abs a <=? 0x1p49)%float = true ->
  near t a.
Proof.
  intros Ht Ha. destruct B2R_2_49 as [Fc Vc].
  destruct (abs_leb_bound t _ Ht Fc) as [Ft Bt].
  destruct (abs_leb_bound a _ Ha Fc) as [Fa Ba].
  split; [exact Fa|].
  rewrite Vc in Bt, Ba.
  apply Rle_trans with (Rabs (B2R a) + Rabs (B2R t)).
  - unfold Rminus. rewrite <- (Rabs_Ropp (B2R t)). apply Rabs_triang.
  - change 50%Z with (49 + 1)%Z. rewrite bpow_succ. lra.
Qed.

(** X8.  In binary64 the early-exit scan is a minimum search for every
    configured set whose members, from the initial best on, are at least
    1/2 apart, when the target and the members have magnitude at most
    [2^49]: it returns what the full scan returns, a member whose computed
    distance from the target is least. *)
Theorem closestSignificand_ascending_set (t best : float) (l : list float) :
  (abs t <=? 0x1p49)%float = true ->
  Forall (fun a => (abs a <=? 0x1p49)%float = true) (best :: l) ->
  spaced (/ 2) best l ->
  closestSignificand t best l = fullScanMinimum t best l /\
  In (closestSignificand t best l) (best :: l) /\
  forall a, In a (best :: l) ->
    le (Math_abs (sub (closestSignificand t best l) t)) (Math_abs (sub a t)) = true.
Proof.
  intros Ht Hl Hs. destruct B2R_2_49 as [Fc Vc].
  destruct (abs_leb_bound t _ Ht Fc) as [Ft _].
  assert (Hn : Forall (near t) (best :: l)).
  { rewrite Forall_forall in *. intros a Ha. apply near_of_bounds; auto. }
  pose proof (scans_agree_spaced t l best Ft Hn Hs) as E.
  destruct (fullScanMinimum_minimal t l best Ft Hn) as [Hin Hmin].
  rewrite E. split; [reflexivity|]. split; [exact Hin|].
  intros a Ha. apply le_distance; try assumption.
  - rewrite Forall_forall in Hn. apply Hn. exact Hin.
  - rewrite Forall_forall in Hn. apply Hn. exact Ha.
  - apply Hmin. exact Ha.
Qed.

End Scans64.

(* ------------------------------------------------------------------ *)
(** * The quantizer in binary64 *)

Section Quantized64.

Import Binary64.
Local Unset Implicit Arguments.
Context {M : MathLib}.
Local Open Scope R_scope.

(** C2 (amended).  With the default set, whenever the target significand
    the code computes is in range, a number of magnitude at most [2^49],
    [physicalNanometers] is [best * tenToThePowerExponent] for a member
    [best] of the set together with 1 whose distance
    [Math.abs(best - targetSignificand)] is least; the power of ten and the
    target significand are the ones of the source,
    [Math.pow(10, Math.floor(Math.log(targetNanometers) / Math.LN10))] and
    [targetNanometers / tenToThePowerExponent]. *)
Theorem update_quantized_binary64 (d : ScaleBarDimensions float) :
  allowedSignificands d = DEFAULT_ALLOWED_SIGNIFICANDS ->
  (abs (targetSignificand d) <=? 0x1p49)%float = true ->
  quantized d /\
  tenToThePowerExponent d =
    pow 10 (floor (log (targetLengthInPixels d * nanometersPerPixel d) / LN10)) /\
  targetSignificand d =
    (targetLengthInPixels d * nanometersPerPixel d / tenToThePowerExponent d)%float.
Proof.
  intros Hset Hts. split; [|split; reflexivity].
  destruct (default_set_near _ Hts) as [Ft Hn].
  destruct (fullScanMinimum_minimal _ _ _ Ft Hn) as [Hin Hmin].
  assert (Hbest : bestSignificand d =
            fullScanMinimum (targetSignificand d) (lit 1)
              DEFAULT_ALLOWED_SIGNIFICANDS).
  { unfold bestSignificand. rewrite Hset.
    apply scans_agree_spaced; [exact Ft|exact Hn|exact default_set_spaced]. }
  exists (bestSignificand d). rewrite Hset, Hbest.
  split; [exact Hin|]. split.
  - intros a Ha. apply le_distance; try assumption.
    + rewrite Forall_forall in Hn. apply Hn. exact Hin.
    + rewrite Forall_forall in Hn. apply Hn. exact Ha.
    + apply Hmin. exact Ha.
  - unfold physicalNanometers. rewrite Hbest. reflexivity.
Qed.

End Quantized64.

(* ------------------------------------------------------------------ *)
(** * The consistency of the outputs in binary64 *)

Section Consistent64.

Import Binary64.
Local Unset Implicit Arguments.
Context {M : MathLib}.
Local Open Scope R_scope.

(** A number between two finite numbers is finite; [in_range] on the
    numbers. *)

Lemma between_finite (c1 x c2 : float) :
  (c1 <=? x)%float = true -> (x <=? c2)%float = true ->
  finite c1 = true -> finite c2 = true -> finite x = true.
Proof.
  rewrite !FloatAxioms.leb_spec. unfold finite.
  destruct (Prim2SF x) as [s|s| |s m e]; try reflexivity; intros H1 H2 F1 F2.
  - destruct s.
    + destruct (Prim2SF c1); discriminate.
    + destruct (Prim2SF c2); discriminate.
  - destruct (Prim2SF c1); discriminate.
Qed.

Lemma in_range_B2R (x : float) :
  in_range x = true ->
  finite x = true /\ bpow (-500) <= B2R x <= bpow 500.
Proof.
  unfold in_range. intros H. apply andb_true_iff in H. destruct H as [H1 H2].
  assert (F1 : finite 0x1p-500%float = true) by reflexivity.
  assert (F2 : finite 0x1p500%float = true) by reflexivity.
  pose proof (between_finite _ _ _ H1 H2 F1 F2) as Fx.
  split; [exact Fx|].
  apply leb_B2R in H1; [|assumption|assumption].
  apply leb_B2R in H2; [|assumption|assumption].
  assert (V1 : B2R 0x1p-500%float = bpow (-500)).
  { unfold B2R.
    replace (Prim2SF 0x1p-500%float) with (S754_finite false 4503599627370496 (-552))
      by (vm_compute; reflexivity).
    cbn [SF2R]. change (IZR 4503599627370496) with (IZR (2 ^ 52)).
    rewrite <- (bpow_IZR 52) by lia. rewrite <- bpow_plus. reflexivity. }
  assert (V2 : B2R 0x1p500%float = bpow 500).
  { unfold B2R.
    replace (Prim2SF 0x1p500%float) with (S754_finite false 4503599627370496 448)
      by (vm_compute; reflexivity).
    cbn [SF2R]. change (IZR 4503599627370496) with (IZR (2 ^ 52)).
    rewrite <- (bpow_IZR 52) by lia. rewrite <- bpow_plus. reflexivity. }
  lra.
Qed.

(** Every positive number lies in a binade. *)
Lemma bpow_bracket (x : R) (a : Z) (n : nat) :
  bpow a <= x <= bpow (a + Z.of_nat n) ->
  exists k, (a <= k <= a + Z.of_nat n)%Z /\ bpow (k - 1) <= x <= bpow k.
Proof.
  induction n as [|n IH]; intros [Hlo Hhi].
  - exists a. rewrite Z.add_0_r in Hhi. split; [lia|].
    pose proof (bpow_le (a - 1) a ltac:(lia)). lra.
  - destruct (Rle_lt_dec x (bpow (a + Z.of_nat n))) as [Hle|Hgt].
    + destruct (IH (conj Hlo Hle)) as (k & Hk & Hx). exists k. split; [lia|exact Hx].
    + exists (a + Z.of_nat (S n))%Z. split; [lia|].
      replace (a + Z.of_nat (S n) - 1)%Z with (a + Z.of_nat n)%Z by lia. lra.
Qed.

(** The correctly rounded quotient of two positive numbers in range is
    finite and within a relative [2^-52] of the quotient. *)
Lemma div_relative (a b : float) (lo hi : Z) :
  finite a = true -> finite b = true -> 0 < B2R a -> 0 < B2R b ->
  bpow lo <= B2R a / B2R b <= bpow hi -> (-1021 <= lo <= hi)%Z -> (hi <= 1022)%Z ->
  finite (a / b)%float = true /\ 0 <= B2R (a / b)%float /\
  Rabs (B2R (a / b)%float - B2R a / B2R b) <= bpow (-52) * (B2R a / B2R b).
Proof.
  intros Fa Fb Pa Pb Hx Hlo Hhi.
  destruct (bpow_bracket (B2R a / B2R b) lo (Z.to_nat (hi - lo))
              ltac:(rewrite Z2Nat.id by lia;
                    replace (lo + (hi - lo))%Z with hi by lia; exact Hx))
    as (k & Hk & Hxk).
  rewrite Z2Nat.id in Hk by lia.
  destruct (div_B2R a b k Fa Fb Pa Pb (proj2 Hxk) ltac:(lia)) as (Fq & Pq & Eq).
  split; [exact Fq|]. split; [exact Pq|].
  apply Rle_trans with (1 := Eq).
  replace (k - 53)%Z with (-52 + (k - 1))%Z by lia. rewrite bpow_plus.
  apply Rmult_le_compat_l; [apply Rlt_le, bpow_pos|exact (proj1 Hxk)].
Qed.

(** The units of the table: each is found under its name, and its length is
    between [2^-10] and [2^40] nanometers. *)
Lemma unit_table :
  Forall (fun u : LengthUnit float =>
            unitLength (unit u) = Some (lengthInNanometers u) /\
            finite (lengthInNanometers u) = true /\
            bpow (-10) <= B2R (lengthInNanometers u) <= bpow 40)
         ALLOWED_UNITS.
Proof.
  unfold ALLOWED_UNITS. change (@lit float binary64) with literal.
  float_value (literal 1000000000000). float_value (literal 1000000000).
  float_value (literal 1000000). float_value (literal 1000).
  float_value (literal 1). float_value (literal (1 # 1000)).
  rewrite bpow_Zneg, (bpow_IZR 40) by lia.
  change (2 ^ 10)%Z with 1024%Z. change (2 ^ 40)%Z with 1099511627776%Z.
  repeat (apply Forall_cons;
          [cbn [unit lengthInNanometers];
           split; [vm_compute; reflexivity|split; [assumption|lra]]|]).
  apply Forall_nil.
Qed.

(** [pickLengthUnit] returns a unit of the table. *)
Lemma pickLengthUnit_in_table (x : float) : In (pickLengthUnit x) ALLOWED_UNITS.
Proof.
  unfold pickLengthUnit.
  destruct (loop_result x ALLOWED_UNITS
              (nth (List.length (ALLOWED_UNITS (number := float)) - 1)
                   ALLOWED_UNITS no_unit)) as [H|H]; [exact H|].
  rewrite H. cbn. auto 10.
Qed.

(** C1 (amended).  When [nanometersPerPixel] and the [physicalNanometers]
    that [update] computes lie between [2^-500] and [2^500], a call that
    returns true leaves finite outputs that agree with each other within
    the rounding of [lengthInPixels] to an integer and a tolerance for the
    rounding of the two divisions:
    [|lengthInPixels * nanometersPerPixel - physicalLength * unit length|
     <= nanometersPerPixel / 2 + physicalNanometers * 2^-51],
    the products and the difference taken exactly. *)
Theorem update_consistent_binary64 (d : ScaleBarDimensions float) :
  fst (update d) = true ->
  in_range (nanometersPerPixel d) = true ->
  in_range (physicalNanometers d) = true ->
  consistent_within (B2R (physicalNanometers d) * bpow (-51)) (snd (update d)).
Proof.
  intros Hchanged Hn HP.
  destruct (update_changed d Hchanged) as (HL & Hphys & Hunit & _).
  destruct (update_keeps_inputs d) as (Hkeep & _).
  unfold consistent_within. rewrite HL, Hphys, Hunit, Hkeep.
  set (P := physicalNanometers d) in *. set (n := nanometersPerPixel d) in *.
  pose proof (pickLengthUnit_in_table P) as Hin.
  pose proof unit_table as Htab. rewrite Forall_forall in Htab.
  destruct (Htab _ Hin) as (Hname & Fu & Hu).
  set (u := lengthInNanometers (pickLengthUnit P)) in *.
  rewrite Hname.
  destruct (in_range_B2R _ Hn) as (Fn & Hnr).
  destruct (in_range_B2R _ HP) as (FP & HPr).
  change (@div float binary64) with PrimFloat.div.
  change (@Math_round float binary64) with round.
  pose proof (bpow_pos (-500)) as P500. pose proof (bpow_pos (-10)) as P10.
  assert (Pn : 0 < B2R n) by lra. assert (PP : 0 < B2R P) by lra.
  assert (Pu : 0 < B2R u) by lra.
  (* the two quotients *)
  assert (Hq : bpow (-1000) <= B2R P / B2R n <= bpow 1000).
  { replace (-1000)%Z with (-500 + - (500))%Z by lia.
    replace 1000%Z with (500 + - (-500))%Z by lia.
    rewrite !bpow_plus, !bpow_opp. unfold Rdiv.
    pose proof (bpow_pos 500) as Q500.
    split.
    - apply Rmult_le_compat; try lra.
      + apply Rlt_le, Rinv_0_lt_compat; lra.
      + apply Rinv_le_contravar; lra.
    - apply Rmult_le_compat; try lra.
      + apply Rlt_le, Rinv_0_lt_compat; lra.
      + apply Rinv_le_contravar; lra. }
  assert (Hy : bpow (-540) <= B2R P / B2R u <= bpow 510).
  { replace (-540)%Z with (-500 + - (40))%Z by lia.
    replace 510%Z with (500 + - (-10))%Z by lia.
    rewrite !bpow_plus, !bpow_opp. unfold Rdiv.
    pose proof (bpow_pos 40) as Q40.
    split.
    - apply Rmult_le_compat; try lra.
      + apply Rlt_le, Rinv_0_lt_compat; lra.
      + apply Rinv_le_contravar; lra.
    - apply Rmult_le_compat; try lra.
      + apply Rlt_le, Rinv_0_lt_compat; lra.
      + apply Rinv_le_contravar; lra. }
  destruct (div_relative P n (-1000) 1000 FP Fn PP Pn Hq ltac:(lia) ltac:(lia))
    as (Fq & Pq & Eq).
  destruct (div_relative P u (-540) 510 FP Fu PP Pu Hy ltac:(lia) ltac:(lia))
    as (Fy & _ & Ey).
  destruct (round_B2R (P / n)%float Fq Pq) as (FL & EL).
  split; [rewrite is_finite_finite; exact FL|].
  split; [rewrite is_finite_finite; exact Fy|].
  set (L := B2R (round (P / n)%float)) in *.
  set (q := B2R (P / n)%float) in *.
  set (y := B2R (P / u)%float) in *.
  set (X := B2R P / B2R n) in *. set (Y := B2R P / B2R u) in *.
  assert (HX : X * B2R n = B2R P) by (unfold X; field; lra).
  assert (HY : Y * B2R u = B2R P) by (unfold Y; field; lra).
  pose proof (bpow_pos (-52)) as Peps.
  assert (E51 : bpow (-51) = 2 * bpow (-52)).
  { change (-51)%Z with (-52 + 1)%Z. apply bpow_succ. }
  rewrite E51.
  assert (B1 : Rabs ((L - q) * B2R n) <= B2R n / 2).
  { rewrite Rabs_mult, (Rabs_pos_eq (B2R n)) by lra.
    apply Rle_trans with (/ 2 * B2R n); [|lra].
    apply Rmult_le_compat_r; lra. }
  assert (B2 : Rabs ((q - X) * B2R n) <= bpow (-52) * B2R P).
  { rewrite Rabs_mult, (Rabs_pos_eq (B2R n)) by lra.
    apply Rle_trans with (bpow (-52) * X * B2R n); [|rewrite Rmult_assoc, HX; lra].
    apply Rmult_le_compat_r; lra. }
  assert (B3 : Rabs ((y - Y) * B2R u) <= bpow (-52) * B2R P).
  { rewrite Rabs_mult, (Rabs_pos_eq (B2R u)) by lra.
    apply Rle_trans with (bpow (-52) * Y * B2R u); [|rewrite Rmult_assoc, HY; lra].
    apply Rmult_le_compat_r; lra. }
  replace (L * B2R n - y * B2R u)
    with ((L - q) * B2R n + (q - X) * B2R n - (y - Y) * B2R u)
    by (assert (HXY : X * B2R n = Y * B2R u) by lra; nra).
  revert B1 B2 B3. unfold Rabs.
  repeat match goal with
         | |- context [Rcase_abs ?x] => destruct (Rcase_abs x)
         end; intros; lra.
Qed.

(** 2.5 pixels of 0.4 nm: without a tolerance the bound fails, also with
    the products taken exactly: [3 * 0.4 - 1] is above [0.4 / 2] for the
    float nearest to 0.4. *)
Lemma scenario_rounding_inexact :
  ecma_special_values M ->
  ~ consistent_within 0
      (snd (update (set_inputs new_ScaleBarDimensions (lit (5 # 2)) (lit (2 # 5))))).
Proof.
  intros HM. rewrite (@update_scenario_rounding M HM). cbn [snd].
  unfold consistent_within.
  cbn [lengthInPixels physicalLength physicalUnit nanometersPerPixel].
  replace (unitLength "nm") with (Some (literal 1)) by (vm_compute; reflexivity).
  change (@lit float binary64) with literal.
  intros (_ & _ & H).
  float_value 3%float. float_value (literal (2 # 5)). float_value 1%float.
  float_value (literal 1).
  rewrite Hv, Hv0, Hv1, Hv2 in H.
  revert H. unfold Rabs. destruct (Rcase_abs _); lra.
Qed.

End Consistent64.

(* ------------------------------------------------------------------ *)
(** * The number shown with the unit *)

Section LabelRange.

Import Binary64.
Local Unset Implicit Arguments.
Context {M : MathLib}.
Local Open Scope R_scope.

(** [<=] that fails, on finite numbers. *)
Lemma leb_false_B2R (x y : float) :
  finite x = true -> finite y = true ->
  (x <=? y)%float = false -> B2R y < B2R x.
Proof.
  intros Fx Fy H. destruct (Rlt_le_dec (B2R y) (B2R x)) as [|Hle]; [assumption|].
  apply (leb_B2R x y Fx Fy) in Hle. congruence.
Qed.

(** A finite float is below [2^1024]. *)
Lemma B2R_lt_max (x : float) : finite x = true -> B2R x < bpow 1024.
Proof.
  intros Fx. pose proof (Prim2SF_valid x) as V. unfold finite, B2R in *.
  pose proof (bpow_pos 1024) as P.
  destruct (Prim2SF x) as [s|s| |s m e]; try discriminate; cbn [SF2R]; try lra.
  cbn [valid_binary] in V. destruct (bounded_inv _ _ V) as (He & Hd & _).
  pose proof (finite_value_pos m e) as Pm.
  destruct s; [lra|].
  destruct (IZR_pos_bounds m) as [_ Hhi]. pose proof (bpow_pos e) as Pe.
  apply Rlt_le_trans with (bpow (Zpos (digits2_pos m)) * bpow e).
  - apply Rmult_lt_compat_r; assumption.
  - rewrite <- bpow_plus. apply bpow_le. lia.
Qed.

(** The correctly rounded quotient of a number by a smaller positive one is
    at least 1. *)
Lemma div_ge_one (a b : float) :
  finite a = true -> finite b = true -> 0 < B2R b -> B2R b <= B2R a ->
  B2R a / B2R b <= bpow 1022 ->
  finite (a / b)%float = true /\ 1 <= B2R (a / b)%float.
Proof.
  intros Fa Fb Pb Hab Hmax.
  assert (Pa : 0 < B2R a) by lra.
  assert (H1 : 1 <= B2R a / B2R b).
  { apply Rmult_le_reg_r with (B2R b); [exact Pb|].
    replace (B2R a / B2R b * B2R b) with (B2R a) by (field; lra). lra. }
  destruct (Rle_lt_dec (B2R a / B2R b) (bpow 52)) as [Hle|Hgt].
  - destruct (div_monotone a b Fa Fb Pa Pb Hle) as [Fq Hm].
    split; [exact Fq|]. apply (Hm 1%Z). exact H1.
  - destruct (div_relative a b 52 1022 Fa Fb Pa Pb ltac:(lra) ltac:(lia) ltac:(lia))
      as (Fq & _ & Eq).
    split; [exact Fq|].
    assert (E52 : bpow 52 * bpow (-52) = 1).
    { rewrite <- bpow_plus. reflexivity. }
    pose proof (bpow_pos (-52)) as P52.
    assert (B52 : 2 <= bpow 52).
    { rewrite (bpow_IZR 52) by lia. apply IZR_le. vm_compute. discriminate. }
    revert Eq. unfold Rabs. destruct (Rcase_abs _); intros Eq; nra.
Qed.

(** The unit chosen for a length of at least 0.001 nm is at most the
    length, and at least a thousandth of a length below 1e15 nm. *)
Lemma pickLengthUnit_bracket (x : float) :
  finite x = true -> (lit (1 # 1000) <=? x)%float = true ->
  finite (lengthInNanometers (pickLengthUnit x)) = true /\
  bpow (-10) <= B2R (lengthInNanometers (pickLengthUnit x)) <= B2R x /\
  B2R x / B2R (lengthInNanometers (pickLengthUnit x)) <= bpow 1022 /\
  ((x <? lit 1000000000000000)%float = true ->
   B2R x <= 1000 * B2R (lengthInNanometers (pickLengthUnit x))).
Proof.
  intros Fx Hpm.
  change (@lit float binary64) with literal in *.
  float_value (literal 1000000000000). float_value (literal 1000000000).
  float_value (literal 1000000). float_value (literal 1000).
  float_value (literal 1). float_value (literal (1 # 1000)).
  float_value (literal 1000000000000000).
  pose proof (B2R_lt_max x Fx) as Hmax.
  assert (E10 : bpow (-10) = / 1024).
  { rewrite bpow_Zneg. reflexivity. }
  assert (B1022 : bpow 1024 = bpow 1022 * 4).
  { change 1024%Z with (1022 + 2)%Z. rewrite bpow_plus.
    rewrite (bpow_IZR 2) by lia. reflexivity. }
  pose proof (bpow_pos 1022) as P1022.
  assert (Hq : forall u : float,
            finite u = true -> / 1024 <= B2R u -> B2R u <= B2R x ->
            (4 <= B2R u \/ B2R x <= bpow 1022 * / 1024) ->
            B2R x / B2R u <= bpow 1022).
  { intros u Fu Hu1 Hu2 Hbig.
    apply Rmult_le_reg_r with (B2R u); [lra|].
    replace (B2R x / B2R u * B2R u) with (B2R x) by (field; lra).
    destruct Hbig as [H4|Hsmall]; nra. }
  assert (Hlt15 : (x <? literal 1000000000000000)%float = true ->
                  B2R x < 1000000000000000).
  { intros H. apply (ltb_B2R x _ Fx Hf5) in H. lra. }
  unfold pickLengthUnit, ALLOWED_UNITS.
  cbn [List.length Nat.sub nth pickLengthUnit_loop lengthInNanometers].
  change (@lit float binary64) with literal.
  change (@ge float binary64 ?p ?q) with (q <=? p)%float.
  destruct (literal 1000000000000 <=? x)%float eqn:E1.
  { apply (leb_B2R _ x Hf Fx) in E1. cbn [lengthInNanometers].
    split; [exact Hf|]. split; [lra|]. split; [apply Hq; try assumption; lra|].
    intros H. specialize (Hlt15 H). lra. }
  apply (leb_false_B2R _ x Hf Fx) in E1.
  destruct (literal 1000000000 <=? x)%float eqn:E2.
  { apply (leb_B2R _ x Hf0 Fx) in E2. cbn [lengthInNanometers].
    split; [exact Hf0|]. split; [lra|]. split; [apply Hq; try assumption; lra|].
    intros _. lra. }
  apply (leb_false_B2R _ x Hf0 Fx) in E2.
  destruct (literal 1000000 <=? x)%float eqn:E3.
  { apply (leb_B2R _ x Hf1 Fx) in E3. cbn [lengthInNanometers].
    split; [exact Hf1|]. split; [lra|]. split; [apply Hq; try assumption; lra|].
    intros _. lra. }
  apply (leb_false_B2R _ x Hf1 Fx) in E3.
  destruct (literal 1000 <=? x)%float eqn:E4.
  { apply (leb_B2R _ x Hf2 Fx) in E4. cbn [lengthInNanometers].
    split; [exact Hf2|]. split; [lra|]. split; [apply Hq; try assumption; lra|].
    intros _. lra. }
  apply (leb_false_B2R _ x Hf2 Fx) in E4.
  assert (Hsmall : B2R x <= bpow 1022 * / 1024).
  { assert (2 ^ 20 <= bpow 1022).
    { change 1022%Z with (20 + 1002)%Z. rewrite bpow_plus, (bpow_IZR 20) by lia.
      pose proof (bpow_le 0 1002 ltac:(lia)) as H. change (bpow 0) with 1 in H.
      change (2 ^ 20)%Z with 1048576%Z.
      assert (0 < IZR 1048576) by lra. nra. }
    lra. }
  destruct (literal 1 <=? x)%float eqn:E5.
  { apply (leb_B2R _ x Hf3 Fx) in E5. cbn [lengthInNanometers].
    split; [exact Hf3|]. split; [lra|].
    split; [apply Hq; try assumption; try lra; right; exact Hsmall|].
    intros _. lra. }
  apply (leb_false_B2R _ x Hf3 Fx) in E5.
  rewrite Hpm. apply (leb_B2R _ x Hf4 Fx) in Hpm. cbn [lengthInNanometers].
  split; [exact Hf4|]. split; [lra|].
  split; [apply Hq; try assumption; try lra; right; exact Hsmall|].
  intros _. lra.
Qed.

(** X10.  The number shown with the unit.  For every finite length
    [x >= 0.001] nm, the quotient [x / unit length] that labels it, rounded
    as the program rounds it, is at least 1; for [x < 1e15] nm it is at
    most 1000. *)
Theorem pickLengthUnit_label_range (x : float) :
  is_finite x = true -> (lit (1 # 1000) <=? x)%float = true ->
  (1 <=? x / lengthInNanometers (pickLengthUnit x))%float = true /\
  ((x <? lit 1000000000000000)%float = true ->
   (x / lengthInNanometers (pickLengthUnit x) <=? 1000)%float = true).
Proof.
  intros Fx Hpm. rewrite is_finite_finite in Fx.
  destruct (pickLengthUnit_bracket x Fx Hpm) as (Fu & [Hu1 Hu2] & Hmax & Hup).
  set (u := lengthInNanometers (pickLengthUnit x)) in *.
  pose proof (bpow_pos (-10)) as P10.
  assert (Pu : 0 < B2R u) by lra. assert (Px : 0 < B2R x) by lra.
  destruct (div_ge_one x u Fx Fu Pu Hu2 Hmax) as [Fq H1].
  float_value 1%float. float_value 1000%float.
  split.
  - apply leb_B2R; [exact Hf|exact Fq|]. lra.
  - intros H. specialize (Hup H).
    assert (Hx1000 : B2R x / B2R u <= 1000).
    { apply Rmult_le_reg_r with (B2R u); [exact Pu|].
      replace (B2R x / B2R u * B2R u) with (B2R x) by (field; lra). lra. }
    assert (H52 : B2R x / B2R u <= bpow 52).
    { rewrite (bpow_IZR 52) by lia. change (2 ^ 52)%Z with 4503599627370496%Z. lra. }
    destruct (div_monotone x u Fx Fu Px Pu H52) as [_ Hm].
    apply leb_B2R; [exact Fq|exact Hf0|].
    apply Rle_trans with 1000; [apply (Hm 1000%Z); exact Hx1000|lra].
Qed.

End LabelRange.

(* ------------------------------------------------------------------ *)
(** * How far the quantized length is from the target *)

Section Quarter.

Import Binary64.
Local Unset Implicit Arguments.
Context {M : MathLib}.
Local Open Scope R_scope.

(** The correctly rounded product of two positive numbers in range, the
    first one normal, is finite and within a relative [2^-52] of the
    product. *)
Lemma mul_relative (a b : float) (lo hi : Z) :
  finite a = true -> finite b = true -> bpow (-1022) <= B2R a -> 0 < B2R b ->
  bpow lo <= B2R a * B2R b <= bpow hi -> (-1021 <= lo <= hi)%Z -> (hi <= 1022)%Z ->
  finite (a * b)%float = true /\ 0 <= B2R (a * b)%float /\
  Rabs (B2R (a * b)%float - B2R a * B2R b) <= bpow (-52) * (B2R a * B2R b).
Proof.
  intros Fa Fb Pa Pb Hx Hlo Hhi.
  destruct (bpow_bracket (B2R a * B2R b) lo (Z.to_nat (hi - lo))
              ltac:(rewrite Z2Nat.id by lia;
                    replace (lo + (hi - lo))%Z with hi by lia; exact Hx))
    as (k & Hk & Hxk).
  rewrite Z2Nat.id in Hk by lia.
  destruct (mul_B2R a b k Fa Fb Pa Pb Hxk ltac:(lia)) as (Fq & Pq & Eq).
  split; [exact Fq|]. split; [exact Pq|].
  apply Rle_trans with (1 := Eq).
  replace (k - 53)%Z with (-52 + (k - 1))%Z by lia. rewrite bpow_plus.
  apply Rmult_le_compat_l; [apply Rlt_le, bpow_pos|exact (proj1 Hxk)].
Qed.

(** Between 1 and 10 some member of the default set, or 1, is within a
    quarter of the target. *)
Lemma default_set_quarter (T : R) :
  1 <= T <= 10 ->
  exists A, In A [1; 3 / 2; 2; 3; 5; 15 / 2; 10] /\ Rabs (A - T) <= T / 4.
Proof.
  intros [H1 H10].
  destruct (Rle_lt_dec T (5 / 4)); [exists 1|
  destruct (Rle_lt_dec T (7 / 4)); [exists (3 / 2)|
  destruct (Rle_lt_dec T (5 / 2)); [exists 2|
  destruct (Rle_lt_dec T 4); [exists 3|
  destruct (Rle_lt_dec T (25 / 4)); [exists 5|
  destruct (Rle_lt_dec T (35 / 4)); [exists (15 / 2)|exists 10]]]]]];
    (split; [cbn [In]; auto 10|unfold Rabs; destruct (Rcase_abs _); lra]).
Qed.

(** For a target between 1 and 10 the computed distance to a member of the
    default set is within [2^-49] of the distance. *)
Lemma distance_B2R_tight (t a : float) :
  finite t = true -> finite a = true ->
  1 <= B2R t <= 10 -> 1 <= B2R a <= 10 ->
  Rabs (B2R (abs (a - t)) - Rabs (B2R a - B2R t)) <= bpow (-49).
Proof.
  intros Ft Fa Ht Ha.
  assert (Hd : Rabs (B2R a - B2R t) <= bpow 4).
  { rewrite (bpow_IZR 4) by lia. change (2 ^ 4)%Z with 16%Z.
    unfold Rabs. destruct (Rcase_abs _); lra. }
  destruct (sub_B2R a t 4 Fa Ft Hd ltac:(lia)) as [Fs Es].
  destruct (abs_B2R (a - t)) as [_ Vabs]. rewrite Vabs.
  apply Rle_trans with (1 := Rabs_triang_inv2 _ _). exact Es.
Qed.

(** The significand chosen for a target between 1 and 10 is within a
    quarter of it, up to the rounding of the distances. *)
Lemma bestSignificand_quarter (d : ScaleBarDimensions float) :
  allowedSignificands d = DEFAULT_ALLOWED_SIGNIFICANDS ->
  finite (targetSignificand d) = true ->
  1 <= B2R (targetSignificand d) <= 10 ->
  finite (bestSignificand d) = true /\
  1 <= B2R (bestSignificand d) <= 10 /\
  Rabs (B2R (bestSignificand d) - B2R (targetSignificand d))
    <= B2R (targetSignificand d) / 4 + 2 * bpow (-49).
Proof.
  intros Hset Ft HT.
  set (t := targetSignificand d) in *.
  destruct default_set_values as [Hfin Hval].
  assert (Hmem : forall a, In a (lit 1 :: DEFAULT_ALLOWED_SIGNIFICANDS) ->
            finite a = true /\ 1 <= B2R a <= 10 /\
            In (B2R a) [1; 3 / 2; 2; 3; 5; 15 / 2; 10]).
  { intros a Ha. rewrite Forall_forall in Hfin. split; [apply Hfin; exact Ha|].
    assert (Hin : In (B2R a) [1; 3 / 2; 2; 3; 5; 15 / 2; 10]).
    { rewrite <- Hval. apply in_map. exact Ha. }
    split; [|exact Hin].
    cbn [In] in Hin.
    repeat (destruct Hin as [<-|Hin]; [lra|]). destruct Hin. }
  assert (Hnear : Forall (near t) (lit 1 :: DEFAULT_ALLOWED_SIGNIFICANDS)).
  { rewrite Forall_forall. intros a Ha. destruct (Hmem a Ha) as (Fa & Hr & _).
    split; [exact Fa|].
    rewrite (bpow_IZR 50) by lia. change (2 ^ 50)%Z with 1125899906842624%Z.
    unfold Rabs. destruct (Rcase_abs _); lra. }
  destruct (fullScanMinimum_minimal t _ _ Ft Hnear) as [Hin Hmin].
  assert (Hbest : bestSignificand d =
            fullScanMinimum t (lit 1) DEFAULT_ALLOWED_SIGNIFICANDS).
  { unfold bestSignificand. rewrite Hset.
    apply scans_agree_spaced; [exact Ft|exact Hnear|exact default_set_spaced]. }
  rewrite Hbest.
  set (b := fullScanMinimum t (lit 1) DEFAULT_ALLOWED_SIGNIFICANDS) in *.
  destruct (Hmem b Hin) as (Fb & Hb & _).
  split; [exact Fb|]. split; [exact Hb|].
  destruct (default_set_quarter (B2R t) HT) as (A & HA & HAq).
  rewrite <- Hval in HA. apply in_map_iff in HA. destruct HA as (a & <- & Ha).
  destruct (Hmem a Ha) as (Fa & Hra & _).
  pose proof (Hmin a Ha) as Hle.
  pose proof (distance_B2R_tight t b Ft Fb HT Hb) as Eb.
  pose proof (distance_B2R_tight t a Ft Fa HT Hra) as Ea.
  revert Eb Ea HAq Hle. generalize (B2R (abs (b - t))) (B2R (abs (a - t))).
  intros Db Da. unfold Rabs.
  repeat match goal with
         | |- context [Rcase_abs ?x] => destruct (Rcase_abs x)
         end; intros; lra.
Qed.

(** [1 <= x && x <= 10], on the numbers. *)
Lemma between_B2R (x : float) :
  (1 <=? x)%float && (x <=? 10)%float = true ->
  finite x = true /\ 1 <= B2R x <= 10.
Proof.
  intros H. apply andb_true_iff in H. destruct H as [H1 H2].
  float_value 1%float. float_value 10%float.
  pose proof (between_finite _ _ _ H1 H2 Hf Hf0) as Fx.
  split; [exact Fx|].
  apply leb_B2R in H1; [|assumption|assumption].
  apply leb_B2R in H2; [|assumption|assumption].
  lra.
Qed.

(** The quantized length is within a quarter of the target length, up to
    rounding. *)
Lemma physicalNanometers_quarter (d : ScaleBarDimensions float) :
  allowedSignificands d = DEFAULT_ALLOWED_SIGNIFICANDS ->
  in_range (targetNanometers d) = true ->
  in_range (tenToThePowerExponent d) = true ->
  (1 <=? targetSignificand d)%float && (targetSignificand d <=? 10)%float = true ->
  finite (physicalNanometers d) = true /\
  (3 / 4 - bpow (-40)) * B2R (targetNanometers d) <= B2R (physicalNanometers d) /\
  B2R (physicalNanometers d) <= (5 / 4 + bpow (-40)) * B2R (targetNanometers d).
Proof.
  intros Hset Htn Hten Hts.
  destruct (between_B2R _ Hts) as [Ft HT].
  destruct (bestSignificand_quarter d Hset Ft HT) as (Fb & HB & Hq).
  destruct (in_range_B2R _ Htn) as (Fn & Hn).
  destruct (in_range_B2R _ Hten) as (Fe & He).
  pose proof (bpow_pos (-500)) as P500.
  set (Tn := B2R (targetNanometers d)) in *.
  set (Ten := B2R (tenToThePowerExponent d)) in *.
  set (B := B2R (bestSignificand d)) in *.
  assert (PTn : 0 < Tn) by lra. assert (PTen : 0 < Ten) by lra.
  (* the target significand *)
  assert (HQ : bpow (-1000) <= Tn / Ten <= bpow 1000).
  { replace (-1000)%Z with (-500 + - (500))%Z by lia.
    replace 1000%Z with (500 + - (-500))%Z by lia.
    rewrite !bpow_plus, !bpow_opp. unfold Rdiv.
    pose proof (bpow_pos 500) as Q500.
    split.
    - apply Rmult_le_compat; try lra.
      + apply Rlt_le, Rinv_0_lt_compat; lra.
      + apply Rinv_le_contravar; lra.
    - apply Rmult_le_compat; try lra.
      + apply Rlt_le, Rinv_0_lt_compat; lra.
      + apply Rinv_le_contravar; lra. }
  destruct (div_relative _ _ (-1000) 1000 Fn Fe PTn PTen HQ ltac:(lia) ltac:(lia))
    as (_ & _ & ET).
  change (targetNanometers d / tenToThePowerExponent d)%float
    with (targetSignificand d) in ET.
  fold Tn Ten in ET.
  set (T := B2R (targetSignificand d)) in *.
  (* the product *)
  assert (H1022 : bpow (-1022) <= B).
  { pose proof (bpow_le (-1022) 0 ltac:(lia)) as H. change (bpow 0) with 1 in H. lra. }
  assert (HP : bpow (-500) <= B * Ten <= bpow 504).
  { change 504%Z with (4 + 500)%Z. rewrite bpow_plus, (bpow_IZR 4) by lia.
    change (2 ^ 4)%Z with 16%Z. split; nra. }
  destruct (mul_relative (bestSignificand d) (tenToThePowerExponent d) (-500) 504
              Fb Fe H1022 PTen HP ltac:(lia) ltac:(lia)) as (FP & _ & EP).
  change (bestSignificand d * tenToThePowerExponent d)%float
    with (physicalNanometers d) in FP, EP.
  fold B Ten in EP.
  split; [exact FP|].
  set (P := B2R (physicalNanometers d)) in *.
  (* in numbers *)
  rewrite !bpow_Zneg in *.
  change (2 ^ 52)%Z with 4503599627370496%Z in *.
  change (2 ^ 49)%Z with 562949953421312%Z in *.
  change (2 ^ 40)%Z with 1099511627776%Z in *.
  set (W := T * Ten). set (BT := B * Ten) in *.
  assert (HX : Tn / Ten * Ten = Tn) by (field; lra).
  assert (W1 : Ten <= W) by (unfold W; nra).
  assert (W2 : Rabs (W - Tn) <= / 4503599627370496 * Tn).
  { unfold W. replace (T * Ten - Tn) with ((T - Tn / Ten) * Ten)
      by (rewrite Rmult_minus_distr_r, HX; ring).
    rewrite Rabs_mult, (Rabs_pos_eq Ten) by lra.
    apply Rle_trans with (/ 4503599627370496 * (Tn / Ten) * Ten).
    - apply Rmult_le_compat_r; lra.
    - rewrite Rmult_assoc, HX. lra. }
  assert (B1 : Rabs (BT - W) <= W / 4 + 2 * / 562949953421312 * Ten).
  { unfold BT, W. replace (B * Ten - T * Ten) with ((B - T) * Ten) by ring.
    rewrite Rabs_mult, (Rabs_pos_eq Ten) by lra.
    apply Rle_trans with ((T / 4 + 2 * / 562949953421312) * Ten); [|lra].
    apply Rmult_le_compat_r; lra. }
  revert W2 B1 EP. unfold Rabs.
  repeat match goal with
         | |- context [Rcase_abs ?x] => destruct (Rcase_abs x)
         end; intros; split; lra.
Qed.

(** The drawn length is within a quarter of the target length, plus half a
    pixel, up to rounding. *)
Lemma lengthInPixels_quarter (d : ScaleBarDimensions float) :
  allowedSignificands d = DEFAULT_ALLOWED_SIGNIFICANDS ->
  in_range (targetNanometers d) = true ->
  in_range (tenToThePowerExponent d) = true ->
  (1 <=? targetSignificand d)%float && (targetSignificand d <=? 10)%float = true ->
  in_range (targetLengthInPixels d) = true ->
  in_range (nanometersPerPixel d) = true ->
  finite (round (physicalNanometers d / nanometersPerPixel d)) = true /\
  (3 / 4 - bpow (-39)) * B2R (targetLengthInPixels d) - / 2
    <= B2R (round (physicalNanometers d / nanometersPerPixel d)) /\
  B2R (round (physicalNanometers d / nanometersPerPixel d))
    <= (5 / 4 + bpow (-39)) * B2R (targetLengthInPixels d) + / 2.
Proof.
  intros Hset Htn Hten Hts Htl Hnpp.
  destruct (physicalNanometers_quarter d Hset Htn Hten Hts) as (FP & HP1 & HP2).
  destruct (in_range_B2R _ Htn) as (Fn & Hn).
  destruct (in_range_B2R _ Htl) as (Fl & Hl).
  destruct (in_range_B2R _ Hnpp) as (Fp & Hp).
  pose proof (bpow_pos (-500)) as P500. pose proof (bpow_pos 500) as Q500.
  set (Tn := B2R (targetNanometers d)) in *.
  set (Tl := B2R (targetLengthInPixels d)) in *.
  set (N := B2R (nanometersPerPixel d)) in *.
  set (P := B2R (physicalNanometers d)) in *.
  assert (PTn : 0 < Tn) by lra. assert (PTl : 0 < Tl) by lra.
  assert (PN : 0 < N) by lra.
  assert (E40 : bpow (-40) = / 1099511627776) by (rewrite bpow_Zneg; reflexivity).
  assert (E39 : bpow (-39) = / 549755813888) by (rewrite bpow_Zneg; reflexivity).
  assert (E52 : bpow (-52) = / 4503599627370496) by (rewrite bpow_Zneg; reflexivity).
  rewrite E40 in HP1, HP2. rewrite E39.
  assert (PP : 0 < P) by nra.
  (* the product of the inputs *)
  assert (H1022 : bpow (-1022) <= Tl).
  { pose proof (bpow_le (-1022) (-500) ltac:(lia)). lra. }
  assert (HM : bpow (-1000) <= Tl * N <= bpow 1000).
  { replace (-1000)%Z with (-500 + -500)%Z by lia.
    replace 1000%Z with (500 + 500)%Z by lia.
    rewrite !bpow_plus. split; apply Rmult_le_compat; lra. }
  destruct (mul_relative (targetLengthInPixels d) (nanometersPerPixel d) (-1000) 1000
              Fl Fp H1022 PN HM ltac:(lia) ltac:(lia)) as (_ & _ & EM).
  change (targetLengthInPixels d * nanometersPerPixel d)%float
    with (targetNanometers d) in EM.
  fold Tn Tl N in EM. rewrite E52 in EM.
  (* the quotient *)
  assert (HQ : bpow (-1001) <= P / N <= bpow 1001).
  { replace (-1001)%Z with (-501 + - (500))%Z by lia.
    replace 1001%Z with (501 + - (-500))%Z by lia.
    rewrite !bpow_plus, !bpow_opp. unfold Rdiv.
    assert (B501 : bpow 501 = 2 * bpow 500).
    { change 501%Z with (500 + 1)%Z. apply bpow_succ. }
    assert (B500 : bpow (-500) = 2 * bpow (-501)).
    { change (-500)%Z with (-501 + 1)%Z. apply bpow_succ. }
    pose proof (bpow_pos (-501)) as P501.
    split.
    - apply Rmult_le_compat; try lra.
      + apply Rlt_le, Rinv_0_lt_compat; lra.
      + apply Rinv_le_contravar; lra.
    - apply Rmult_le_compat; try lra.
      + apply Rlt_le, Rinv_0_lt_compat; lra.
      + apply Rinv_le_contravar; lra. }
  destruct (div_relative _ _ (-1001) 1001 FP Fp PP PN HQ ltac:(lia) ltac:(lia))
    as (Fq & Pq & Eq).
  fold P N in Eq. rewrite E52 in Eq.
  destruct (round_B2R _ Fq Pq) as (FL & EL).
  split; [exact FL|].
  set (L := B2R (round (physicalNanometers d / nanometersPerPixel d)%float)) in *.
  set (q := B2R (physicalNanometers d / nanometersPerPixel d)%float) in *.
  set (R := P / N) in *.
  assert (HR : R * N = P) by (unfold R; field; lra).
  assert (R1 : (3 / 4 - / 1099511627776) * (1 - / 4503599627370496) * Tl <= R).
  { apply Rmult_le_reg_r with N; [exact PN|]. rewrite HR.
    apply Rle_trans with (2 := HP1).
    replace ((3 / 4 - / 1099511627776) * (1 - / 4503599627370496) * Tl * N)
      with ((3 / 4 - / 1099511627776) * ((1 - / 4503599627370496) * (Tl * N)))
      by ring.
    apply Rmult_le_compat_l; [lra|].
    revert EM. unfold Rabs. destruct (Rcase_abs _); intros; lra. }
  assert (R2 : R <= (5 / 4 + / 1099511627776) * (1 + / 4503599627370496) * Tl).
  { apply Rmult_le_reg_r with N; [exact PN|]. rewrite HR.
    apply Rle_trans with (1 := HP2).
    replace ((5 / 4 + / 1099511627776) * (1 + / 4503599627370496) * Tl * N)
      with ((5 / 4 + / 1099511627776) * ((1 + / 4503599627370496) * (Tl * N)))
      by ring.
    apply Rmult_le_compat_l; [lra|].
    revert EM. unfold Rabs. destruct (Rcase_abs _); intros; lra. }
  revert Eq EL. unfold Rabs.
  repeat match goal with
         | |- context [Rcase_abs ?x] => destruct (Rcase_abs x)
         end; intros; split; lra.
Qed.

(** X9.  With the default set, when the product of the inputs and the
    power of ten lie between [2^-500] and [2^500] and the target
    significand the code computes lies between 1 and 10, the quantized
    length [physicalNanometers] is within a quarter of the target length
    [targetLengthInPixels * nanometersPerPixel], up to a relative [2^-40]
    for the rounding; and after a call that returns true, with inputs
    between [2^-500] and [2^500], [lengthInPixels] is a finite number
    between [3/4] and [5/4] of [targetLengthInPixels], up to half a pixel
    and a relative [2^-39]. *)
Theorem update_within_quarter (d : ScaleBarDimensions float) :
  allowedSignificands d = DEFAULT_ALLOWED_SIGNIFICANDS ->
  in_range (targetNanometers d) = true ->
  in_range (tenToThePowerExponent d) = true ->
  (1 <=? targetSignificand d)%float && (targetSignificand d <=? 10)%float = true ->
  (is_finite (physicalNanometers d) = true /\
   (3 / 4 - bpow (-40)) * B2R (targetNanometers d) <= B2R (physicalNanometers d) /\
   B2R (physicalNanometers d) <= (5 / 4 + bpow (-40)) * B2R (targetNanometers d)) /\
  (fst (update d) = true ->
   in_range (targetLengthInPixels d) = true ->
   in_range (nanometersPerPixel d) = true ->
   exists pixels,
     lengthInPixels (snd (update d)) = Some pixels /\
     is_finite pixels = true /\
     (3 / 4 - bpow (-39)) * B2R (targetLengthInPixels d) - / 2 <= B2R pixels /\
     B2R pixels <= (5 / 4 + bpow (-39)) * B2R (targetLengthInPixels d) + / 2).
Proof.
  intros Hset Htn Hten Hts. split.
  - rewrite is_finite_finite. exact (physicalNanometers_quarter d Hset Htn Hten Hts).
  - intros Hchanged Htl Hnpp.
    destruct (update_changed d Hchanged) as (HL & _).
    exists (round (physicalNanometers d / nanometersPerPixel d)%float).
    split; [exact HL|]. rewrite is_finite_finite.
    exact (lengthInPixels_quarter d Hset Htn Hten Hts Htl Hnpp).
Qed.

End Quarter.

(** The hypotheses of the theorems above are met on the reference library:
    at the target 3.7, at the set 2, 5 with the target 4, at 50 pixels of
    37 nm, and at the length 2000 nm. *)
Section RoundingWitnesses.

Import Binary64.
Local Unset Implicit Arguments.
#[local] Existing Instance Reference.math.
Local Open Scope float_scope.

Lemma scans_agree_binary64_witness :
  scans_agree 3.7 /\
  forall d : ScaleBarDimensions float,
    allowedSignificands d = DEFAULT_ALLOWED_SIGNIFICANDS ->
    targetSignificand d = 3.7 ->
    bestSignificand d = fullScanMinimum 3.7 (lit 1) DEFAULT_ALLOWED_SIGNIFICANDS.
Proof.
  apply (@scans_agree_binary64 Reference.math 3.7). vm_compute. reflexivity.
Defined.

Lemma closestSignificand_ascending_set_witness :
  closestSignificand 4 1 [2; 5] = fullScanMinimum 4 1 [2; 5] /\
  In (closestSignificand 4 1 [2; 5]) [1; 2; 5] /\
  forall a, In a [1; 2; 5] ->
    le (Math_abs (sub (closestSignificand 4 1 [2; 5]) 4)) (Math_abs (sub a 4)) = true.
Proof.
  apply (@closestSignificand_ascending_set Reference.math 4 1 [2; 5]).
  - vm_compute. reflexivity.
  - repeat constructor.
  - float_value 1. float_value 2. float_value 5.
    cbn [spaced]. rewrite Hv, Hv0, Hv1. repeat split; lra.
Defined.

Lemma update_quantized_binary64_witness :
  quantized (set_inputs new_ScaleBarDimensions 50 37) /\
  tenToThePowerExponent (set_inputs new_ScaleBarDimensions 50 37) =
    pow 10 (floor (log (50 * 37) / LN10)) /\
  targetSignificand (set_inputs new_ScaleBarDimensions 50 37) =
    50 * 37 / tenToThePowerExponent (set_inputs new_ScaleBarDimensions 50 37).
Proof.
  apply (@update_quantized_binary64 Reference.math
           (set_inputs new_ScaleBarDimensions 50 37));
    vm_compute; reflexivity.
Defined.

Lemma update_consistent_binary64_witness :
  consistent_within
    (B2R (physicalNanometers (set_inputs new_ScaleBarDimensions 50 37)) * bpow (-51))
    (snd (update (set_inputs new_ScaleBarDimensions 50 37))).
Proof.
  apply (@update_consistent_binary64 Reference.math
           (set_inputs new_ScaleBarDimensions 50 37));
    vm_compute; reflexivity.
Defined.

Lemma pickLengthUnit_label_range_witness :
  (1 <=? 2000 / lengthInNanometers (pickLengthUnit 2000)) = true /\
  ((2000 <? lit 1000000000000000) = true ->
   (2000 / lengthInNanometers (pickLengthUnit 2000) <=? 1000) = true).
Proof.
  apply (@pickLengthUnit_label_range Reference.math 2000);
    vm_compute; reflexivity.
Defined.

Lemma update_within_quarter_witness :
  is_finite (physicalNanometers (set_inputs new_ScaleBarDimensions 50%float 37%float)) = true /\
  ((3 / 4 - bpow (-40)) * B2R (targetNanometers (set_inputs new_ScaleBarDimensions 50%float 37%float))
   <= B2R (physicalNanometers (set_inputs new_ScaleBarDimensions 50%float 37%float)))%R /\
  (B2R (physicalNanometers (set_inputs new_ScaleBarDimensions 50%float 37%float))
   <= (5 / 4 + bpow (-40)) * B2R (targetNanometers (set_inputs new_ScaleBarDimensions 50%float 37%float)))%R.
Proof.
  apply (@update_within_quarter Reference.math
           (set_inputs new_ScaleBarDimensions 50%float 37%float));
    vm_compute; reflexivity.
Defined.

End RoundingWitnesses.

Section Counterexamples64.

Import Binary64.
Local Open Scope float_scope.
#[local] Existing Instance Reference.math.

(** C1, as stated, fails in binary64, by rounding.  With
    [targetLengthInPixels = 2.5] and [nanometersPerPixel = 0.4], both finite
    and positive, [update] returns true with [lengthInPixels = 3],
    [physicalLength = 1], [physicalUnit = "nm"]; then
    [3 * 0.4 - 1 * 1 = 0.20000000000000018] exceeds [0.4 / 2 = 0.2], and
    with the products taken exactly the difference still exceeds half of
    the float nearest to 0.4.  This holds on every platform with the
    prescribed special values. *)
Lemma update_inconsistent_binary64 :
  ecma_special_values Reference.math /\
  is_finite (lit (5 # 2)) = true /\ (0 <? lit (5 # 2)) = true /\
  is_finite (lit (2 # 5)) = true /\ (0 <? lit (2 # 5)) = true /\
  (forall M : MathLib, ecma_special_values M ->
     fst (update (N := @binary64 M)
            (set_inputs new_ScaleBarDimensions (lit (5 # 2)) (lit (2 # 5)))) = true /\
     consistent
       (snd (update (N := @binary64 M)
               (set_inputs new_ScaleBarDimensions (lit (5 # 2)) (lit (2 # 5))))) =
     false /\
     ~ @consistent_within M 0
         (snd (update (N := @binary64 M)
                 (set_inputs new_ScaleBarDimensions (lit (5 # 2)) (lit (2 # 5)))))).
Proof.
  split; [exact reference_special_values|].
  do 4 (split; [reflexivity|]).
  intros M HM. split; [|split].
  - rewrite (@update_scenario_rounding M HM). reflexivity.
  - rewrite (@update_scenario_rounding M HM). vm_compute. reflexivity.
  - exact (@scenario_rounding_inexact M HM).
Qed.

(** C2, as stated, fails in binary64, by overflow.  With
    [targetLengthInPixels = nanometersPerPixel = 1e200], both finite and
    positive, the product is Infinity, the target significand is NaN and
    [physicalNanometers] is Infinity: no member of the set is at minimal
    distance from the target. *)
Lemma update_not_quantized_binary64 :
  ecma_special_values Reference.math /\
  is_finite 1e200 = true /\ (0 <? 1e200) = true /\
  (forall M : MathLib, ecma_special_values M ->
     targetSignificand (N := @binary64 M)
       (set_inputs new_ScaleBarDimensions 1e200 1e200) = nan /\
     physicalNanometers (N := @binary64 M)
       (set_inputs new_ScaleBarDimensions 1e200 1e200) = infinity /\
     ~ quantized (N := @binary64 M)
         (set_inputs new_ScaleBarDimensions 1e200 1e200)).
Proof.
  split; [exact reference_special_values|].
  do 2 (split; [reflexivity|]).
  intros M HM. destruct (@update_scenario_overflow M HM) as [Hts HP].
  split; [exact Hts|]. split; [exact HP|].
  intros [best [_ [Hmin _]]].
  specialize (Hmin (lit 1) (or_introl eq_refl)).
  rewrite Hts in Hmin. unfold le in Hmin. simpl in Hmin.
  rewrite FloatAxioms.leb_spec in Hmin.
  change (Prim2SF nan) with S754_nan in Hmin.
  destruct (Prim2SF (abs (best - nan))); discriminate.
Qed.

(** The bound on the target in [scans_agree_binary64] cannot be dropped
    altogether.  At the target 1e16, which [update] does not compute, where
    [|1 - 1e16|] rounds to 1e16 and [|1.5 - 1e16|] and [|2 - 1e16|] both
    round to [1e16 - 2], the early-exit scan stops at 1.5 while the full
    scan goes on to 10. *)
Lemma scans_disagree_binary64 :
  closestSignificand 1e16 (lit 1) DEFAULT_ALLOWED_SIGNIFICANDS = 1.5 /\
  fullScanMinimum 1e16 (lit 1) DEFAULT_ALLOWED_SIGNIFICANDS = 10 /\
  ~ scans_agree 1e16.
Proof.
  split; [vm_compute; reflexivity|].
  split; [vm_compute; reflexivity|].
  unfold scans_agree. vm_compute. intros E.
  assert (H : (1.5 =? 10) = true) by (rewrite E; reflexivity).
  vm_compute in H. discriminate.
Qed.

End Counterexamples64.
